(** * CollegeApplPortal: the confidential submission pipeline

    A shallow embedding of the admin authorization middlewares, the decryption
    orchestrator, the submission validators, the file-backed store and the
    statistics aggregators of the portal, with the properties stated for
    them.

    Conventions.  JavaScript strings are [string]s, a [Date] is its epoch
    value in milliseconds ([Z]), a JavaScript [Map] used as a dictionary is
    a [gmap], and a [Map] whose iteration order is observed is an
    association list in insertion order.  Numbers are IEEE binary64 values,
    written with the Standard Library's [spec_float]. *)

From Stdlib Require Import ZArith Lia Ascii String List Bool SpecFloat Sorted.
From stdpp Require Import base option list gmap strings.

Set Warnings "-register-all,-clear-no-such-hyp".

Local Open Scope string_scope.
Local Open Scope Z_scope.
Local Open Scope list_scope.

(** ** The JavaScript values and built-ins the sources use *)
Module JS.

(** *** Numbers: binary64, rounding to nearest, ties to even *)

Definition num_of_Z (z : Z) : spec_float := binary_normalize 53 1024 z 0 false.

(** The Number nearest to [m * 10^e10], negated when [neg]. *)
Definition num_of_decimal (neg : bool) (m : positive) (e10 : Z) : spec_float :=
  match e10 with
  | Zneg k =>
      SFdiv 53 1024 (S754_finite neg m 0) (S754_finite false (10 ^ k)%positive 0)
  | _ => binary_round 53 1024 neg (m * Z.to_pos (10 ^ e10))%positive 0
  end.

Definition isNaN (x : spec_float) : bool :=
  match x with S754_nan => true | _ => false end.

(** [x + y], [x / y], [x >= y], [x <= y], [x > y] on Numbers. *)
Definition num_add (x y : spec_float) : spec_float := SFadd 53 1024 x y.
Definition num_div (x y : spec_float) : spec_float := SFdiv 53 1024 x y.
Definition num_ge (x y : spec_float) : bool := SFleb y x.
Definition num_le (x y : spec_float) : bool := SFleb x y.
Definition num_gt (x y : spec_float) : bool := SFltb y x.

(** The same Number, bit for bit ([NaN] has one representation here). *)
Definition same_num (x y : spec_float) : bool :=
  match x, y with
  | S754_zero a, S754_zero b | S754_infinity a, S754_infinity b => Bool.eqb a b
  | S754_nan, S754_nan => true
  | S754_finite a m e, S754_finite b m' e' =>
      Bool.eqb a b && (m =? m')%positive && (e =? e')
  | _, _ => false
  end.

(** Truthiness of a Number: [NaN], [+0] and [-0] are falsy. *)
Definition num_truthy (x : spec_float) : bool :=
  match x with
  | S754_nan | S754_zero _ => false
  | _ => true
  end.

(** *** Strings, written as their UTF-8 bytes *)

Definition codes (s : string) : list N := map N_of_ascii (list_ascii_of_string s).
Definition of_codes (l : list N) : string :=
  string_of_list_ascii (map ascii_of_N l).

(** [s.length], in UTF-16 code units: one for each code point, two for
    those outside the basic plane (a four-byte sequence). *)
Definition utf16_length (l : list N) : Z :=
  fold_left (λ acc c,
               if ((128 <=? c) && (c <? 192))%N then acc
               else if (240 <=? c)%N then acc + 2 else acc + 1) l 0.

(** [Some rest] when the bytes start with a WhiteSpace or LineTerminator
    code point, [rest] being what follows it. *)
Definition ws_prefix (l : list N) : option (list N) :=
  match l with
  | 9%N :: r | 10%N :: r | 11%N :: r | 12%N :: r | 13%N :: r | 32%N :: r => Some r
  | 194%N :: 160%N :: r => Some r
  | 225%N :: 154%N :: 128%N :: r => Some r
  | 226%N :: 128%N :: c :: r =>
      if ((128 <=? c) && (c <=? 138) || (c =? 168) || (c =? 169) || (c =? 175))%N
      then Some r else None
  | 226%N :: 129%N :: 159%N :: r => Some r
  | 227%N :: 128%N :: 128%N :: r => Some r
  | 239%N :: 187%N :: 191%N :: r => Some r
  | _ => None
  end.

(** The same, read from the end of the reversed bytes. *)
Definition ws_suffix_rev (l : list N) : option (list N) :=
  match l with
  | 9%N :: r | 10%N :: r | 11%N :: r | 12%N :: r | 13%N :: r | 32%N :: r => Some r
  | 160%N :: 194%N :: r => Some r
  | 128%N :: 154%N :: 225%N :: r => Some r
  | c :: 128%N :: 226%N :: r =>
      if ((128 <=? c) && (c <=? 138) || (c =? 168) || (c =? 169) || (c =? 175))%N
      then Some r else None
  | 159%N :: 129%N :: 226%N :: r => Some r
  | 128%N :: 128%N :: 227%N :: r => Some r
  | 191%N :: 187%N :: 239%N :: r => Some r
  | _ => None
  end.

Fixpoint strip (step : list N → option (list N)) (fuel : nat) (l : list N)
    : list N :=
  match fuel with
  | O => l
  | S fuel' => match step l with
               | Some r => strip step fuel' r
               | None => l
               end
  end.

Definition trimStart (l : list N) : list N := strip ws_prefix (length l) l.
Definition trimEnd (l : list N) : list N :=
  rev (strip ws_suffix_rev (length l) (rev l)).
(** [s.trim()] *)
Definition trim (l : list N) : list N := trimEnd (trimStart l).

(** Whether the string holds a code point that [\s] matches. *)
Fixpoint has_whitespace (l : list N) : bool :=
  match l with
  | [] => false
  | c :: r => match ws_prefix l with
              | Some _ => true
              | None => has_whitespace r
              end
  end.

(** *** parseFloat *)

Definition is_digit (c : N) : bool := ((48 <=? c) && (c <=? 57))%N.

(** The longest run of decimal digits at the front, and the rest. *)
Fixpoint span_digits (l : list N) : list N * list N :=
  match l with
  | c :: r => if is_digit c then let '(ds, r') := span_digits r in (c :: ds, r')
              else ([], l)
  | [] => ([], [])
  end.

Definition digits_value (ds : list N) : Z :=
  fold_left (λ acc c, 10 * acc + (Z.of_N c - 48)) ds 0.

(** The value of the ExponentPart at the front when there is a complete
    one, [0] otherwise. *)
Definition exponent_part (l : list N) : Z :=
  match l with
  | c :: r =>
      if ((c =? 101) || (c =? 69))%N then
        match r with
        | 43%N :: r' => match span_digits r' with
                        | ([], _) => 0 | (ds, _) => digits_value ds end
        | 45%N :: r' => match span_digits r' with
                        | ([], _) => 0 | (ds, _) => - digits_value ds end
        | _ => match span_digits r with
               | ([], _) => 0 | (ds, _) => digits_value ds end
        end
      else 0
  | [] => 0
  end.

(** The Number of the longest prefix that is a StrUnsignedDecimalLiteral,
    [NaN] when there is none. *)
Definition unsigned_literal (neg : bool) (l : list N) : spec_float :=
  if bool_decide (take 8 l = codes "Infinity") then S754_infinity neg else
  let '(ip, r) := span_digits l in
  let '(fp, r') := match r with
                   | 46%N :: r1 => span_digits r1
                   | _ => ([], r)
                   end in
  match ip, fp with
  | [], [] => S754_nan
  | _, _ =>
      match digits_value (ip ++ fp) with
      | Zpos m => num_of_decimal neg m (exponent_part r' - Z.of_nat (length fp))
      | _ => S754_zero neg
      end
  end.

(** [parseFloat(s)] for a string [s]. *)
Definition parseFloat_string (s : string) : spec_float :=
  match trimStart (codes s) with
  | 43%N :: r => unsigned_literal false r
  | 45%N :: r => unsigned_literal true r
  | l => unsigned_literal false l
  end.

(** *** Number::toString and Number.prototype.toFixed *)

Fixpoint decimal_fuel (fuel : nat) (z : Z) (acc : string) : string :=
  match fuel with
  | O => acc
  | S fuel' =>
      let acc' := String (ascii_of_N (48 + Z.to_N (z mod 10))) acc in
      if z <? 10 then acc' else decimal_fuel fuel' (z / 10) acc'
  end.
(** The decimal digits of a natural number. *)
Definition decimal (z : Z) : string := decimal_fuel (S (Z.to_nat (Z.log2 z))) z "".

Fixpoint zeros (n : nat) : string :=
  match n with O => "" | S n' => String "0" (zeros n') end.

(** [m * 2^e * 10^j] as a fraction. *)
Definition scaled (m : positive) (e j : Z) : Z * Z :=
  (Zpos m * 2 ^ Z.max e 0 * 10 ^ Z.max j 0,
   2 ^ Z.max (- e) 0 * 10 ^ Z.max (- j) 0).

Fixpoint decimal_exponent_from (fuel : nat) (m : positive) (e n : Z) : Z :=
  match fuel with
  | O => n
  | S fuel' => let '(a, b) := scaled m e (- n) in
               if a <? b then n else decimal_exponent_from fuel' m e (n + 1)
  end.
(** The least [n] with [m * 2^e < 10^n]. *)
Definition decimal_exponent (m : positive) (e : Z) : Z :=
  decimal_exponent_from 640 m e (-324).

(** The digits [s], their number [k] and the exponent [n] of
    Number::toString: [k] as small as possible with [s * 10^(n-k)]
    rounding to the Number, [s] as close to it as possible. *)
Fixpoint shortest_from (fuel : nat) (m : positive) (e n k : Z) : Z * Z * Z :=
  let x := S754_finite false m e in
  let '(a, b) := scaled m e (k - n) in
  let lo := a / b in
  let hi := lo + 1 in
  let ok c := match c with
              | Zpos p => same_num (num_of_decimal false p (n - k)) x
              | _ => false
              end in
  let pick c := if c =? 10 ^ k then (1, 1, n + 1) else (c, k, n) in
  match fuel with
  | O => pick lo
  | S fuel' =>
      match ok lo, ok hi with
      | true, true =>
          match Z.compare (2 * (a mod b)) b with
          | Lt => pick lo
          | Gt => pick hi
          | Eq => if Z.even lo then pick lo else pick hi
          end
      | true, false => pick lo
      | false, true => pick hi
      | false, false => shortest_from fuel' m e n (k + 1)
      end
  end.

Definition sign_exponent (z : Z) : string :=
  String.append (if 0 <=? z then "+" else "-") (decimal (Z.abs z)).

(** Number::toString(x), radix 10. *)
Definition Number_toString (x : spec_float) : string :=
  match x with
  | S754_nan => "NaN"
  | S754_zero _ => "0"
  | S754_infinity s => if s then "-Infinity" else "Infinity"
  | S754_finite s m e =>
      let '(d, k, n) := shortest_from 17 m e (decimal_exponent m e) 1 in
      let ds := decimal d in
      let body :=
        if (k <=? n) && (n <=? 21) then
          String.append ds (zeros (Z.to_nat (n - k)))
        else if (0 <? n) && (n <=? 21) then
          String.append (substring 0 (Z.to_nat n) ds)
            (String.append "." (substring (Z.to_nat n) (Z.to_nat (k - n)) ds))
        else if (-6 <? n) && (n <=? 0) then
          String.append "0." (String.append (zeros (Z.to_nat (- n))) ds)
        else if k =? 1 then
          String.append ds (String.append "e" (sign_exponent (n - 1)))
        else
          String.append (substring 0 1 ds)
            (String.append "."
               (String.append (substring 1 (Z.to_nat (k - 1)) ds)
                  (String.append "e" (sign_exponent (n - 1)))))
      in if s then String.append "-" body else body
  end.

(** [x.toFixed(f)] for [0 <= f <= 100]. *)
Definition toFixed (x : spec_float) (f : Z) : string :=
  match x with
  | S754_nan | S754_infinity _ => Number_toString x
  | S754_zero _ =>
      if f =? 0 then "0" else String.append "0." (zeros (Z.to_nat f))
  | S754_finite s m e =>
      let '(a21, b21) := scaled m e (-21) in
      if b21 <=? a21 then Number_toString x else
      let '(a, b) := scaled m e f in
      let n := (2 * a + b) / (2 * b) in
      let ds := decimal n in
      let k := Z.of_nat (String.length ds) in
      let ds := if k <=? f then String.append (zeros (Z.to_nat (f + 1 - k))) ds
                else ds in
      let k := Z.max k (f + 1) in
      let body :=
        if f =? 0 then ds
        else String.append (substring 0 (Z.to_nat (k - f)) ds)
               (String.append "." (substring (Z.to_nat (k - f)) (Z.to_nat f) ds))
      in if s then String.append "-" body else body
  end.

(** *** Dates *)

(** Year, month and day of the day [z] days after 1970-01-01. *)
Definition civil_from_days (z : Z) : Z * Z * Z :=
  let z := z + 719468 in
  let era := z / 146097 in
  let doe := z - era * 146097 in
  let yoe := (doe - doe / 1460 + doe / 36524 - doe / 146096) / 365 in
  let doy := doe - (365 * yoe + yoe / 4 - yoe / 100) in
  let mp := (5 * doy + 2) / 153 in
  let d := doy - (153 * mp + 2) / 5 + 1 in
  let m := if mp <? 10 then mp + 3 else mp - 9 in
  (yoe + era * 400 + (if m <=? 2 then 1 else 0), m, d).

(** A natural number in at least [n] digits. *)
Definition pad (n : nat) (z : Z) : string :=
  let ds := decimal z in
  String.append (zeros (n - String.length ds)) ds.

(** [date.toISOString().split('T')[0]] for a Date with time value [ms]. *)
Definition isoDate (ms : Z) : string :=
  let '(y, m, d) := civil_from_days (ms / 86400000) in
  let year := if (0 <=? y) && (y <=? 9999) then pad 4 y
              else String.append (if y <? 0 then "-" else "+") (pad 6 (Z.abs y)) in
  String.append year
    (String.append "-" (String.append (pad 2 m) (String.append "-" (pad 2 d)))).

(** [date.toISOString()] for a Date with time value [ms]. *)
Definition toISOString (ms : Z) : string :=
  let t := ms mod 86400000 in
  String.append (isoDate ms)
    (String.append "T"
       (String.append (pad 2 (t / 3600000))
          (String.append ":"
             (String.append (pad 2 (t / 60000 mod 60))
                (String.append ":"
                   (String.append (pad 2 (t / 1000 mod 60))
                      (String.append "."
                         (String.append (pad 3 (t mod 1000)) "Z")))))))).

(** *** Values *)

(** What [JSON.parse] produces: request bodies and decrypted payloads. *)
Inductive Json :=
  | JNull
  | JBool (b : bool)
  | JNum (x : spec_float)
  | JStr (s : string)
  | JArr (items : list Json)
  | JObj (fields : list (string * Json)).

(** [items.join(sep)] on strings. *)
Fixpoint join (sep : string) (items : list string) : string :=
  match items with
  | [] => ""
  | [s] => s
  | s :: rest => String.append s (String.append sep (join sep rest))
  end.

(** ToString of a parsed value. *)
Fixpoint ToString (v : Json) : string :=
  match v with
  | JNull => "null"
  | JBool b => if b then "true" else "false"
  | JNum x => Number_toString x
  | JStr s => s
  | JArr items =>
      join "," (map (λ i, match i with JNull => "" | _ => ToString i end) items)
  | JObj _ => "[object Object]"
  end.

(** A property read [data.key]; [None] is [undefined]. The keys of a
    parsed object are distinct. *)
Fixpoint assoc {A} (key : string) (fields : list (string * A)) : option A :=
  match fields with
  | [] => None
  | (k, v) :: rest => if String.eqb k key then Some v else assoc key rest
  end.

Definition get (data : Json) (key : string) : option Json :=
  match data with
  | JObj fields => assoc key fields
  | _ => None
  end.

(** Truthiness of a property that may be undefined. *)
Definition truthy (v : option Json) : bool :=
  match v with
  | None | Some JNull => false
  | Some (JBool b) => b
  | Some (JNum x) => num_truthy x
  | Some (JStr s) => negb (String.eqb s "")
  | Some (JArr _) | Some (JObj _) => true
  end.

(** [typeof v === 'string'] *)
Definition is_string (v : option Json) : bool :=
  match v with Some (JStr _) => true | _ => false end.

(** [parseFloat(v)]: the argument is converted with ToString first. *)
Definition parseFloat (v : option Json) : spec_float :=
  match v with
  | None => S754_nan
  | Some j => parseFloat_string (ToString j)
  end.

(** What a handler passes to [res.json]: parsed values, and also Dates,
    Buffers and [undefined], which only serialization turns into JSON. *)
Inductive Val :=
  | VUndefined
  | VJson (j : Json)
  | VDate (ms : Z)
  | VBuffer (bytes : string)
  | VArr (items : list Val)
  | VObj (fields : list (string * Val)).

Definition VStr (s : string) : Val := VJson (JStr s).
Definition VBool (b : bool) : Val := VJson (JBool b).
Definition VInt (z : Z) : Val := VJson (JNum (num_of_Z z)).
(** A nullable text column as a value. *)
Definition VText (o : option string) : Val :=
  match o with Some s => VStr s | None => VJson JNull end.

(** How a promise settles. *)
Inductive Settled :=
  | Fulfilled (value : Val)
  | Rejected (reason : Val).

End JS.

(** ** HTTP plumbing shared by the middlewares and the handlers *)

(** What an Express middleware does with a request: it either ends the
    request with a status code and a JSON body, or hands over to the next
    middleware by calling [next()]. *)
Inductive Outcome (B : Type) : Type :=
  | Respond (status : Z) (body : B)
  | Next.
Arguments Respond {B} status body.
Arguments Next {B}.

(** The part of an Express request the admin router reads. *)
Record Request := {
  headers_authorization : option string;
  query_token : option string;
  req_ip : option string;
  connection_remoteAddress : option string;
  params_id : string;
  isAdmin : bool
}.

(** JavaScript truthiness of a possibly undefined string. *)
Definition truthy_str (s : option string) : bool :=
  match s with
  | Some s => negb (String.eqb s "")
  | None => false
  end.

(** [a || b] on possibly undefined strings. *)
Definition or_else (a b : option string) : option string :=
  if truthy_str a then a else b.

(** ** utils/auth.js *)
Module Auth.

(** The error bodies of the admin middlewares: [{error, message}]. *)
Record ErrorBody := { error : string; message : string }.

(** [process.env.ADMIN_TOKEN || 'admin-demo-token-2024'] *)
Definition validToken (env_ADMIN_TOKEN : option string) : string :=
  match or_else env_ADMIN_TOKEN (Some "admin-demo-token-2024") with
  | Some t => t
  | None => "admin-demo-token-2024"
  end.

Definition validateAdminToken (env_ADMIN_TOKEN : option string)
    (token : option string) : bool :=
  if negb (truthy_str token) then false
  else match token with
       | Some t => String.eqb t (validToken env_ADMIN_TOKEN)
       | None => false
       end.

(** [authHeader.startsWith('Bearer ')] and [authHeader.substring(7)]. *)
Definition startsWith_Bearer (h : string) : bool := String.prefix "Bearer " h.
Definition substring_from (n : nat) (s : string) : string :=
  substring n (String.length s - n) s.

(** The [token] variable of [authenticateAdmin]: the bearer part of the
    Authorization header when it starts with ['Bearer '], otherwise the
    [token] query parameter when that is truthy_str, otherwise [null]. *)
Definition extractToken (req : Request) : option string :=
  match headers_authorization req with
  | Some h =>
      if truthy_str (Some h) && startsWith_Bearer h
      then Some (substring_from 7 h)
      else if truthy_str (query_token req) then query_token req else None
  | None => if truthy_str (query_token req) then query_token req else None
  end.

(** (Nothing in the [try] block throws on these values, so the 500 of
    the [catch] is never sent.) *)
Definition authenticateAdmin (env_ADMIN_TOKEN : option string)
    (req : Request) : Request * Outcome ErrorBody :=
  let token := extractToken req in
  if negb (truthy_str token) then
    (req, Respond 401 {| error := "Authentication required";
                         message := "Please provide a valid admin token" |})
  else if negb (validateAdminToken env_ADMIN_TOKEN token) then
    (req, Respond 403 {| error := "Invalid token";
                         message := "The provided token is not valid" |})
  else
    ({| headers_authorization := headers_authorization req;
        query_token := query_token req;
        req_ip := req_ip req;
        connection_remoteAddress := connection_remoteAddress req;
        params_id := params_id req;
        isAdmin := true |}, Next).

Definition requireAdmin (req : Request) : Outcome ErrorBody :=
  if negb (isAdmin req) then
    Respond 403 {| error := "Admin access required";
                   message := "This endpoint requires admin privileges" |}
  else Next.

(** [`admin_${clientIp}`], where an undefined address prints as
    ["undefined"]. *)
Definition rateLimitKey (req : Request) : string :=
  String.append "admin_"
    match or_else (req_ip req) (connection_remoteAddress req) with
    | Some ip => ip
    | None => "undefined"
    end.

(** [requests.filter(time => now - time < 60000)] *)
Definition recent (now : Z) (requests : list Z) : list Z :=
  filter (λ time, now - time < 60000) requests.

(** [global.rateLimitStore] is [None] until the first call creates the
    [Map]. The function returns the new global and what the middleware
    did. *)
Definition adminRateLimit (global_rateLimitStore : option (gmap string (list Z)))
    (now : Z) (req : Request)
    : option (gmap string (list Z)) * Outcome ErrorBody :=
  let store := default ∅ global_rateLimitStore in
  let key := rateLimitKey req in
  let requests := default [] (store !! key) in
  let recentRequests := recent now requests in
  if bool_decide (10 <= Z.of_nat (length recentRequests)) then
    (Some store,
     Respond 429 {| error := "Rate limit exceeded";
                    message := "Too many admin requests. Please try again later." |})
  else
    (Some (<[key := (recentRequests ++ [now])]> store), Next).

(** [router.use(authenticateAdmin); router.use(requireAdmin);
    router.use(adminRateLimit)]: the three middlewares every admin route
    passes through, in this order. [now] is what [Date.now()] returns when
    the rate limiter runs. *)
Definition adminChain (env_ADMIN_TOKEN : option string)
    (global_rateLimitStore : option (gmap string (list Z)))
    (now : Z) (req : Request)
    : option (gmap string (list Z)) * Request * Outcome ErrorBody :=
  match authenticateAdmin env_ADMIN_TOKEN req with
  | (req1, Respond status body) =>
      (global_rateLimitStore, req1, Respond status body)
  | (req1, Next) =>
      match requireAdmin req1 with
      | Respond status body =>
          (global_rateLimitStore, req1, Respond status body)
      | Next =>
          let '(g, o) := adminRateLimit global_rateLimitStore now req1 in
          (g, req1, o)
      end
  end.

(** A sequence of requests, each with its arrival time, sent through the
    three middlewares one after the other; the outcomes come back in
    order. *)
Fixpoint serveAll (env_ADMIN_TOKEN : option string)
    (g : option (gmap string (list Z))) (reqs : list (Z * Request))
    : option (gmap string (list Z)) * list (Outcome ErrorBody) :=
  match reqs with
  | [] => (g, [])
  | (now, req) :: reqs' =>
      let '(g1, _, o) := adminChain env_ADMIN_TOKEN g now req in
      let '(g2, os) := serveAll env_ADMIN_TOKEN g1 reqs' in
      (g2, o :: os)
  end.

(** The window stored for a key ([[]] when the key or the map is absent). *)
Definition window (g : option (gmap string (list Z))) (key : string) : list Z :=
  default [] (default ∅ g !! key).

(** Every later timestamp of the sequence is less than 60 seconds after
    every earlier one: the sequence fits in one sliding window. *)
Fixpoint within_window (ts : list Z) : Prop :=
  match ts with
  | [] => True
  | e :: ts' => Forall (λ t, t - e < 60000) ts' ∧ within_window ts'
  end.

(** A request of the caller whose window is stored under [key], carrying
    the admin secret. *)
Definition from_admin (env_ADMIN_TOKEN : option string) (key : string)
    (req : Request) : Prop :=
  validateAdminToken env_ADMIN_TOKEN (extractToken req) = true
  ∧ rateLimitKey req = key.

(** The states of [global.rateLimitStore] a running process can be in: it
    starts undefined and only [adminRateLimit] writes it. *)
Inductive reachable : option (gmap string (list Z)) → Prop :=
  | reachable_start : reachable None
  | reachable_step g now req :
      reachable g → reachable (adminRateLimit g now req).1.

(** A caller that presents the default admin secret in the Authorization
    header. *)
Definition adminRequest : Request :=
  {| headers_authorization := Some "Bearer admin-demo-token-2024";
     query_token := None;
     req_ip := Some "203.0.113.7";
     connection_remoteAddress := None;
     params_id := "";
     isAdmin := false |}.

(** Eleven requests of that caller, one per second. *)
Definition burst : list (Z * Request) :=
  map (λ t, (t, adminRequest))
    [0; 1000; 2000; 3000; 4000; 5000; 6000; 7000; 8000; 9000; 10000].

End Auth.


(** ** utils/validation.js and shared/schema.ts *)
Module Validation.
Import JS.

Record ValidationResult := { isValid : bool; errors : list string }.

(** [/^[^\s@]+@[^\s@]+\.[^\s@]+$/.test(email)]: no white space, exactly one
    [@] with something before it, and after it a dot that is neither the
    first nor the last character. *)
Fixpoint after_at (l : list N) : option (list N) :=
  match l with
  | [] => None
  | c :: r => if (c =? 64)%N then Some r else after_at r
  end.

Definition isValidEmail (email : Json) : bool :=
  let l := codes (ToString email) in
  match l, after_at l with
  | first :: _, Some domain =>
      negb (has_whitespace l)
      && negb (first =? 64)%N
      && forallb (λ c, negb (c =? 64)%N) domain
      && existsb (λ c, (c =? 46)%N) (removelast (tail domain))
  | _, _ => false
  end.

(** [phone.replace(/\D/g, '')] has 10 to 15 characters. A value that is
    not a string has no [replace] method: the call throws a TypeError. *)
Definition isValidPhone (phone : Json) : string + bool :=
  match phone with
  | JStr s =>
      let digits := filter (λ c, is_digit c = true) (codes s) in
      inr ((10 <=? Z.of_nat (length digits)) && (Z.of_nat (length digits) <=? 15))
  | _ => inl "phone.replace is not a function"
  end.

(** [!isNaN(gpaNum) && gpaNum >= 0.0 && gpaNum <= 4.0] with
    [gpaNum = parseFloat(gpa)]. *)
Definition isValidGpa (gpa : option Json) : bool :=
  let gpaNum := parseFloat gpa in
  negb (isNaN gpaNum) && num_ge gpaNum (S754_zero false)
  && num_le gpaNum (num_of_Z 4).

(** [typeof v !== 'string' || v.trim().length < 2] *)
Definition shorter_than_2 (v : option Json) : bool :=
  match v with
  | Some (JStr s) => utf16_length (trim (codes s)) <? 2
  | _ => true
  end.

(** [errors.push(msg)] when [cond] holds. *)
Definition push_if (cond : bool) (msg : string) (errors : list string)
    : list string :=
  if cond then errors ++ [msg] else errors.

(** Reading a property of [null] throws: for a [null] body the first
    test, [!data.encryptedData], raises a TypeError. *)
Definition validateApplicationData (data : Json) : string + ValidationResult :=
  if (match data with JNull => true | _ => false end) then
    inl "Cannot read properties of null (reading 'encryptedData')"
  else
  let errors := [] in
  let errors := push_if (negb (truthy (get data "encryptedData")))
                  "Encrypted data is required" errors in
  let errors := push_if (negb (truthy (get data "iv")))
                  "Initialization vector (IV) is required" errors in
  let errors := push_if (truthy (get data "encryptedData")
                         && negb (is_string (get data "encryptedData")))
                  "Encrypted data must be a string" errors in
  let errors := push_if (truthy (get data "iv")
                         && negb (is_string (get data "iv")))
                  "IV must be a string" errors in
  let errors := push_if (truthy (get data "name")
                         && shorter_than_2 (get data "name"))
                  "Name must be at least 2 characters long" errors in
  let errors := push_if (truthy (get data "email")
                         && negb (from_option isValidEmail false (get data "email")))
                  "Invalid email format" errors in
  match (if truthy (get data "phone")
         then from_option isValidPhone (inr false) (get data "phone")
         else inr true) with
  | inl thrown => inl thrown
  | inr phone_ok =>
      let errors := push_if (negb phone_ok) "Invalid phone number format" errors in
      let errors := push_if (truthy (get data "course")
                             && shorter_than_2 (get data "course"))
                      "Course must be at least 2 characters long" errors in
      let errors := push_if (truthy (get data "department")
                             && shorter_than_2 (get data "department"))
                      "Department must be at least 2 characters long" errors in
      let errors := push_if (truthy (get data "gpa")
                             && negb (isValidGpa (get data "gpa")))
                      "GPA must be between 0.0 and 4.0" errors in
      let errors := push_if (truthy (get data "documentName")
                             && negb (is_string (get data "documentName")))
                      "Document name must be a string" errors in
      inr {| isValid := bool_decide (length errors = 0%nat); errors := errors |}
  end.

(** One character of a UUID pattern: a hexadecimal digit, a dash, the
    version digit [1-5] or the variant digit [89ab]; letters in either
    case. *)
Inductive UuidClass := Hex | Dash | Version | Variant.

Definition in_class (cl : UuidClass) (c : N) : bool :=
  match cl with
  | Hex => (is_digit c || ((97 <=? c) && (c <=? 102)) || ((65 <=? c) && (c <=? 70)))%N
  | Dash => (c =? 45)%N
  | Version => ((49 <=? c) && (c <=? 53))%N
  | Variant => ((c =? 56) || (c =? 57) || (c =? 97) || (c =? 98)
                || (c =? 65) || (c =? 66))%N
  end.

(** [[0-9a-f]{8}-[0-9a-f]{4}-[1-5][0-9a-f]{3}-[89ab][0-9a-f]{3}-[0-9a-f]{12}] *)
Definition uuidPattern : list UuidClass :=
  replicate 8 Hex ++ [Dash] ++ replicate 4 Hex ++ [Dash]
  ++ [Version] ++ replicate 3 Hex ++ [Dash]
  ++ [Variant] ++ replicate 3 Hex ++ [Dash] ++ replicate 12 Hex.

Fixpoint matches (pattern : list UuidClass) (l : list N) : bool :=
  match pattern, l with
  | [], [] => true
  | cl :: pattern', c :: l' => in_class cl c && matches pattern' l'
  | _, _ => false
  end.

Definition isValidUuid (uuid : string) : bool := matches uuidPattern (codes uuid).

Definition validateApplicationId (id : string) : ValidationResult :=
  let errors := [] in
  let errors :=
    if String.eqb id "" then errors ++ ["Application ID is required"]
    else if negb (isValidUuid id) then errors ++ ["Invalid application ID format"]
    else errors in
  {| isValid := bool_decide (length errors = 0%nat); errors := errors |}.

(** The [gpa] field of [applicationDataSchema]: the issues the refinement
    of [z.string()] reports for a string. *)
Definition applicationDataSchema_gpa (val : string) : list string :=
  let num := parseFloat_string val in
  if negb (isNaN num) && num_ge num (S754_zero false) && num_le num (num_of_Z 4)
  then []
  else ["GPA must be between 0 and 4.0"].

(** [insertApplicationSchema.safeParse(body)]: both picked columns are
    [text(...).notNull()], so both fields must be strings; the parsed data
    holds just these two. *)
Definition insertApplicationSchema_safeParse (body : Json)
    : option (string * string) :=
  match get body "encryptedData", get body "iv" with
  | Some (JStr encryptedData), Some (JStr iv) => Some (encryptedData, iv)
  | _, _ => None
  end.

(** A Number that is not [NaN] and lies between [0.0] and [4.0], in the
    order of [>=] and [<=] on Numbers. *)
Definition gpa_in_range (x : spec_float) : Prop :=
  isNaN x = false ∧ num_ge x (S754_zero false) = true
  ∧ num_le x (num_of_Z 4) = true.

(** A GPA of [c] hundredths written with two decimals, as in "3.90". *)
Definition two_decimals (c : Z) : string :=
  String.append (decimal (c / 100)) (String.append "." (pad 2 (c mod 100))).

(** Whether [isValidGpa] decides the GPAs of [c] and of minus [c]
    hundredths as the interval [0.00, 4.00] does. *)
Definition decides_hundredths (c : Z) : bool :=
  Bool.eqb (isValidGpa (Some (JStr (two_decimals c)))) (c <=? 400)
  && Bool.eqb (isValidGpa (Some (JStr (String.append "-" (two_decimals c)))))
       (c =? 0).

(** A submission that carries the two required fields and a GPA. *)
Definition submission (gpa : string) : Json :=
  JObj [("encryptedData", JStr "3q2+7w=="); ("iv", JStr "AAECAwQFBgcICQoL");
        ("gpa", JStr gpa)].

End Validation.

(** ** server/storage.ts and the storage-backed server/routes.ts *)
Module Storage.
Import JS Validation.

Record Application := {
  id : string;
  encryptedData : string;
  iv : string;
  submittedAt : Z
}.

(** A JavaScript [Map] keeps its entries in insertion order; [set] on a
    key that is present replaces the value where it stands. *)
Fixpoint Map_set {V} (key : string) (v : V) (m : list (string * V))
    : list (string * V) :=
  match m with
  | [] => [(key, v)]
  | (k, x) :: m' =>
      if String.eqb k key then (k, v) :: m' else (k, x) :: Map_set key v m'
  end.

Definition Map_values {V} (m : list (string * V)) : list V := map snd m.

(** [Array.prototype.sort(compareFn)] is a stable sort: an element goes
    after another one only when [compareFn] says it is greater. *)
Fixpoint insert_by {A} (compareFn : A → A → Z) (x : A) (l : list A) : list A :=
  match l with
  | [] => [x]
  | y :: l' =>
      if 0 <? compareFn x y then y :: insert_by compareFn x l' else x :: l
  end.

Definition Array_sort {A} (compareFn : A → A → Z) (l : list A) : list A :=
  foldr (insert_by compareFn) [] l.

(** applications.json: absent, not parseable, or an array of records. *)
Inductive File :=
  | Missing
  | Unreadable
  | Contents (apps : list Application).

Record FileStorage := {
  applications : list (string * Application);
  initialized : bool
}.

(** [new FileStorage()] *)
Definition newFileStorage : FileStorage :=
  {| applications := []; initialized := false |}.

Definition saveToFile (st : FileStorage) : File :=
  Contents (Map_values (applications st)).

(** Loads the file into the map on first use; a missing file is created
    empty, any other error is logged and the map stays as it is. *)
Definition initialize (st : FileStorage) (file : File) : FileStorage * File :=
  if initialized st then (st, file) else
  match file with
  | Contents apps =>
      ({| applications :=
            fold_left (λ m app, Map_set (id app) app m) apps (applications st);
          initialized := true |}, file)
  | Missing =>
      ({| applications := applications st; initialized := true |}, saveToFile st)
  | Unreadable =>
      ({| applications := applications st; initialized := true |}, file)
  end.

(** [uuid] is what [randomUUID()] returns and [now] what [new Date()]
    reads. *)
Definition createApplication (st : FileStorage) (file : File)
    (uuid : string) (now : Z) (insertApp : string * string)
    : FileStorage * File * Application :=
  let '(st, file) := initialize st file in
  let application := {| id := uuid; encryptedData := insertApp.1;
                        iv := insertApp.2; submittedAt := now |} in
  let st := {| applications := Map_set uuid application (applications st);
               initialized := initialized st |} in
  (st, saveToFile st, application).

Definition getAllApplications (st : FileStorage) (file : File)
    : FileStorage * File * list Application :=
  let '(st, file) := initialize st file in
  (st, file,
   Array_sort (λ a b, submittedAt b - submittedAt a)
     (Map_values (applications st))).

Definition getApplication (st : FileStorage) (file : File) (key : string)
    : FileStorage * File * option Application :=
  let '(st, file) := initialize st file in
  (st, file, assoc key (applications st)).

(** The answers of [POST /api/applications]: 400 "Invalid request data"
    with the schema's issues, 400 "Missing encrypted data or IV", or 201
    with the new id. *)
Inductive PostAnswer :=
  | InvalidRequestData
  | MissingEncryptedDataOrIV
  | Submitted (applicationId : string).

Definition post_status (a : PostAnswer) : Z :=
  match a with
  | InvalidRequestData | MissingEncryptedDataOrIV => 400
  | Submitted _ => 201
  end.

Definition postApplications (st : FileStorage) (file : File)
    (uuid : string) (now : Z) (body : Json)
    : FileStorage * File * PostAnswer :=
  match insertApplicationSchema_safeParse body with
  | None => (st, file, InvalidRequestData)
  | Some applicationData =>
      if String.eqb applicationData.1 "" || String.eqb applicationData.2 ""
      then (st, file, MissingEncryptedDataOrIV)
      else
        let '(st, file, application) :=
          createApplication st file uuid now applicationData in
        (st, file, Submitted (id application))
  end.

(** Submissions created one after the other, each with the id and the
    time it is given. *)
Fixpoint createAll (st : FileStorage) (file : File)
    (subs : list (string * Z * (string * string))) : FileStorage * File :=
  match subs with
  | [] => (st, file)
  | (uuid, now, insertApp) :: subs' =>
      let '(st, file, _) := createApplication st file uuid now insertApp in
      createAll st file subs'
  end.

(** Whether a listing is ordered by [submittedAt] descending with equal
    timestamps ordered by id, ascending or descending. *)
Fixpoint ordered_by_time_then_id (ascending : bool) (l : list Application)
    : bool :=
  match l with
  | a :: (b :: _) as l' =>
      ((submittedAt b <? submittedAt a)
       || ((submittedAt b =? submittedAt a)
           && (if ascending then String.ltb (id a) (id b)
               else String.ltb (id b) (id a))))
      && ordered_by_time_then_id ascending l'
  | _ => true
  end.

(** Three submissions that arrive within the same millisecond. *)
Definition sameInstant : list (string * Z * (string * string)) :=
  [("b3f1c2d4-5e6f-4a7b-8c9d-0e1f2a3b4c5d", 1700000000000, ("3q2+7w==", "AAECAwQFBgcICQoL"));
   ("a1b2c3d4-e5f6-4789-9abc-def012345678", 1700000000000, ("3q2+7w==", "DA0ODxAREhMUFRYX"));
   ("c7d8e9f0-1a2b-4c3d-8e4f-5a6b7c8d9e0f", 1700000000000, ("3q2+7w==", "GBkaGxwdHh8gISIj"))].

End Storage.

(** ** client: lib/encryptUtils.ts and ApplicationForm.handleSubmit *)
Module Client.
Import JS.

(** The browser's entropy source: an endless sequence of bytes and how far
    it has been consumed. *)
Record RandomSource := { stream : nat → N; cursor : nat }.

(** [crypto.getRandomValues(new Uint8Array(n))] *)
Definition getRandomValues (rs : RandomSource) (n : nat)
    : list N * RandomSource :=
  (map (stream rs) (seq (cursor rs) n),
   {| stream := stream rs; cursor := (cursor rs + n)%nat |}).

Definition generateIV (rs : RandomSource) : list N * RandomSource :=
  getRandomValues rs 12.

Definition b64_char (n : N) : N :=
  (if n <? 26 then 65 + n
   else if n <? 52 then 97 + (n - 26)
   else if n <? 62 then 48 + (n - 52)
   else if n =? 62 then 43 else 47)%N.

(** [btoa] of the bytes. *)
Fixpoint btoa (l : list N) : list N :=
  match l with
  | a :: b :: c :: r =>
      let n := (a * 65536 + b * 256 + c)%N in
      b64_char (n / 262144) :: b64_char (n / 4096 mod 64)
      :: b64_char (n / 64 mod 64) :: b64_char (n mod 64) :: btoa r
  | [a; b] =>
      let n := (a * 65536 + b * 256)%N in
      [b64_char (n / 262144); b64_char (n / 4096 mod 64);
       b64_char (n / 64 mod 64); 61%N]
  | [a] =>
      let n := (a * 65536)%N in
      [b64_char (n / 262144); b64_char (n / 4096 mod 64); 61%N; 61%N]
  | [] => []
  end.

Definition arrayBufferToBase64 (bytes : list N) : string := of_codes (btoa bytes).
Definition ivToBase64 (iv : list N) : string := arrayBufferToBase64 iv.

Definition DEMO_KEY_MATERIAL : string := "demo-college-app-encryption-key-32bytes!!".

(** [DEMO_KEY_MATERIAL.padEnd(32, '0').substring(0, 32)], encoded. *)
Definition getDemoKey : list N :=
  let padded := String.append DEMO_KEY_MATERIAL
                  (zeros (32 - String.length DEMO_KEY_MATERIAL)) in
  codes (substring 0 32 padded).

(** [crypto.subtle.encrypt({name: 'AES-GCM', iv}, key, data)], the
    browser's cipher: [None] when it throws. *)
Definition Cipher : Type := list N → list N → list N → option (list N).

(** [dataString] is [JSON.stringify(data)]. The IV is an argument. *)
Definition encryptData (subtle_encrypt : Cipher) (dataString : string)
    (iv : list N) : string + string :=
  match subtle_encrypt getDemoKey iv (codes dataString) with
  | Some encryptedData => inr (arrayBufferToBase64 encryptedData)
  | None => inl "Failed to encrypt data"
  end.

(** What [handleSubmit] posts to the backend, if anything: nothing when the
    form is invalid or encryption fails. *)
Definition handleSubmit (subtle_encrypt : Cipher) (rs : RandomSource)
    (isValid : bool) (applicationData : string)
    : RandomSource * option Json :=
  if negb isValid then (rs, None) else
  let '(iv, rs) := generateIV rs in
  let ivBase64 := ivToBase64 iv in
  match encryptData subtle_encrypt applicationData iv with
  | inr encryptedData =>
      (rs, Some (JObj [("encryptedData", JStr encryptedData);
                       ("iv", JStr ivBase64)]))
  | inl _ => (rs, None)
  end.

End Client.

(** ** The Key Vault backed server/routes.ts, with server/azureKeyVault.ts
    and server/db.ts *)
Module VaultRoutes.
Import JS Validation.

(** The calls that leave the process: [keyClient.getKey],
    [cryptoClient.encrypt("A256GCM", plaintext)], [sql.connect] and the
    INSERT with the two values it binds. *)
Inductive Call :=
  | GetKey
  | Encrypt (plaintext : list N)
  | Connect
  | InsertApplication (encryptedPayload : list N) (iv : string).

(** The vault and the database seen from the process; each call gives its
    result or the message of the error it throws.
    [Buffer_from_base64 text] is [Buffer.from(text, 'base64')]. *)
Record Cloud := {
  Buffer_from_base64 : string → list N;
  getKey : string + unit;
  encrypt : list N → string + list N;
  connect : string + unit;
  insert : list N → string → string + unit
}.

(** azureKeyVault.ts, [encryptDataWithKeyVault(plaintext)]: the plaintext
    is all it takes. *)
Definition encryptDataWithKeyVault (c : Cloud) (plaintext : list N)
    : list Call * (string + list N) :=
  match getKey c with
  | inl message => ([GetKey], inl message)
  | inr _ =>
      match encrypt c plaintext with
      | inl message => ([GetKey; Encrypt plaintext], inl message)
      | inr result => ([GetKey; Encrypt plaintext], inr result)
      end
  end.

(** db.ts, [saveApplication({encryptedPayload, iv})] *)
Definition saveApplication (c : Cloud) (encryptedPayload : list N)
    (iv : string) : list Call * (string + unit) :=
  match connect c with
  | inl message => ([Connect], inl message)
  | inr _ =>
      match insert c encryptedPayload iv with
      | inl message =>
          ([Connect; InsertApplication encryptedPayload iv], inl message)
      | inr _ => ([Connect; InsertApplication encryptedPayload iv], inr tt)
      end
  end.

(** The answers of this [POST /api/applications]: the two 400 of the
    storage-backed handler, 201 without an id, or 500 with the message of
    the error. *)
Inductive Answer :=
  | InvalidRequestData
  | MissingEncryptedDataOrIV
  | Submitted
  | Failed (message : string).

Definition status (a : Answer) : Z :=
  match a with
  | InvalidRequestData | MissingEncryptedDataOrIV => 400
  | Submitted => 201
  | Failed _ => 500
  end.

(** The handler: the decoded [encryptedData] is encrypted once more by
    the vault, and the result is stored next to the [iv] of the
    request. *)
Definition postApplications (c : Cloud) (body : Json)
    : list Call * Answer :=
  match insertApplicationSchema_safeParse body with
  | None => ([], InvalidRequestData)
  | Some applicationData =>
      if String.eqb applicationData.1 "" || String.eqb applicationData.2 ""
      then ([], MissingEncryptedDataOrIV)
      else
        match encryptDataWithKeyVault c
                (Buffer_from_base64 c applicationData.1) with
        | (t, inl message) => (t, Failed message)
        | (t, inr encryptedPayload) =>
            match saveApplication c encryptedPayload applicationData.2 with
            | (t', inl message) => (t ++ t', Failed message)
            | (t', inr _) => (t ++ t', Submitted)
            end
        end
  end.

(** A vault and a database that take every call; the vault's ciphertext
    is the plaintext followed by one byte. *)
Definition sampleCloud : Cloud :=
  {| Buffer_from_base64 := λ text, codes text;
     getKey := inr tt;
     encrypt := λ plaintext, inr (plaintext ++ [0%N]);
     connect := inr tt;
     insert := λ _ _, inr tt |}.

End VaultRoutes.

(** ** services/azureSqlService.js and services/azureKeyVaultService.js *)
Module Services.
Import JS.

(** A record of the [Applications] table as the driver returns it; [None]
    is SQL [NULL]. *)
Record ApplicationRow := {
  id : string;
  name : option string;
  email : option string;
  phone : option string;
  course : option string;
  department : option string;
  gpa : option spec_float;
  document_name : option string;
  encrypted_data : option string;
  iv : option string;
  created_at : Z
}.

(** The calls that leave the process. *)
Inductive Event :=
  | SqlConnect
  | SqlSelectById (id : string)
  | SqlSelectAll
  | KvGetKey
  | KvDecrypt (ciphertext : string).

(** The database and the key vault, seen from the process when a request
    arrives: whether the service already holds a connection pool
    ([this.pool], kept from an earlier request), whether [sql.connect]
    succeeds, the record sets of the two SELECT statements
    ([None] when the request fails), whether credentials are configured,
    whether [getKey] succeeds, the plaintext of [cryptoClient.decrypt] or
    the message of the error it throws (as it does when the
    authentication tag does not verify), and [JSON.parse] of the
    decrypted bytes read as UTF-8 ([None] when it throws). *)
Record World := {
  sql_pool : bool;
  sql_connect : bool;
  sql_select_by_id : string → option (list ApplicationRow);
  sql_select_all : option (list ApplicationRow);
  kv_isConfigured : bool;
  kv_getKey : bool;
  kv_decrypt : string → string + string;
  JSON_parse_utf8 : string → option Json
}.

(** Computations that call out and may throw an [Error] with a message. *)
Definition Eff (A : Type) : Type := list Event * (string + A).

Definition ret {A} (a : A) : Eff A := ([], inr a).
Definition throw {A} (msg : string) : Eff A := ([], inl msg).
Definition emit (e : Event) : Eff unit := ([e], inr tt).
Definition bind {A B} (m : Eff A) (k : A → Eff B) : Eff B :=
  match m with
  | (t, inl e) => (t, inl e)
  | (t, inr a) => let '(t', r) := k a in (t ++ t', r)
  end.
(** [try { m } catch (error) { h error }] *)
Definition catch {A} (m : Eff A) (h : string → Eff A) : Eff A :=
  match m with
  | (t, inl e) => let '(t', r) := h e in (t ++ t', r)
  | (t, inr a) => (t, inr a)
  end.

Notation "x <- m ;; k" := (bind m (λ x, k))
  (at level 100, m at next level, right associativity).
Notation "m ;;; k" := (bind m (λ _, k))
  (at level 100, right associativity).

(** A pool that exists is reused; [sql.connect] is called only while
    there is none. (The runs of one batch start together, so all of them
    find the pool as it was when the request arrived.) *)
Definition getConnection (w : World) : Eff unit :=
  if sql_pool w then ret tt else
  emit SqlConnect ;;;
  if sql_connect w then ret tt else throw "Database connection failed".

Definition getApplicationById (w : World) (applicationId : string)
    : Eff (option ApplicationRow) :=
  getConnection w ;;;
  emit (SqlSelectById applicationId) ;;;
  match sql_select_by_id w applicationId with
  | Some [] => ret None
  | Some (row :: _) => ret (Some row)
  | None => throw "Failed to retrieve application from database"
  end.

Definition getAllApplications (w : World) : Eff (list ApplicationRow) :=
  getConnection w ;;;
  emit SqlSelectAll ;;;
  match sql_select_all w with
  | Some recordset => ret recordset
  | None => throw "Failed to retrieve applications from database"
  end.

Definition getCryptoClient (w : World) : Eff unit :=
  if negb (kv_isConfigured w) then
    throw "Azure Key Vault not configured - please set up your Azure credentials"
  else
    emit KvGetKey ;;;
    if kv_getKey w then ret tt
    else throw "Failed to get cryptography client for key: college-app-encryption-key".

Definition decryptData (w : World) (ciphertext : string) : Eff string :=
  catch
    (getCryptoClient w ;;;
     emit (KvDecrypt ciphertext) ;;;
     match kv_decrypt w ciphertext with
     | inr plaintext => ret plaintext
     | inl message => throw message
     end)
    (λ _, throw "Failed to decrypt data with Azure Key Vault").

End Services.

(** ** controllers/adminController.js and routes/adminRoutes.js *)
Module Admin.
Import JS Auth Validation Services.

(** One run of a handler: the calls it made, the response it wrote with
    [res.status(..).json(..)], and how the promise it returned settled. *)
Record Handled := {
  trace : list Event;
  sent : Z * Val;
  settled : Settled
}.

(** [error.message || 'Unknown error occurred'] *)
Definition message_of (msg : string) : string :=
  if String.eqb msg "" then "Unknown error occurred" else msg.

(** [json_result] is the value of the expression
    [res.status(code).json(body)] for the [res] the caller passes. *)
Definition decryptApplication (w : World) (json_result : Val) (now : Z)
    (id : string) : Handled :=
  let attempt : Eff (Z * Val * Val) :=
    application <- getApplicationById w id ;;
    match application with
    | None =>
        ret (404, VObj [("error", VStr "Application not found");
                        ("applicationId", VStr id)], json_result)
    | Some application =>
        match encrypted_data application with
        | None =>
            ret (400, VObj [("error",
                             VStr "No encrypted data found for this application")],
                 json_result)
        | Some ciphertext =>
            decryptedData <- decryptData w ciphertext ;;
            match JSON_parse_utf8 w decryptedData with
            | None =>
                ret (500, VObj [("error",
                                 VStr "Failed to parse decrypted application data")],
                     json_result)
            | Some JNull =>
                (* [decryptedApplicationData.name] in the log line *)
                throw "Cannot read properties of null (reading 'name')"
            | Some decryptedApplicationData =>
                ret (200,
                     VObj [("success", VBool true);
                           ("application",
                            VObj [("id", VStr (Services.id application));
                                  ("name", VText (name application));
                                  ("email", VText (email application));
                                  ("phone", VText (phone application));
                                  ("course", VText (course application));
                                  ("department", VText (department application));
                                  ("gpa", VJson (from_option JNum JNull
                                                   (gpa application)));
                                  ("documentName",
                                   VText (document_name application));
                                  ("createdAt", VDate (created_at application));
                                  ("decryptedData",
                                   VJson decryptedApplicationData)]);
                           ("timestamp", VStr (toISOString now))],
                     VUndefined)
            end
        end
    end in
  match attempt with
  | (t, inr (status, body, returned)) =>
      {| trace := t; sent := (status, body); settled := Fulfilled returned |}
  | (t, inl message) =>
      {| trace := t;
         sent := (500, VObj [("error", VStr "Failed to decrypt application");
                             ("message", VStr (message_of message))]);
         settled := Fulfilled VUndefined |}
  end.

Definition error_payload (b : ErrorBody) : Val :=
  VObj [("error", VStr (error b)); ("message", VStr (message b))].

(** One admin request: the rate-limit store afterwards, the outside calls
    made, and the response. *)
Record Served := {
  store : option (gmap string (list Z));
  calls : list Event;
  response : Z * Val
}.

(** [GET /api/admin/decrypt/:id] behind the three middlewares. [res] is
    the Express response, whose [json] returns the response itself; its
    value is not used. *)
Definition getDecrypt (env_ADMIN_TOKEN : option string) (w : World)
    (g : option (gmap string (list Z))) (now : Z) (req : Request) : Served :=
  match adminChain env_ADMIN_TOKEN g now req with
  | (g', _, Respond status body) =>
      {| store := g'; calls := []; response := (status, error_payload body) |}
  | (g', req', Next) =>
      let idValidation := validateApplicationId (params_id req') in
      if negb (isValid idValidation) then
        {| store := g'; calls := [];
           response := (400, VObj [("error", VStr "Invalid application ID");
                                   ("details",
                                    VArr (map VStr (errors idValidation)))]) |}
      else
        let h := decryptApplication w (VObj []) now (params_id req') in
        {| store := g'; calls := trace h; response := sent h |}
  end.

(** [results.filter(r => r.status === 'fulfilled').map(r => r.value)] and
    [results.filter(r => r.status === 'rejected').map(r => r.reason)]. *)
Definition fulfilled_values (results : list Settled) : list Val :=
  omap (λ r, match r with Fulfilled v => Some v | Rejected _ => None end) results.
Definition rejected_reasons (results : list Settled) : list Val :=
  omap (λ r, match r with Rejected e => Some e | Fulfilled _ => None end) results.

(** The bodies of [POST /api/admin/decrypt-batch]: 400 for a missing or
    empty array, 400 with the malformed ids, or 200 with the counts
    [results: {successful, failed, total}], [data] and [errors]. *)
Inductive BatchBody :=
  | NotANonEmptyArray
  | InvalidIds (details : list string)
  | BatchResults (successful failed total : nat) (data errors : list Val)
                 (timestamp : string).

Definition batch_status (b : BatchBody) : Z :=
  match b with
  | NotANonEmptyArray | InvalidIds _ => 400
  | BatchResults _ _ _ _ _ _ => 200
  end.

(** The promises of the batch: each id is handed to [decryptApplication]
    with its own stub [res], whose [json] returns [undefined]. *)
Definition batchRuns (w : World) (now : Z) (applicationIds : list string)
    : list Handled :=
  map (λ id, decryptApplication w VUndefined now id) applicationIds.

(** The route handler of the batch, after the middlewares.
    [applicationIds] is [None] when the body's field is not an array. The
    calls of the concurrent runs are listed run after run. (Nothing in the
    handler's [try] block throws, so its 500 is never sent.) *)
Definition decryptBatch (w : World) (now : Z)
    (applicationIds : option (list string)) : list Event * BatchBody :=
  match applicationIds with
  | None | Some [] => ([], NotANonEmptyArray)
  | Some applicationIds =>
      let invalidIds :=
        filter (λ id, isValid (validateApplicationId id) = false)
          applicationIds in
      if bool_decide (0 < length invalidIds)%nat then ([], InvalidIds invalidIds)
      else
        let runs := batchRuns w now applicationIds in
        let results := map settled runs in
        let successful := fulfilled_values results in
        let failed := rejected_reasons results in
        (concat (map trace runs),
         BatchResults (length successful) (length failed)
           (length applicationIds) successful failed (toISOString now))
  end.

(** [POST /api/admin/decrypt-batch] behind the three middlewares. *)
Definition postDecryptBatch (env_ADMIN_TOKEN : option string) (w : World)
    (g : option (gmap string (list Z))) (now : Z) (req : Request)
    (applicationIds : option (list string))
    : option (gmap string (list Z)) * list Event
      * (Z * ErrorBody + BatchBody) :=
  match adminChain env_ADMIN_TOKEN g now req with
  | (g', _, Respond status body) => (g', [], inl (status, body))
  | (g', _, Next) =>
      let '(t, b) := decryptBatch w now applicationIds in (g', t, inr b)
  end.

(** *** A small deployment used in the examples *)

Definition sampleIds : list string :=
  ["0b5c1d2e-3f4a-4b6c-8d7e-9fa0b1c2d3e4";
   "1c6d2e3f-4a5b-4c7d-9e8f-a0b1c2d3e4f5";
   "2d7e3f4a-5b6c-4d8e-af90-b1c2d3e4f506";
   "3e8f4a5b-6c7d-4e9f-b0a1-c2d3e4f50617";
   "4f905b6c-7d8e-4fa0-81b2-d3e4f5061728"].

(** The id whose stored ciphertext has been damaged. *)
Definition corruptedId : string := "2d7e3f4a-5b6c-4d8e-af90-b1c2d3e4f506".

Definition sampleRow (id : string) : ApplicationRow :=
  {| Services.id := id;
     name := Some "Ada"; email := Some "ada@example.edu"; phone := None;
     course := Some "CS"; department := Some "Eng";
     gpa := Some (num_of_decimal false 39 (-1));
     document_name := None;
     encrypted_data :=
       Some (if String.eqb id corruptedId then "damaged" else "sealed");
     iv := Some "AAECAwQFBgcICQoL";
     created_at := 1700000000000 |}.

(** Every sample id is stored; the vault opens "sealed" and rejects
    anything else, as AES-GCM does when the tag does not verify. *)
Definition sampleWorld : World :=
  {| sql_pool := false;
     sql_connect := true;
     sql_select_by_id :=
       λ id, Some (if bool_decide (id ∈ sampleIds) then [sampleRow id] else []);
     sql_select_all := Some (map sampleRow sampleIds);
     kv_isConfigured := true;
     kv_getKey := true;
     kv_decrypt :=
       λ ct, if String.eqb ct "sealed" then inr "{...}"
             else inl "Decryption failed: authentication tag mismatch";
     JSON_parse_utf8 :=
       λ _, Some (JObj [("name", JStr "Ada"); ("gpa", JStr "3.9");
                        ("course", JStr "CS"); ("department", JStr "Eng")]) |}.

(** A caller with a wrong bearer token asking for a stored record. *)
Definition intruderRequest : Request :=
  {| headers_authorization := Some "Bearer letmein";
     query_token := None;
     req_ip := Some "198.51.100.23";
     connection_remoteAddress := None;
     params_id := "0b5c1d2e-3f4a-4b6c-8d7e-9fa0b1c2d3e4";
     isAdmin := false |}.

(** The administrator asking for the same record. *)
Definition decryptRequest : Request :=
  {| headers_authorization := Some "Bearer admin-demo-token-2024";
     query_token := None;
     req_ip := Some "203.0.113.7";
     connection_remoteAddress := None;
     params_id := "0b5c1d2e-3f4a-4b6c-8d7e-9fa0b1c2d3e4";
     isAdmin := false |}.

(** The property names of the view returned by a successful decrypt. *)
Definition viewKeys : list string :=
  ["id"; "name"; "email"; "phone"; "course"; "department"; "gpa";
   "documentName"; "createdAt"; "decryptedData"].

End Admin.

(** ** The statistics of applicationController.js and adminController.js *)
Module Analytics.
Import JS Services.

(** [text || 'Unknown'] for a nullable text column. *)
Definition or_unknown (text : option string) : string :=
  match text with
  | Some s => if String.eqb s "" then "Unknown" else s
  | None => "Unknown"
  end.

(** [counts[key] = (counts[key] || 0) + 1] on an object used as a
    dictionary (keys that collide with members of [Object.prototype] are
    left out of the model). *)
Definition increment (key : string) (counts : gmap string Z) : gmap string Z :=
  <[key := default 0 (counts !! key) + 1]> counts.

(** [parseFloat(app.gpa) || 0] *)
Definition gpa_or_zero (gpa : option spec_float) : spec_float :=
  let parsed := parseFloat (Some (from_option JNum JNull gpa)) in
  if num_truthy parsed then parsed else S754_zero false.

(** [new Date(app.created_at) > cutoff] for Dates. *)
Definition newer_than (cutoff : Z) (app : ApplicationRow) : bool :=
  cutoff <? created_at app.

Definition week : Z := 7 * 24 * 60 * 60 * 1000.
Definition month : Z := 30 * 24 * 60 * 60 * 1000.

(** [(totalGpa / n).toFixed(2)] when there are records, the number [0]
    otherwise. *)
Definition average (totalGpa : spec_float) (n : nat) : Val :=
  if bool_decide (0 < n)%nat
  then VStr (toFixed (num_div totalGpa (num_of_Z (Z.of_nat n))) 2)
  else VInt 0.

(** *** getApplicationStats *)

Record Stats := {
  totalApplications : Z;
  departments : gmap string Z;
  gpa_high : Z;
  gpa_medium : Z;
  gpa_low : Z;
  averageGpa : Val;
  recentApplications : Z
}.

(** The body of the [forEach]: the statistics and [totalGpa] after one
    more record. *)
Definition stats_visit (oneWeekAgo : Z) (acc : Stats * spec_float)
    (app : ApplicationRow) : Stats * spec_float :=
  let '(stats, totalGpa) := acc in
  let dept := or_unknown (department app) in
  let gpa := gpa_or_zero (gpa app) in
  let is_high := num_ge gpa (num_of_decimal false 35 (-1)) in
  let is_medium := negb is_high && num_ge gpa (num_of_Z 3) in
  ({| totalApplications := totalApplications stats;
      departments := increment dept (departments stats);
      gpa_high := gpa_high stats + (if is_high then 1 else 0);
      gpa_medium := gpa_medium stats + (if is_medium then 1 else 0);
      gpa_low := gpa_low stats + (if is_high || is_medium then 0 else 1);
      averageGpa := averageGpa stats;
      recentApplications :=
        recentApplications stats
        + (if newer_than oneWeekAgo app then 1 else 0) |},
   num_add totalGpa gpa).

(** The statistics of the records, [now] being what [Date.now()]
    returns. *)
Definition computeStats (now : Z) (applications : list ApplicationRow) : Stats :=
  let stats := {| totalApplications := Z.of_nat (length applications);
                  departments := ∅;
                  gpa_high := 0; gpa_medium := 0; gpa_low := 0;
                  averageGpa := VInt 0;
                  recentApplications := 0 |} in
  let oneWeekAgo := now - week in
  let '(stats, totalGpa) :=
    fold_left (stats_visit oneWeekAgo) applications (stats, S754_zero false) in
  {| totalApplications := totalApplications stats;
     departments := departments stats;
     gpa_high := gpa_high stats;
     gpa_medium := gpa_medium stats;
     gpa_low := gpa_low stats;
     averageGpa := average totalGpa (length applications);
     recentApplications := recentApplications stats |}.

(** The handler: the outside calls it makes, and the status it answers
    with next to either the statistics and the time stamp, or the message
    of the error that made it answer 500. [later] is the clock when the
    response is stamped. *)
Definition getApplicationStats (w : World) (now later : Z)
    : list Event * (Z * (string + Stats * string)) :=
  match getAllApplications w with
  | (t, inr applications) =>
      (t, (200, inr (computeStats now applications, toISOString later)))
  | (t, inl message) => (t, (500, inl (Admin.message_of message)))
  end.

(** *** getApplicationAnalytics *)

Record Analytics := {
  overview_totalApplications : Z;
  overview_recentApplications : Z;
  overview_pendingReview : Z;
  demographics_departments : gmap string Z;
  demographics_courses : gmap string Z;
  gpa_excellent : Z;
  gpa_good : Z;
  gpa_average : Z;
  gpa_belowAverage : Z;
  demographics_averageGpa : Val;
  trends_dailySubmissions : gmap string Z;
  trends_weeklyTrend : list Z;
  trends_monthlyGrowth : Z;
  quality_high : Z;
  quality_average : Z;
  quality_low : Z
}.

Definition analytics_visit (oneWeekAgo : Z) (acc : Analytics * spec_float)
    (app : ApplicationRow) : Analytics * spec_float :=
  let '(a, totalGpa) := acc in
  let gpa := gpa_or_zero (gpa app) in
  let dept := or_unknown (department app) in
  let course := or_unknown (course app) in
  let excellent := num_ge gpa (num_of_decimal false 37 (-1)) in
  let good := negb excellent && num_ge gpa (num_of_decimal false 33 (-1)) in
  let fair := negb excellent && negb good
              && num_ge gpa (num_of_decimal false 27 (-1)) in
  let high := num_ge gpa (num_of_decimal false 35 (-1)) in
  let medium := negb high && num_ge gpa (num_of_Z 3) in
  let dateKey := isoDate (created_at app) in
  ({| overview_totalApplications := overview_totalApplications a;
      overview_recentApplications :=
        overview_recentApplications a
        + (if newer_than oneWeekAgo app then 1 else 0);
      overview_pendingReview := overview_pendingReview a;
      demographics_departments := increment dept (demographics_departments a);
      demographics_courses := increment course (demographics_courses a);
      gpa_excellent := gpa_excellent a + (if excellent then 1 else 0);
      gpa_good := gpa_good a + (if good then 1 else 0);
      gpa_average := gpa_average a + (if fair then 1 else 0);
      gpa_belowAverage :=
        gpa_belowAverage a + (if excellent || good || fair then 0 else 1);
      demographics_averageGpa := demographics_averageGpa a;
      trends_dailySubmissions := increment dateKey (trends_dailySubmissions a);
      trends_weeklyTrend := trends_weeklyTrend a;
      trends_monthlyGrowth := trends_monthlyGrowth a;
      quality_high := quality_high a + (if high then 1 else 0);
      quality_average := quality_average a + (if medium then 1 else 0);
      quality_low := quality_low a + (if high || medium then 0 else 1) |},
   num_add totalGpa gpa).

(** The analytics of the records, [now] being the time of [new Date()]. *)
Definition computeAnalytics (now : Z) (applications : list ApplicationRow)
    : Analytics :=
  let analytics :=
    {| overview_totalApplications := Z.of_nat (length applications);
       overview_recentApplications := 0;
       overview_pendingReview := 0;
       demographics_departments := ∅;
       demographics_courses := ∅;
       gpa_excellent := 0; gpa_good := 0; gpa_average := 0;
       gpa_belowAverage := 0;
       demographics_averageGpa := VInt 0;
       trends_dailySubmissions := ∅;
       trends_weeklyTrend := [];
       trends_monthlyGrowth := 0;
       quality_high := 0; quality_average := 0; quality_low := 0 |} in
  let oneWeekAgo := now - week in
  let oneMonthAgo := now - month in
  let '(a, totalGpa) :=
    fold_left (analytics_visit oneWeekAgo) applications
      (analytics, S754_zero false) in
  let monthlyApplications :=
    length (filter (λ app, newer_than oneMonthAgo app = true) applications) in
  {| overview_totalApplications := overview_totalApplications a;
     overview_recentApplications := overview_recentApplications a;
     overview_pendingReview := overview_pendingReview a;
     demographics_departments := demographics_departments a;
     demographics_courses := demographics_courses a;
     gpa_excellent := gpa_excellent a;
     gpa_good := gpa_good a;
     gpa_average := gpa_average a;
     gpa_belowAverage := gpa_belowAverage a;
     demographics_averageGpa := average totalGpa (length applications);
     trends_dailySubmissions := trends_dailySubmissions a;
     trends_weeklyTrend := trends_weeklyTrend a;
     trends_monthlyGrowth := Z.of_nat monthlyApplications;
     quality_high := quality_high a;
     quality_average := quality_average a;
     quality_low := quality_low a |}.

Definition getApplicationAnalytics (w : World) (now later : Z)
    : list Event * (Z * (string + Analytics * string)) :=
  match getAllApplications w with
  | (t, inr applications) =>
      (t, (200, inr (computeAnalytics now applications, toISOString later)))
  | (t, inl message) => (t, (500, inl (Admin.message_of message)))
  end.

(** What of the statistics does not count recent records. *)
Definition timeless (s : Stats) : Z * gmap string Z * (Z * Z * Z) * Val :=
  (totalApplications s, departments s,
   (gpa_high s, gpa_medium s, gpa_low s), averageGpa s).

Definition timeless_analytics (a : Analytics)
    : Z * Z * (gmap string Z * gmap string Z) * (Z * Z * Z * Z) * Val
      * (gmap string Z * list Z) * (Z * Z * Z) :=
  (overview_totalApplications a, overview_pendingReview a,
   (demographics_departments a, demographics_courses a),
   (gpa_excellent a, gpa_good a, gpa_average a, gpa_belowAverage a),
   demographics_averageGpa a,
   (trends_dailySubmissions a, trends_weeklyTrend a),
   (quality_high a, quality_average a, quality_low a)).

End Analytics.

(** ** server/storage.ts: the shape of the map *)
Module StorageShape.
Import JS Storage.

(** Every entry is filed under the id of its record, and no id occurs
    twice. *)
Definition well_keyed (m : list (string * Application)) : Prop :=
  NoDup (map fst m) ∧ Forall (λ kv, id kv.2 = kv.1) m.

(** [new FileStorage()] after a restart, reading what the last run left in
    applications.json. *)
Definition restart (file : File) : FileStorage := (initialize newFileStorage file).1.

End StorageShape.

(** ** client/src/lib/encryptUtils.ts: decoding, and the base64 check of
    backend/utils/validation.js *)
Module Codec.
Import JS Client.

Definition is_ascii_whitespace (c : N) : bool :=
  ((c =? 9) || (c =? 10) || (c =? 12) || (c =? 13) || (c =? 32))%N.

(** The value of a character of the base64 alphabet. *)
Definition b64_value (c : N) : option N :=
  (if (65 <=? c) && (c <=? 90) then Some (c - 65)
   else if (97 <=? c) && (c <=? 122) then Some (c - 71)
   else if (48 <=? c) && (c <=? 57) then Some (c + 4)
   else if c =? 43 then Some 62
   else if c =? 47 then Some 63
   else None)%N.

(** Removes one trailing [=], if there is one. *)
Definition strip_equals (data : list N) : list N :=
  match rev data with
  | c :: r => if (c =? 61)%N then rev r else data
  | [] => data
  end.

(** With a length that divides by four, one or two trailing [=] go. *)
Definition strip_padding (data : list N) : list N :=
  if (length data mod 4 =? 0)%nat then strip_equals (strip_equals data)
  else data.

(** Six bits a character; a rest of twelve bits gives one byte and a rest
    of eighteen bits two, the bits left over are dropped. *)
Fixpoint decode (sextets : list N) : list N :=
  match sextets with
  | a :: b :: c :: d :: r =>
      let n := (a * 262144 + b * 4096 + c * 64 + d)%N in
      (n / 65536)%N :: (n / 256 mod 256)%N :: (n mod 256)%N :: decode r
  | [a; b; c] =>
      let n := ((a * 4096 + b * 64 + c) / 4)%N in
      [(n / 256)%N; (n mod 256)%N]
  | [a; b] => [((a * 64 + b) / 16)%N]
  | _ => []
  end.

(** [atob(data)], the forgiving base64 decoding: ASCII whitespace is
    dropped, then the padding; a length of 4k+1 or a character outside
    the alphabet throws ([None]). *)
Definition atob (data : list N) : option (list N) :=
  let data :=
    strip_padding (filter (λ c, is_ascii_whitespace c = false) data) in
  if (length data mod 4 =? 1)%nat then None else
  sextets ← mapM b64_value data;
  Some (decode sextets).

Definition base64ToArrayBuffer (base64 : string) : option (list N) :=
  atob (codes base64).

(** [crypto.subtle.decrypt] is the browser's; [parse_utf8] is
    [JSON.parse(new TextDecoder().decode(bytes))], [None] when it throws.
    Whatever fails, the caller sees 'Failed to decrypt data'. *)
Definition decryptData (subtle_decrypt : Cipher)
    (parse_utf8 : list N → option Json) (encryptedData iv : string)
    : string + Json :=
  match base64ToArrayBuffer encryptedData with
  | None => inl "Failed to decrypt data"
  | Some encryptedBuffer =>
      match base64ToArrayBuffer iv with
      | None => inl "Failed to decrypt data"
      | Some ivBuffer =>
          match subtle_decrypt getDemoKey ivBuffer encryptedBuffer with
          | None => inl "Failed to decrypt data"
          | Some decryptedData =>
              match parse_utf8 decryptedData with
              | Some data => inr data
              | None => inl "Failed to decrypt data"
              end
          end
      end
  end.

(** validation.js, [isValidBase64]: [btoa(atob(str)) === str], false when
    [atob] throws or [str] is not a string. *)
Definition isValidBase64 (str : Json) : bool :=
  match str with
  | JStr s =>
      match atob (codes s) with
      | Some binary => String.eqb (of_codes (btoa binary)) s
      | None => false
      end
  | _ => false
  end.

(** The six-bit groups [btoa] writes for the bytes, before the padding. *)
Fixpoint sextets (l : list N) : list N :=
  match l with
  | a :: b :: c :: r =>
      let n := (a * 65536 + b * 256 + c)%N in
      (n / 262144)%N :: (n / 4096 mod 64)%N
      :: (n / 64 mod 64)%N :: (n mod 64)%N :: sextets r
  | [a; b] =>
      let n := (a * 65536 + b * 256)%N in
      [(n / 262144)%N; (n / 4096 mod 64)%N; (n / 64 mod 64)%N]
  | [a] =>
      let n := (a * 65536)%N in
      [(n / 262144)%N; (n / 4096 mod 64)%N]
  | [] => []
  end.

Definition is_byte (b : N) : Prop := (b < 256)%N.

(** A cipher pair that decrypts what it encrypted, and whose ciphertexts
    are bytes. *)
Definition cipher_pair (subtle_encrypt subtle_decrypt : Cipher) : Prop :=
  ∀ key iv plaintext ciphertext,
    subtle_encrypt key iv plaintext = Some ciphertext →
    Forall is_byte ciphertext ∧
    subtle_decrypt key iv ciphertext = Some plaintext.

(** A character that is neither of the alphabet nor whitespace nor [=]. *)
Definition foreign (s : string) : Prop :=
  ∃ c, c ∈ codes s ∧ is_ascii_whitespace c = false ∧ b64_value c = None
       ∧ c ≠ 61%N.

(** A stand-in for the browser's cipher in examples: the ciphertext is
    the bytes as they are, followed by one byte in the place of the
    authentication tag. *)
Definition plain_encrypt : Cipher :=
  λ _ _ data,
    if forallb (λ b, b <? 256)%N data then Some (data ++ [0%N]) else None.
Definition plain_decrypt : Cipher := λ _ _ data, Some (removelast data).

(** Ciphertexts are never empty (AES-GCM appends a tag of 16 bytes). *)
Definition tagged (subtle_encrypt : Cipher) : Prop :=
  ∀ key iv plaintext ciphertext,
    subtle_encrypt key iv plaintext = Some ciphertext → ciphertext ≠ [].

End Codec.

(** ** controllers/applicationController.js, routes/applicationRoutes.js
    and the writing half of services/azureSqlService.js *)
Module Applications.
Import JS Validation.

(** The statements that change the table, next to the connection they
    are sent on. [Insert] and [Update] carry the parameters bound with
    [request.input]; [Update] also carries the generated SET list. *)
Inductive SqlCall :=
  | Connect
  | Insert (inputs : list (string * Val))
  | Update (id : string) (inputs : list (string * Json)) (set : string)
  | Delete (id : string).

(** The database seen from the process when a request arrives: whether
    the service already holds a connection pool ([this.pool]), whether
    [sql.connect] succeeds, the id the INSERT returns, the rows the UPDATE
    and the DELETE affect ([None] when the request fails), and
    [Buffer.from(text, 'base64')]. *)
Record Db := {
  pool : bool;
  connect : bool;
  insert : list (string * Val) → option string;
  update : string → list (string * Json) → option Z;
  delete : string → option Z;
  Buffer_from_base64 : string → string
}.

(** [azureSqlService.getConnection]: a pool that exists is reused,
    [sql.connect] is called only while there is none. The calls made, and
    whether there is a pool afterwards. *)
Definition getConnection (db : Db) : list SqlCall * bool :=
  if pool db then ([], true) else ([Connect], connect db).

(** [v || ''] *)
Definition or_empty (v : option Json) : Json :=
  match v with
  | Some j => if truthy v then j else JStr ""
  | None => JStr ""
  end.

(** [x || 0] on a Number. *)
Definition or_zero (x : spec_float) : spec_float :=
  if num_truthy x then x else S754_zero false.

(** The object [submitApplication] hands to the service. *)
Record ApplicationData := {
  name : Json;
  email : Json;
  phone : Json;
  course : Json;
  department : Json;
  gpa : spec_float;
  documentName : Json;
  encryptedData : string;
  iv : Json
}.

(** [azureSqlService.saveApplication]: the calls made, and the new id or
    the message of the error thrown. *)
Definition saveApplication (db : Db) (applicationData : ApplicationData)
    : list SqlCall * (string + string) :=
  let '(t, connected) := getConnection db in
  if negb connected then (t, inl "Database connection failed") else
  let inputs :=
    [("name", VJson (or_empty (Some (name applicationData))));
     ("email", VJson (or_empty (Some (email applicationData))));
     ("phone", VJson (or_empty (Some (phone applicationData))));
     ("course", VJson (or_empty (Some (course applicationData))));
     ("department", VJson (or_empty (Some (department applicationData))));
     ("gpa", VJson (JNum (or_zero (gpa applicationData))));
     ("documentName", VJson (or_empty (Some (documentName applicationData))));
     ("encryptedData", VBuffer (encryptedData applicationData));
     ("iv", VJson (iv applicationData))] in
  match insert db inputs with
  | Some applicationId => (t ++ [Insert inputs], inr applicationId)
  | None =>
      (t ++ [Insert inputs], inl "Failed to save application to database")
  end.

(** [POST /api/applications]: the calls made and the response. [later] is
    the clock when the response is stamped. (After validation
    [encryptedData] and [iv] are non-empty strings; [Buffer.from] of
    anything else is not reached.) *)
Definition submitApplication (db : Db) (body : Json) (later : Z)
    : list SqlCall * (Z * Val) :=
  let failed message :=
    (500, VObj [("error", VStr "Failed to process application");
                ("message", VStr (Admin.message_of message))]) in
  match validateApplicationData body with
  | inl thrown => ([], failed thrown)
  | inr validationResult =>
      if negb (isValid validationResult) then
        ([], (400, VObj [("error", VStr "Invalid request data");
                         ("details",
                          VArr (map VStr (errors validationResult)))]))
      else
        match get body "encryptedData", get body "iv" with
        | Some (JStr encryptedData), Some iv =>
            let applicationData :=
              {| name := or_empty (get body "name");
                 email := or_empty (get body "email");
                 phone := or_empty (get body "phone");
                 course := or_empty (get body "course");
                 department := or_empty (get body "department");
                 gpa := or_zero (parseFloat (get body "gpa"));
                 documentName := or_empty (get body "documentName");
                 encryptedData := Buffer_from_base64 db encryptedData;
                 iv := iv |} in
            match saveApplication db applicationData with
            | (t, inr applicationId) =>
                (t, (201,
                     VObj [("success", VBool true);
                           ("message", VStr "Application submitted successfully");
                           ("applicationId", VStr applicationId);
                           ("timestamp", VStr (toISOString later))]))
            | (t, inl message) => (t, failed message)
            end
        | _, _ =>
            ([], failed "The first argument must be of type string or an instance of Buffer, ArrayBuffer, or Array or an Array-like Object.")
        end
  end.

(** The columns [updateApplication] can set, in the order it looks for
    them in the body. *)
Definition updatable : list string :=
  ["name"; "email"; "phone"; "course"; "department"; "gpa"].

(** [updateFields.join(', ')] for the columns found. *)
Definition set_list (columns : list string) : string :=
  join ", " (map (λ c, String.append c (String.append " = @" c)) columns).

(** [azureSqlService.updateApplication]. 'No fields to update' is thrown
    inside the [try], so the caller sees the message of the [catch]. *)
Definition Service_updateApplication (db : Db) (applicationId : string)
    (updateData : Json) : list SqlCall * (string + bool) :=
  let '(t, connected) := getConnection db in
  if negb connected then (t, inl "Database connection failed") else
  let inputs :=
    omap (λ c, match get updateData c with
               | Some v => Some (c, v)
               | None => None
               end) updatable in
  if bool_decide (length inputs = 0%nat) then
    (t, inl "Failed to update application in database")
  else
    let call := Update applicationId inputs (set_list (map fst inputs)) in
    match update db applicationId inputs with
    | Some rowsAffected => (t ++ [call], inr (0 <? rowsAffected))
    | None => (t ++ [call], inl "Failed to update application in database")
    end.

(** [Object.keys(value).length]; [null] has no keys to list. *)
Definition Object_keys_length (value : Json) : string + Z :=
  match value with
  | JNull => inl "Cannot convert undefined or null to object"
  | JBool _ | JNum _ => inr 0
  | JStr s => inr (utf16_length (codes s))
  | JArr items => inr (Z.of_nat (length items))
  | JObj fields => inr (Z.of_nat (length fields))
  end.

(** The controller's [updateApplication], with [id] from the path and
    [updateData] the request body. *)
Definition updateApplication (db : Db) (id : string) (updateData : Json)
    (later : Z) : list SqlCall * (Z * Val) :=
  let failed message :=
    (500, VObj [("error", VStr "Failed to update application");
                ("message", VStr (Admin.message_of message))]) in
  match Object_keys_length updateData with
  | inl thrown => ([], failed thrown)
  | inr n =>
      if n =? 0 then
        ([], (400, VObj [("error", VStr "No update data provided")]))
      else
        match Service_updateApplication db id updateData with
        | (t, inl message) => (t, failed message)
        | (t, inr success) =>
            if negb success then
              (t, (404, VObj [("error",
                               VStr "Application not found or no changes made");
                              ("applicationId", VStr id)]))
            else
              (t, (200,
                   VObj [("success", VBool true);
                         ("message", VStr "Application updated successfully");
                         ("applicationId", VStr id);
                         ("timestamp", VStr (toISOString later))]))
        end
  end.

(** The 400 of the routes that take an id from the path. *)
Definition invalid_id (idValidation : ValidationResult) : Z * Val :=
  (400, VObj [("error", VStr "Invalid application ID");
              ("details", VArr (map VStr (errors idValidation)))]).

(** [PUT /api/applications/:id] *)
Definition putApplication (db : Db) (id : string) (body : Json) (later : Z)
    : list SqlCall * (Z * Val) :=
  let idValidation := validateApplicationId id in
  if negb (isValid idValidation) then ([], invalid_id idValidation)
  else updateApplication db id body later.

(** [azureSqlService.deleteApplication] and the controller over it. *)
Definition Service_deleteApplication (db : Db) (applicationId : string)
    : list SqlCall * (string + bool) :=
  let '(t, connected) := getConnection db in
  if negb connected then (t, inl "Database connection failed") else
  match delete db applicationId with
  | Some rowsAffected =>
      (t ++ [Delete applicationId], inr (0 <? rowsAffected))
  | None =>
      (t ++ [Delete applicationId],
       inl "Failed to delete application from database")
  end.

Definition deleteApplication (db : Db) (id : string) (later : Z)
    : list SqlCall * (Z * Val) :=
  match Service_deleteApplication db id with
  | (t, inl message) =>
      (t, (500, VObj [("error", VStr "Failed to delete application");
                      ("message", VStr (Admin.message_of message))]))
  | (t, inr success) =>
      if negb success then
        (t, (404, VObj [("error", VStr "Application not found");
                        ("applicationId", VStr id)]))
      else
        (t, (200,
             VObj [("success", VBool true);
                   ("message", VStr "Application deleted successfully");
                   ("applicationId", VStr id);
                   ("timestamp", VStr (toISOString later))]))
  end.

(** [DELETE /api/applications/:id] *)
Definition deleteRoute (db : Db) (id : string) (later : Z)
    : list SqlCall * (Z * Val) :=
  let idValidation := validateApplicationId id in
  if negb (isValid idValidation) then ([], invalid_id idValidation)
  else deleteApplication db id later.

(** A small database for the examples: it takes every statement and
    reports one row affected. *)
Definition sampleDb : Db :=
  {| pool := false;
     connect := true;
     insert := λ _, Some "5a016c7d-8e9f-4a0b-92c3-e4f506172839";
     update := λ _ _, Some 1;
     delete := λ _, Some 1;
     Buffer_from_base64 := λ text, text |}.

End Applications.

(** ** The reading handlers of applicationController.js and
    adminController.js, and the parameter checks of validation.js in front
    of them *)
Module Listing.
Import JS Validation Services.

(** *** parseInt *)

Definition is_hex_digit (c : N) : bool :=
  (is_digit c || ((97 <=? c) && (c <=? 102)) || ((65 <=? c) && (c <=? 70)))%N.

Fixpoint span_hex (l : list N) : list N * list N :=
  match l with
  | c :: r => if is_hex_digit c then let '(ds, r') := span_hex r in (c :: ds, r')
              else ([], l)
  | [] => ([], [])
  end.

Definition hex_value (ds : list N) : Z :=
  fold_left (λ acc c,
               16 * acc
               + (if is_digit c then Z.of_N c - 48
                  else if (97 <=? c)%N then Z.of_N c - 87 else Z.of_N c - 55))
    ds 0.

(** [parseInt(v)] without a radix: white space is skipped, then a sign,
    then [0x] or [0X] announces hexadecimal digits; the digits are read
    as far as they go. [None] is [NaN]. The result is given as the
    integer the digits denote: the Number is the double nearest to it,
    which compares with 1 and with 100 as the integer does. *)
Definition parseInt (v : Json) : option Z :=
  let s := trimStart (codes (ToString v)) in
  let '(sign, s) :=
    match s with
    | c :: r => if (c =? 45)%N then (-1, r)
                else if (c =? 43)%N then (1, r) else (1, s)
    | [] => (1, s)
    end in
  let decimal :=
    match span_digits s with
    | ([], _) => None
    | (ds, _) => Some (sign * digits_value ds)
    end in
  match s with
  | c0 :: x :: r =>
      if ((c0 =? 48) && ((x =? 120) || (x =? 88)))%N then
        match span_hex r with
        | ([], _) => None
        | (ds, _) => Some (sign * hex_value ds)
        end
      else decimal
  | _ => decimal
  end.

(** *** validatePaginationParams and validateSearchParams *)

Definition validatePaginationParams (params : Json) : ValidationResult :=
  let errors := [] in
  let errors :=
    push_if (match get params "page" with
             | None => false
             | Some page => match parseInt page with
                            | None => true
                            | Some pageNum => pageNum <? 1
                            end
             end) "Page must be a positive integer" errors in
  let errors :=
    push_if (match get params "limit" with
             | None => false
             | Some limit => match parseInt limit with
                             | None => true
                             | Some limitNum =>
                                 (limitNum <? 1) || (100 <? limitNum)
                             end
             end) "Limit must be between 1 and 100" errors in
  {| isValid := bool_decide (length errors = 0%nat); errors := errors |}.

Definition validateSearchParams (params : Json) : ValidationResult :=
  let query := get params "query" in
  let department := get params "department" in
  let course := get params "course" in
  let minGpa := get params "minGpa" in
  let maxGpa := get params "maxGpa" in
  let provided (v : option Json) := match v with Some _ => true | None => false end in
  let errors := [] in
  let errors := push_if (truthy query && negb (is_string query))
                  "Search query must be a string" errors in
  let errors := push_if (truthy department && negb (is_string department))
                  "Department filter must be a string" errors in
  let errors := push_if (truthy course && negb (is_string course))
                  "Course filter must be a string" errors in
  let errors := push_if (provided minGpa && negb (isValidGpa minGpa))
                  "Minimum GPA must be between 0.0 and 4.0" errors in
  let errors := push_if (provided maxGpa && negb (isValidGpa maxGpa))
                  "Maximum GPA must be between 0.0 and 4.0" errors in
  let errors := push_if (provided minGpa && provided maxGpa
                         && num_gt (parseFloat minGpa) (parseFloat maxGpa))
                  "Minimum GPA cannot be greater than maximum GPA" errors in
  {| isValid := bool_decide (length errors = 0%nat); errors := errors |}.

(** *** The listings *)

(** The fields both listings copy from a record; the ciphertext is
    replaced by the flag [hasEncryptedData]. *)
Definition safeApplication (app : ApplicationRow) : list (string * Val) :=
  [("id", VStr (id app));
   ("name", VText (name app));
   ("email", VText (email app));
   ("phone", VText (phone app));
   ("course", VText (course app));
   ("department", VText (department app));
   ("gpa", VJson (from_option JNum JNull (gpa app)));
   ("documentName", VText (document_name app));
   ("createdAt", VDate (created_at app));
   ("hasEncryptedData",
    VBool (match encrypted_data app with Some _ => true | None => false end))].

(** What the listing handlers send: 200 with the entries, their number
    and a time stamp, or 500 with the message of the error. *)
Definition listing_response (entries : list (list (string * Val)))
    (count : nat) (later : Z) : Z * Val :=
  (200, VObj [("success", VBool true);
              ("applications", VArr (map VObj entries));
              ("count", VInt (Z.of_nat count));
              ("timestamp", VStr (toISOString later))]).

Definition listing_failure (message : string) : Z * Val :=
  (500, VObj [("error", VStr "Failed to fetch applications");
              ("message", VStr (Admin.message_of message))]).

(** applicationController.js, [getAllApplications]: nothing of the
    request is read. *)
Definition getAllApplications (w : World) (later : Z)
    : list Event * (Z * Val) :=
  match Services.getAllApplications w with
  | (t, inr applications) =>
      (t, listing_response (map safeApplication applications)
            (length applications) later)
  | (t, inl message) => (t, listing_failure message)
  end.

(** [GET /api/applications], [query] being [req.query]. *)
Definition getApplications (w : World) (query : Json) (later : Z)
    : list Event * (Z * Val) :=
  let paginationValidation := validatePaginationParams query in
  if negb (isValid paginationValidation) then
    ([], (400, VObj [("error", VStr "Invalid pagination parameters");
                     ("details",
                      VArr (map VStr (errors paginationValidation)))]))
  else getAllApplications w later.

(** adminController.js, the function mapped over the records in
    [getAllApplicationsWithDecryption]: the calls made for the record and
    the entry for it. Errors of the vault and of [JSON.parse] are caught
    here. *)
Definition processApplication (w : World) (app : ApplicationRow)
    : list Event * list (string * Val) :=
  let baseApplication := safeApplication app in
  match encrypted_data app with
  | None => ([], baseApplication)
  | Some ciphertext =>
      match decryptData w ciphertext with
      | (t, inr decryptedData) =>
          match JSON_parse_utf8 w decryptedData with
          | Some data => (t, baseApplication ++ [("decryptedData", VJson data)])
          | None =>
              (t, baseApplication
                  ++ [("decryptionError", VStr "Failed to decrypt data")])
          end
      | (t, inl _) =>
          (t, baseApplication
              ++ [("decryptionError", VStr "Failed to decrypt data")])
      end
  end.

(** The calls of the concurrent runs are listed run after run. *)
Definition getAllApplicationsWithDecryption (w : World) (later : Z)
    : list Event * (Z * Val) :=
  match Services.getAllApplications w with
  | (t, inr applications) =>
      let runs := map (processApplication w) applications in
      (t ++ concat (map fst runs),
       listing_response (map snd runs) (length applications) later)
  | (t, inl message) => (t, listing_failure message)
  end.

(** *** utils/requestLogger.js: what is logged of a response *)

(** Truthiness of what a handler passes to [res.json]. *)
Definition Val_truthy (v : Val) : bool :=
  match v with
  | VUndefined => false
  | VJson j => truthy (Some j)
  | VDate _ | VBuffer _ | VArr _ | VObj _ => true
  end.

Definition sensitiveFields : list string :=
  ["password"; "token"; "secret"; "key"; "encryptedData"; "iv";
   "encrypted_data"; "decryptedData"].

(** [sanitizeResponseBody] on the properties of an object body: a
    property named in [sensitiveFields] whose value is truthy becomes
    '[REDACTED]'. (The handlers send object literals.) *)
Definition sanitizeResponseBody (body : list (string * Val))
    : list (string * Val) :=
  map (λ kv, if bool_decide (kv.1 ∈ sensitiveFields) && Val_truthy kv.2
             then (kv.1, VStr "[REDACTED]") else kv) body.

(** Whether a value names [key] anywhere inside, at any depth. *)
Fixpoint mentions (key : string) (v : Val) : bool :=
  match v with
  | VObj fields =>
      (fix inside (fs : list (string * Val)) : bool :=
         match fs with
         | [] => false
         | (k, x) :: fs' => String.eqb k key || mentions key x || inside fs'
         end) fields
  | VArr items =>
      (fix inside (xs : list Val) : bool :=
         match xs with
         | [] => false
         | x :: xs' => mentions key x || inside xs'
         end) items
  | _ => false
  end.

End Listing.
(** * Properties *)

Module AuthFacts.
Import Auth.

Section RateLimiter.
Implicit Types (g : option (gmap string (list Z))) (l ts : list Z).

Lemma recent_all now l :
  Forall (λ e, now - e < 60000) l → recent now l = l.
Proof.
  unfold recent. induction 1 as [|e l He _ IH]; [done|].
  rewrite filter_cons_True by done. by rewrite IH.
Qed.

Lemma recent_none now l :
  Forall (λ e, 60000 <= now - e) l → recent now l = [].
Proof.
  unfold recent. induction 1 as [|e l He _ IH]; [done|].
  rewrite filter_cons_False by lia. done.
Qed.

Lemma recent_fresh now l : Forall (λ e, now - e < 60000) (recent now l).
Proof.
  unfold recent. apply Forall_forall. intros e He.
  by apply list_elem_of_filter in He as [? _].
Qed.

Lemma recent_length now l : (length (recent now l) <= length l)%nat.
Proof. apply length_filter. Qed.

(** Dropping one expired entry makes the pruned window strictly shorter. *)
Lemma recent_drops now l e :
  e ∈ l → 60000 <= now - e → (length (recent now l) < length l)%nat.
Proof.
  unfold recent. induction l as [|x l IH]; intros Hin He.
  - by apply elem_of_nil in Hin.
  - apply elem_of_cons in Hin as [->|Hin].
    + rewrite filter_cons_False by lia.
      pose proof (length_filter (λ time, now - time < 60000) l). simpl. lia.
    + specialize (IH Hin He).
      destruct (decide (now - x < 60000)).
      * rewrite filter_cons_True by done. simpl. lia.
      * rewrite filter_cons_False by done. simpl. lia.
Qed.

Lemma window_Some m key :
  window (Some m) key = default [] (m !! key).
Proof. done. Qed.

Lemma adminRateLimit_admit g now req :
  (length (recent now (window g (rateLimitKey req))) < 10)%nat →
  adminRateLimit g now req =
    (Some (<[rateLimitKey req :=
               (recent now (window g (rateLimitKey req)) ++ [now])%list]>
             (default ∅ g)), Next).
Proof.
  intros Hlt. unfold adminRateLimit, window in *.
  rewrite bool_decide_eq_false_2 by lia. done.
Qed.

Lemma adminRateLimit_reject g now req :
  (10 <= length (recent now (window g (rateLimitKey req))))%nat →
  adminRateLimit g now req =
    (Some (default ∅ g),
     Respond 429 {| error := "Rate limit exceeded";
                    message := "Too many admin requests. Please try again later." |}).
Proof.
  intros Hge. unfold adminRateLimit, window in *.
  rewrite bool_decide_eq_true_2 by lia. done.
Qed.

Lemma window_after_admit g now req :
  (length (recent now (window g (rateLimitKey req))) < 10)%nat →
  window (adminRateLimit g now req).1 (rateLimitKey req)
  = (recent now (window g (rateLimitKey req)) ++ [now])%list.
Proof.
  intros Hlt. rewrite adminRateLimit_admit by done. simpl.
  rewrite window_Some, lookup_insert_eq. done.
Qed.

(** The rate limiter never changes another caller's window. *)
Lemma window_other g now req key :
  key ≠ rateLimitKey req →
  window (adminRateLimit g now req).1 key = window g key.
Proof.
  intros Hne.
  destruct (decide (length (recent now (window g (rateLimitKey req))) < 10)%nat).
  - rewrite adminRateLimit_admit by done. simpl.
    rewrite window_Some, lookup_insert_ne by done. done.
  - rewrite adminRateLimit_reject by lia. done.
Qed.

End RateLimiter.

(** With the admin secret as credential, the three middlewares reduce to
    the rate limiter. *)
Lemma adminChain_valid env g now req :
  validateAdminToken env (extractToken req) = true →
  (adminChain env g now req).1.1 = (adminRateLimit g now req).1 ∧
  (adminChain env g now req).2 = (adminRateLimit g now req).2.
Proof.
  intros Hv. unfold adminChain, authenticateAdmin.
  assert (truthy_str (extractToken req) = true) as Ht.
  { unfold validateAdminToken in Hv. by destruct (truthy_str (extractToken req)). }
  rewrite Ht, Hv. simpl.
  unfold adminRateLimit, rateLimitKey. simpl.
  by destruct (bool_decide _).
Qed.

Section Sliding.
Implicit Types (g : option (gmap string (list Z))) (l ts : list Z).

Lemma within_window_app_cons l t ts :
  within_window (l ++ t :: ts) → Forall (λ e, t - e < 60000) l.
Proof.
  induction l as [|e l IH]; simpl; [done|]. intros [Hall Hw].
  constructor; [|by apply IH].
  rewrite Forall_forall in Hall. apply Hall. set_solver.
Qed.

Lemma rateLimitKey_admin req b :
  rateLimitKey {| headers_authorization := headers_authorization req;
                  query_token := query_token req;
                  req_ip := req_ip req;
                  connection_remoteAddress := connection_remoteAddress req;
                  params_id := params_id req;
                  isAdmin := b |} = rateLimitKey req.
Proof. done. Qed.

(** While the stored window and the coming timestamps fit in one window
    and number at most ten, every request of the caller is admitted and
    recorded. *)
Lemma serveAll_admits env key (reqs : list (Z * Request)) : ∀ g,
  Forall (λ p, from_admin env key p.2) reqs →
  within_window (window g key ++ map fst reqs) →
  (length (window g key) + length reqs <= 10)%nat →
  (serveAll env g reqs).2 = replicate (length reqs) Next ∧
  window (serveAll env g reqs).1 key = window g key ++ map fst reqs.
Proof.
  induction reqs as [|[t req] reqs IH]; intros g Hall Hw Hlen.
  - simpl. by rewrite app_nil_r.
  - apply Forall_cons in Hall as [[Hv <-] Hall]. simpl in *.
    destruct (adminChain_valid env g t req Hv) as [Hg Ho].
    destruct (adminChain env g t req) as [[g1 r1] o] eqn:Hchain. simpl in Hg, Ho.
    pose proof (within_window_app_cons _ _ _ Hw) as Hfresh.
    assert (recent t (window g (rateLimitKey req)) = window g (rateLimitKey req))
      as Hrec by by apply recent_all.
    assert (length (recent t (window g (rateLimitKey req))) < 10)%nat as Hlt
      by (rewrite Hrec; lia).
    pose proof (window_after_admit g t req Hlt) as Hwin.
    rewrite adminRateLimit_admit in Ho by done. simpl in Ho.
    rewrite <- Hg, Hrec in Hwin.
    destruct (IH g1 Hall) as [IHo IHw].
    { rewrite Hwin, <- app_assoc. done. }
    { rewrite Hwin, length_app. simpl. lia. }
    destruct (serveAll env g1 reqs) as [g2 os].
    simpl in *. subst o. rewrite IHo, IHw, Hwin, <- app_assoc. done.
Qed.

End Sliding.

(** C3. One caller, presenting the admin secret, whose earlier recorded
    requests have all expired, sends eleven requests at times that fit in
    one 60-second window: the first ten are admitted (the middleware calls
    [next()]) and recorded, the eleventh is answered 429 and leaves the
    window as it was.  As soon as one of the ten recorded timestamps is 60
    seconds old, the caller's next request is admitted again.  Every check
    decides on the window pruned at that moment: a request is rejected
    exactly when ten unexpired entries remain, and an admitted one stores
    the unexpired entries followed by its own time. *)
Theorem rate_limit_ten_per_window env g key
    (first : Z * Request) (more : list (Z * Request)) (last : Z * Request) :
  Forall (λ p, from_admin env key p.2) (first :: more ++ [last]) →
  length more = 9%nat →
  within_window (map fst (first :: more ++ [last])) →
  Forall (λ e, 60000 <= first.1 - e) (window g key) →
  let served := serveAll env g (first :: more) in
  let rejected := adminChain env served.1 last.1 last.2 in
  served.2 = replicate 10 Next ∧
  window served.1 key = map fst (first :: more) ∧
  (∃ body, rejected.2 = Respond 429 body) ∧
  window rejected.1.1 key = map fst (first :: more) ∧
  (∀ t req e,
     from_admin env key req → e ∈ map fst (first :: more) → 60000 <= t - e →
     (adminChain env rejected.1.1 t req).2 = Next) ∧
  (∀ g' now req,
     from_admin env key req →
     ((∃ body, (adminChain env g' now req).2 = Respond 429 body)
        ↔ (10 <= length (recent now (window g' key)))%nat) ∧
     ((adminChain env g' now req).2 = Next →
        window (adminChain env g' now req).1.1 key
        = recent now (window g' key) ++ [now] ∧
        Forall (λ e, now - e < 60000)
               (window (adminChain env g' now req).1.1 key))).
Proof.
  intros Hall Hlen Hw Hold served rejected.
  destruct first as [t1 r1], last as [t11 r11].
  apply Forall_cons in Hall as [[Hv1 Hk1] Hall].
  apply Forall_app in Hall as [Hmore Hlast].
  apply Forall_singleton in Hlast as [Hv11 Hk11]. cbn [fst snd] in *.
  (* the first request prunes everything that was stored *)
  destruct (adminChain_valid env g t1 r1 Hv1) as [Hg1 Ho1].
  assert (recent t1 (window g (rateLimitKey r1)) = []) as Hrec1
    by (rewrite Hk1; by apply recent_none).
  assert (length (recent t1 (window g (rateLimitKey r1))) < 10)%nat as Hlt1
    by (rewrite Hrec1; simpl; lia).
  pose proof (window_after_admit g t1 r1 Hlt1) as Hwin1.
  rewrite Hrec1, Hk1 in Hwin1. simpl in Hwin1. rewrite <- Hg1 in Hwin1.
  rewrite adminRateLimit_admit in Ho1 by done. simpl in Ho1.
  (* the other nine are admitted on top of it *)
  simpl in Hw. rewrite map_app in Hw. simpl in Hw. destruct Hw as [Hh Ht].
  destruct (serveAll_admits env key more (adminChain env g t1 r1).1.1 Hmore)
    as [Hos Hws].
  { rewrite Hwin1. simpl. split.
    - apply Forall_app in Hh as [? _]. done.
    - clear -Ht. induction (map fst more) as [|x ts IH]; simpl in *; [done|].
      destruct Ht as [Hx Ht]. split; [|by apply IH].
      apply Forall_app in Hx as [? _]. done. }
  { rewrite Hwin1. simpl. lia. }
  rewrite Hwin1 in Hws. simpl in Hws.
  assert (served.2 = replicate 10 Next
          ∧ window served.1 key = t1 :: map fst more) as [Hserved Hwindow].
  { subst served. simpl.
    destruct (adminChain env g t1 r1) as [[g1 r1'] o1]. simpl in *. subst o1.
    destruct (serveAll env g1 more) as [g2 os].
    simpl in *. rewrite Hos, Hlen. done. }
  (* the eleventh finds ten unexpired entries *)
  assert (recent t11 (t1 :: map fst more) = t1 :: map fst more) as Hrec11.
  { apply recent_all.
    apply (within_window_app_cons (t1 :: map fst more) t11 []).
    simpl. done. }
  assert (length (map fst more) = 9%nat) as Hlen' by by rewrite length_map.
  destruct (adminChain_valid env served.1 t11 r11 Hv11) as [Hg11 Ho11].
  fold rejected in Hg11, Ho11.
  rewrite adminRateLimit_reject in Hg11, Ho11
    by (rewrite Hk11, Hwindow, Hrec11; simpl; lia).
  simpl in Hg11, Ho11.
  assert (window rejected.1.1 key = t1 :: map fst more) as Hwrej.
  { rewrite Hg11. rewrite <- Hwindow. done. }
  split_and!; [done|done|eauto|done|..].
  - intros t req e [Hv Hk] He Hexp.
    destruct (adminChain_valid env rejected.1.1 t req Hv) as [_ Ho].
    rewrite Ho, adminRateLimit_admit; [done|].
    rewrite Hk, Hwrej.
    pose proof (recent_drops t (t1 :: map fst more) e He Hexp).
    simpl in *. lia.
  - intros g' now req [Hv Hk].
    destruct (adminChain_valid env g' now req Hv) as [Hg Ho].
    rewrite Hg, Ho. rewrite <- Hk.
    destruct (decide (length (recent now (window g' (rateLimitKey req))) < 10)%nat)
      as [Hlt|Hge].
    + rewrite adminRateLimit_admit by done. simpl. split.
      * split; [intros [? [=]]|lia].
      * intros _. rewrite window_Some, lookup_insert_eq. simpl.
        split; [done|]. apply Forall_app. split; [apply recent_fresh|].
        constructor; [lia|constructor].
    + rewrite adminRateLimit_reject by lia. simpl. split.
      * split; [lia|eauto].
      * intros [=].
Qed.

Lemma filter_all_kept {A} (P : A → Prop) `{!∀ x, Decision (P x)} (l : list A) :
  (length l <= length (filter P l))%nat → filter P l = l.
Proof.
  induction l as [|x l IH]; [done|]. intros Hlen.
  pose proof (length_filter P l) as Hle.
  destruct (decide (P x)).
  - rewrite filter_cons_True in * by done. simpl in Hlen.
    rewrite IH; [done|lia].
  - rewrite filter_cons_False in Hlen by done. simpl in Hlen. lia.
Qed.

(** C10. In every state the rate limiter can reach, no caller's stored
    window holds more than ten timestamps; a timestamp is appended exactly
    when the pruned window has fewer than ten entries, and a request
    answered 429 leaves every stored window as it was: it is not recorded,
    and the ten entries it found are all unexpired. *)
Theorem rate_limit_window_bounded g :
  reachable g →
  (∀ key, (length (window g key) <= 10)%nat) ∧
  (∀ now req,
     (adminRateLimit g now req).2 = Next ↔
     (length (recent now (window g (rateLimitKey req))) < 10)%nat) ∧
  (∀ now req,
     (adminRateLimit g now req).2 = Next →
     window (adminRateLimit g now req).1 (rateLimitKey req)
     = (recent now (window g (rateLimitKey req)) ++ [now])%list) ∧
  (∀ now req body,
     (adminRateLimit g now req).2 = Respond 429 body →
     (∀ key, window (adminRateLimit g now req).1 key = window g key) ∧
     length (window g (rateLimitKey req)) = 10%nat ∧
     recent now (window g (rateLimitKey req)) = window g (rateLimitKey req)).
Proof.
  intros Hreach.
  assert (∀ g now req,
     (adminRateLimit g now req).2 = Next ↔
     (length (recent now (window g (rateLimitKey req))) < 10)%nat) as Hiff.
  { clear. intros g now req.
    destruct (decide (length (recent now (window g (rateLimitKey req))) < 10)%nat).
    - rewrite adminRateLimit_admit by done. done.
    - rewrite adminRateLimit_reject by lia. simpl. split; [done|lia]. }
  assert (∀ key, (length (window g key) <= 10)%nat) as Hbound.
  { induction Hreach as [|g now req Hreach IH]; intros key.
    { unfold window. simpl. rewrite lookup_empty. simpl. lia. }
    destruct (decide (length (recent now (window g (rateLimitKey req))) < 10)%nat)
      as [Hlt|Hge].
    + destruct (decide (key = rateLimitKey req)) as [->|Hne].
      * rewrite window_after_admit, length_app by done. simpl. lia.
      * rewrite window_other by done. apply IH.
    + rewrite adminRateLimit_reject by lia. apply IH. }
  split_and!.
  - done.
  - apply Hiff.
  - intros now req Hnext. apply window_after_admit. by apply Hiff.
  - intros now req body Hrej.
    destruct (decide (length (recent now (window g (rateLimitKey req))) < 10)%nat)
      as [Hlt|Hge].
    { rewrite adminRateLimit_admit in Hrej by done. done. }
    pose proof (Hbound (rateLimitKey req)) as Hten.
    pose proof (recent_length now (window g (rateLimitKey req))) as Hle.
    split_and!.
    + intros key. rewrite adminRateLimit_reject by lia. done.
    + lia.
    + apply filter_all_kept. fold (recent now (window g (rateLimitKey req))).
      lia.
Qed.

Lemma rate_limit_ten_per_window_witness :
  Forall (λ p, from_admin None "admin_203.0.113.7" p.2) burst ∧
  within_window (map fst burst) ∧
  (serveAll None None (take 10 burst)).2 = replicate 10 Next ∧
  ∃ body, (adminChain None (serveAll None None (take 10 burst)).1
             10000 adminRequest).2 = Respond 429 body.
Proof.
  assert (Forall (λ p, from_admin None "admin_203.0.113.7" p.2) burst) as Hall
    by (repeat constructor).
  assert (within_window (map fst burst)) as Hw
    by (simpl; repeat split; repeat constructor; lia).
  split; [exact Hall|]. split; [exact Hw|].
  destruct (rate_limit_ten_per_window None None "admin_203.0.113.7"
              (0, adminRequest)
              (map (λ t, (t, adminRequest))
                 [1000; 2000; 3000; 4000; 5000; 6000; 7000; 8000; 9000])
              (10000, adminRequest) Hall eq_refl Hw)
    as (Hserved & _ & Hrejected & _).
  { vm_compute. constructor. }
  split; [exact Hserved|exact Hrejected].
Defined.

Lemma rate_limit_window_bounded_witness :
  reachable (adminRateLimit None 0 adminRequest).1 ∧
  (length (window (adminRateLimit None 0 adminRequest).1 "admin_203.0.113.7")
   <= 10)%nat.
Proof.
  assert (reachable (adminRateLimit None 0 adminRequest).1) as Hr
    by (apply reachable_step, reachable_start).
  split; [exact Hr|].
  apply (rate_limit_window_bounded _ Hr).
Defined.

End AuthFacts.

Module ValidationFacts.
Import JS Validation.

Lemma elem_of_push_if (x : string) cond msg errors :
  x ∈ push_if cond msg errors ↔ x ∈ errors ∨ (cond = true ∧ x = msg).
Proof.
  unfold push_if. destruct cond.
  - rewrite elem_of_app, list_elem_of_singleton. naive_solver.
  - naive_solver.
Qed.

Lemma isValidGpa_in_range gpa :
  isValidGpa gpa = true ↔ gpa_in_range (parseFloat gpa).
Proof.
  unfold isValidGpa, gpa_in_range.
  rewrite !andb_true_iff, negb_true_iff. naive_solver.
Qed.

(** The GPA message is in the reported errors exactly when the GPA check
    of [validateApplicationData] fires. *)
Lemma gpa_error_reported data r :
  validateApplicationData data = inr r →
  "GPA must be between 0.0 and 4.0" ∈ errors r
  ↔ truthy (get data "gpa") && negb (isValidGpa (get data "gpa")) = true.
Proof.
  unfold validateApplicationData.
  destruct (match data with JNull => true | _ => false end); [done|].
  destruct (if truthy (get data "phone") then _ else _) as [?|phone_ok];
    [done|].
  intros [= <-]. simpl.
  rewrite !elem_of_push_if, elem_of_nil.
  split; [|by auto].
  intros H. repeat (destruct H as [H|[? ?]]; try done).
Qed.

(** Every GPA from 0.00 to 9.99, and its negative, is decided as the
    interval says (minus zero is zero). *)
Lemma hundredths_decided :
  forallb decides_hundredths (seqZ 0 1000) = true.
Proof. vm_compute. reflexivity. Qed.

(** C5, as the code has it. Submissions with GPA "4.0" and "0.0" pass
    validation; those with "4.1" and "-0.1" are rejected with one error,
    whose text starts with the field's name, GPA.  The form schema decides
    the four values the same way.  In general the validator treats a GPA
    that is empty (a falsy value: none, "", 0, null) as not provided and
    raises no error for it; for any other GPA it raises the GPA error
    exactly when [parseFloat] does not take it to a Number in [0.0, 4.0].
    The form schema accepts a string exactly when [parseFloat] takes it
    to such a Number.  Among the GPAs written with two decimals, from
    "0.00" to "9.99", the accepted ones are those up to "4.00", and of
    their negatives only "-0.00". *)
Theorem gpa_boundary :
  validateApplicationData (submission "4.0")
    = inr {| isValid := true; errors := [] |} ∧
  validateApplicationData (submission "0.0")
    = inr {| isValid := true; errors := [] |} ∧
  validateApplicationData (submission "4.1")
    = inr {| isValid := false; errors := ["GPA must be between 0.0 and 4.0"] |} ∧
  validateApplicationData (submission "-0.1")
    = inr {| isValid := false; errors := ["GPA must be between 0.0 and 4.0"] |} ∧
  String.prefix "GPA" "GPA must be between 0.0 and 4.0" = true ∧
  applicationDataSchema_gpa "4.0" = [] ∧
  applicationDataSchema_gpa "0.0" = [] ∧
  applicationDataSchema_gpa "4.1" = ["GPA must be between 0 and 4.0"] ∧
  applicationDataSchema_gpa "-0.1" = ["GPA must be between 0 and 4.0"] ∧
  (∀ data r,
     validateApplicationData data = inr r →
     "GPA must be between 0.0 and 4.0" ∉ errors r
     ↔ (truthy (get data "gpa") = false
        ∨ gpa_in_range (parseFloat (get data "gpa")))) ∧
  (∀ val,
     applicationDataSchema_gpa val = []
     ↔ gpa_in_range (parseFloat_string val)) ∧
  (∀ c, 0 <= c <= 999 →
     isValidGpa (Some (JStr (two_decimals c))) = (c <=? 400) ∧
     isValidGpa (Some (JStr (String.append "-" (two_decimals c)))) = (c =? 0)).
Proof.
  do 9 (split; [vm_compute; reflexivity|]). split_and!.
  - intros data r Hr.
    rewrite (gpa_error_reported data r Hr), <- isValidGpa_in_range.
    destruct (truthy (get data "gpa")), (isValidGpa (get data "gpa"));
      simpl; naive_solver.
  - intros val. unfold applicationDataSchema_gpa, gpa_in_range.
    destruct (isNaN _), (num_ge _ _), (num_le _ _); simpl; naive_solver.
  - intros c Hc.
    pose proof hundredths_decided as Hall.
    rewrite forallb_forall in Hall.
    assert (decides_hundredths c = true) as Hd.
    { apply Hall, list_elem_of_In, elem_of_seqZ. lia. }
    unfold decides_hundredths in Hd.
    apply andb_true_iff in Hd as [Hpos Hneg].
    apply Bool.eqb_prop in Hpos, Hneg. done.
Qed.

Lemma gpa_boundary_witness :
  validateApplicationData (submission "3.9")
    = inr {| isValid := true; errors := [] |} ∧
  ("GPA must be between 0.0 and 4.0" ∉ ([] : list string)
   ↔ (truthy (get (submission "3.9") "gpa") = false
      ∨ gpa_in_range (parseFloat (get (submission "3.9") "gpa")))).
Proof.
  assert (validateApplicationData (submission "3.9")
          = inr {| isValid := true; errors := [] |}) as Hr by (by vm_compute).
  split; [exact Hr|].
  destruct gpa_boundary as (_ & _ & _ & _ & _ & _ & _ & _ & _ & Hgen & _ & _).
  exact (Hgen (submission "3.9") _ Hr).
Defined.

(** C5, as stated, fails. A submission whose GPA is the empty string
    passes validation without any error, although [parseFloat] takes ""
    to [NaN], which is no Number in [0.0, 4.0]; the form schema rejects
    the same string. *)
Lemma empty_gpa_is_accepted :
  validateApplicationData (submission "")
    = inr {| isValid := true; errors := [] |} ∧
  isNaN (parseFloat (get (submission "") "gpa")) = true ∧
  ¬ gpa_in_range (parseFloat (get (submission "") "gpa")) ∧
  applicationDataSchema_gpa "" = ["GPA must be between 0 and 4.0"].
Proof.
  split_and!; try by vm_compute.
  intros (Hnan & _). by vm_compute in Hnan.
Qed.

End ValidationFacts.

Module StorageFacts.
Import JS Validation Storage.

Section Sorting.
Context {A : Type} (key : A → Z).

(** The comparator of the listing, [key b - key a], is positive when [a]
    is older than [b]. *)
Local Abbreviation newestFirst := (λ a b : A, key b - key a).

Lemma insert_by_perm x l : insert_by newestFirst x l ≡ₚ x :: l.
Proof.
  induction l as [|y l IH]; simpl; [done|].
  destruct (0 <? key y - key x); [|done].
  rewrite IH. apply Permutation_swap.
Qed.

Lemma Array_sort_perm l : Array_sort newestFirst l ≡ₚ l.
Proof.
  induction l as [|x l IH]; simpl; [done|].
  fold (Array_sort newestFirst l). by rewrite insert_by_perm, IH.
Qed.

Lemma insert_by_sorted x l :
  StronglySorted (λ a b, key b <= key a) l →
  StronglySorted (λ a b, key b <= key a) (insert_by newestFirst x l).
Proof.
  induction 1 as [|y l Hs IH Hall]; simpl.
  - repeat constructor.
  - destruct (0 <? key y - key x) eqn:Hc.
    + apply Z.ltb_lt in Hc. constructor; [done|].
      rewrite insert_by_perm. constructor; [lia|done].
    + apply Z.ltb_ge in Hc. constructor; [by constructor|].
      constructor; [lia|].
      eapply Forall_impl; [exact Hall|]. simpl. intros. lia.
Qed.

Lemma Array_sort_sorted l :
  StronglySorted (λ a b, key b <= key a) (Array_sort newestFirst l).
Proof.
  induction l as [|x l IH]; simpl; [constructor|].
  by apply insert_by_sorted.
Qed.

(** Inserting never moves an element across one with the same key. *)
Lemma insert_by_stable (t : Z) x l :
  filter (λ a, key a = t) (insert_by newestFirst x l)
  = filter (λ a, key a = t) (x :: l).
Proof.
  induction l as [|y l IH]; simpl; [done|].
  destruct (0 <? key y - key x) eqn:Hc; [|done].
  apply Z.ltb_lt in Hc.
  rewrite (filter_cons _ y (insert_by _ _ _)), IH.
  rewrite !filter_cons.
  destruct (decide (key y = t)), (decide (key x = t)); try done; lia.
Qed.

Lemma Array_sort_stable (t : Z) l :
  filter (λ a, key a = t) (Array_sort newestFirst l)
  = filter (λ a, key a = t) l.
Proof.
  induction l as [|x l IH]; simpl; [done|].
  fold (Array_sort newestFirst l).
  rewrite insert_by_stable, !filter_cons, IH. done.
Qed.

End Sorting.

(** C6, as the code has it. [getAllApplications] returns every stored
    submission once, newest first; submissions with the same
    [submittedAt] come in the order in which the store holds them, which
    is the order of their creation: ids play no part.  Three submissions
    created at times [T1 < T2 < T3] under distinct ids are listed third,
    second, first. *)
Theorem listing_newest_first st file :
  let '(st', _, listing) := getAllApplications st file in
  listing ≡ₚ Map_values (applications st') ∧
  StronglySorted (λ a b, submittedAt b <= submittedAt a) listing ∧
  (∀ t, filter (λ a, submittedAt a = t) listing
        = filter (λ a, submittedAt a = t) (Map_values (applications st'))) ∧
  (∀ u1 u2 u3 T1 T2 T3 s1 s2 s3,
     u1 ≠ u2 → u1 ≠ u3 → u2 ≠ u3 → T1 < T2 → T2 < T3 →
     let '(st3, file3) :=
       createAll newFileStorage Missing
         [(u1, T1, s1); (u2, T2, s2); (u3, T3, s3)] in
     map (λ a, (id a, submittedAt a)) (getAllApplications st3 file3).2
     = [(u3, T3); (u2, T2); (u1, T1)]).
Proof.
  unfold getAllApplications.
  destruct (initialize st file) as [st' file'].
  split_and!.
  - apply (Array_sort_perm submittedAt).
  - apply (Array_sort_sorted submittedAt).
  - intros t. apply (Array_sort_stable submittedAt).
  - intros u1 u2 u3 T1 T2 T3 s1 s2 s3 H12 H13 H23 HT12 HT23.
    apply String.eqb_neq in H12, H13, H23.
    unfold createAll, createApplication, getAllApplications. simpl.
    rewrite H12. simpl. rewrite H13, H23. simpl.
    assert ((0 <? T3 - T2) = true) as E32 by (apply Z.ltb_lt; lia).
    assert ((0 <? T3 - T1) = true) as E31 by (apply Z.ltb_lt; lia).
    assert ((0 <? T2 - T1) = true) as E21 by (apply Z.ltb_lt; lia).
    repeat (rewrite ?E32, ?E31, ?E21; simpl). done.
Qed.

Lemma listing_newest_first_witness :
  ("a1" ≠ "b2" ∧ 10 < 20 ∧ 20 < 30) ∧
  map (λ a, (id a, submittedAt a))
    (getAllApplications
       (createAll newFileStorage Missing
          [("a1", 10, ("x", "i")); ("b2", 20, ("y", "j")); ("c3", 30, ("z", "k"))]).1
       (createAll newFileStorage Missing
          [("a1", 10, ("x", "i")); ("b2", 20, ("y", "j")); ("c3", 30, ("z", "k"))]).2).2
  = [("c3", 30); ("b2", 20); ("a1", 10)].
Proof.
  split; [split_and!; [done|lia|lia]|].
  pose proof (listing_newest_first newFileStorage Missing) as H.
  destruct (getAllApplications newFileStorage Missing) as [[? ?] ?].
  destruct H as (_ & _ & _ & H).
  apply (H "a1" "b2" "c3" 10 20 30 ("x", "i") ("y", "j") ("z", "k"));
    done || lia.
Defined.

(** C6, as stated, fails: three submissions created in the same
    millisecond are listed in their creation order, which here is neither
    ascending nor descending in their ids. *)
Lemma listing_ties_not_by_id :
  let '(st, file) := createAll newFileStorage Missing sameInstant in
  let listing := (getAllApplications st file).2 in
  map id listing = ["b3f1c2d4-5e6f-4a7b-8c9d-0e1f2a3b4c5d";
                    "a1b2c3d4-e5f6-4789-9abc-def012345678";
                    "c7d8e9f0-1a2b-4c3d-8e4f-5a6b7c8d9e0f"] ∧
  ordered_by_time_then_id true listing = false ∧
  ordered_by_time_then_id false listing = false.
Proof. by vm_compute. Qed.

End StorageFacts.

Module AdminFacts.
Import JS Auth Validation Services Admin.

(** The promise of [decryptApplication] is fulfilled whatever happens:
    errors are caught inside and written to [res]. *)
Lemma decryptApplication_fulfilled w json_result now id :
  ∃ v, settled (decryptApplication w json_result now id) = Fulfilled v.
Proof.
  unfold decryptApplication.
  match goal with |- context [match ?a with _ => _ end] => destruct a as [t [msg|[[status body] returned]]] end;
    simpl; eauto.
Qed.

Lemma batchRuns_fulfilled w now ids :
  Forall (λ r, ∃ v, r = Fulfilled v) (map settled (batchRuns w now ids)).
Proof.
  unfold batchRuns. rewrite Forall_map, Forall_map. apply Forall_true.
  intros id. apply decryptApplication_fulfilled.
Qed.

(** Splitting settled promises into fulfilled and rejected loses none. *)
Lemma settled_partition (results : list Settled) :
  (length (fulfilled_values results) + length (rejected_reasons results))%nat
  = length results.
Proof.
  unfold fulfilled_values, rejected_reasons.
  induction results as [|[v|e] results IH]; csimpl; lia.
Qed.

Lemma all_fulfilled_none_rejected (results : list Settled) :
  Forall (λ r, ∃ v, r = Fulfilled v) results → rejected_reasons results = [].
Proof.
  unfold rejected_reasons. induction 1 as [|r results [v ->] _ IH]; csimpl; done.
Qed.

Lemma no_invalid_ids (ids : list string) :
  Forall (λ id, isValid (validateApplicationId id) = true) ids →
  filter (λ id, isValid (validateApplicationId id) = false) ids = [].
Proof.
  induction 1 as [|x l Hx _ IH]; [done|].
  rewrite filter_cons_False; [done|]. by rewrite Hx.
Qed.

Lemma decryptBatch_valid w now (ids : list string) :
  ids ≠ [] →
  Forall (λ id, isValid (validateApplicationId id) = true) ids →
  decryptBatch w now (Some ids)
  = (concat (map trace (batchRuns w now ids)),
     BatchResults
       (length (fulfilled_values (map settled (batchRuns w now ids))))
       (length (rejected_reasons (map settled (batchRuns w now ids))))
       (length ids)
       (fulfilled_values (map settled (batchRuns w now ids)))
       (rejected_reasons (map settled (batchRuns w now ids)))
       (toISOString now)).
Proof.
  intros Hne Hvalid. unfold decryptBatch.
  destruct ids as [|id0 ids]; [done|].
  by rewrite (no_invalid_ids _ Hvalid).
Qed.

(** Whatever the database and the vault do, the batch reports no failure:
    every id counts as a success. *)
Lemma batch_never_reports_failure w now (ids : list string) :
  ids ≠ [] →
  Forall (λ id, isValid (validateApplicationId id) = true) ids →
  ∃ data timestamp,
    (decryptBatch w now (Some ids)).2
    = BatchResults (length ids) 0 (length ids) data [] timestamp.
Proof.
  intros Hne Hvalid. rewrite decryptBatch_valid by done. cbn [snd].
  pose proof (settled_partition (map settled (batchRuns w now ids))) as Hsum.
  rewrite (all_fulfilled_none_rejected _ (batchRuns_fulfilled w now ids)) in *.
  simpl in Hsum. unfold batchRuns in Hsum at 2. rewrite !length_map in Hsum.
  rewrite Nat.add_0_r in Hsum. rewrite Hsum. eauto.
Qed.

(** C1, evaluated. Five stored ids, one of which has a damaged ciphertext:
    the run for the damaged id writes a 500 "Failed to decrypt application"
    to its stub response, yet the batch reports five successes and no
    failure, with no error entry for the damaged id. *)
Theorem batch_counts_corrupted_as_success :
  sent (decryptApplication sampleWorld VUndefined 1700000000000 corruptedId)
  = (500, VObj [("error", VStr "Failed to decrypt application");
                ("message", VStr "Failed to decrypt data with Azure Key Vault")]) ∧
  ∃ calls,
    decryptBatch sampleWorld 1700000000000 (Some sampleIds)
    = (calls,
       BatchResults 5 0 5
         [VUndefined; VUndefined; VUndefined; VUndefined; VUndefined] []
         "2023-11-14T22:13:20.000Z").
Proof. split; [by vm_compute|]. eexists. by vm_compute. Qed.

Lemma decryptBatch_malformed w now (ids : list string) :
  Exists (λ id, isValid (validateApplicationId id) = false) ids →
  decryptBatch w now (Some ids)
  = ([], InvalidIds
           (filter (λ id, isValid (validateApplicationId id) = false) ids)).
Proof.
  intros Hbad. unfold decryptBatch.
  destruct ids as [|id ids]; [by apply Exists_nil in Hbad|].
  rewrite bool_decide_eq_true_2; [done|].
  apply Exists_exists in Hbad as (bad & Hin & Hbad).
  assert (bad ∈ filter (λ id, isValid (validateApplicationId id) = false)
                  (id :: ids)) as Hfiltered by by apply list_elem_of_filter.
  destruct (filter _ (id :: ids)); [by apply elem_of_nil in Hfiltered|].
  simpl. lia.
Qed.

(** C2, as the code has it. For a non-empty array of well-formed ids the
    batch answers 200 and what it reports is made of the runs of
    [decryptApplication] on each id alone, in the order of the ids: the
    outside calls are those of the runs, one run after the other, [data]
    holds the values of the runs that were fulfilled and [errors] the
    reasons of those that were rejected, whatever the other runs did; the
    counts are the lengths of the two, and successful + failed = total =
    the number of ids. When an id of the array is malformed the batch
    answers 400 with the malformed ids and no id is run. *)
Theorem batch_partitions_input w now (applicationIds : list string) :
  applicationIds ≠ [] →
  (Forall (λ id, isValid (validateApplicationId id) = true) applicationIds →
   ∃ successful failed data errors,
     decryptBatch w now (Some applicationIds)
     = (concat (map (λ id, trace (decryptApplication w VUndefined now id))
                  applicationIds),
        BatchResults successful failed (length applicationIds) data errors
          (toISOString now)) ∧
     data = fulfilled_values
              (map (λ id, settled (decryptApplication w VUndefined now id))
                 applicationIds) ∧
     errors = rejected_reasons
                (map (λ id, settled (decryptApplication w VUndefined now id))
                   applicationIds) ∧
     successful = length data ∧ failed = length errors ∧
     (successful + failed)%nat = length applicationIds) ∧
  (Exists (λ id, isValid (validateApplicationId id) = false) applicationIds →
   decryptBatch w now (Some applicationIds)
   = ([], InvalidIds
            (filter (λ id, isValid (validateApplicationId id) = false)
               applicationIds))).
Proof.
  intros Hne. split.
  - intros Hvalid. rewrite decryptBatch_valid by done.
    unfold batchRuns. rewrite !map_map.
    do 4 eexists. split_and!; try reflexivity.
    rewrite settled_partition. by rewrite length_map.
  - apply decryptBatch_malformed.
Qed.

Lemma batch_partitions_input_witness :
  sampleIds ≠ [] ∧
  Forall (λ id, isValid (validateApplicationId id) = true) sampleIds ∧
  ∃ successful failed data errors,
    decryptBatch sampleWorld 0 (Some sampleIds)
    = (concat (map (λ id, trace (decryptApplication sampleWorld VUndefined 0 id))
                 sampleIds),
       BatchResults successful failed (length sampleIds) data errors
         (toISOString 0)) ∧
    (successful + failed)%nat = length sampleIds.
Proof.
  assert (Forall (λ id, isValid (validateApplicationId id) = true) sampleIds)
    as Hv by (repeat constructor).
  assert (sampleIds ≠ []) as Hne by done.
  split; [exact Hne|]. split; [exact Hv|].
  destruct (batch_partitions_input sampleWorld 0 sampleIds Hne) as [Hruns _].
  destruct (Hruns Hv) as (successful & failed & data & errors & Hbatch & Hrest).
  exists successful, failed, data, errors. split; [exact Hbatch|].
  by destruct Hrest as (_ & _ & _ & _ & ?).
Defined.

(** C2, as stated, fails. A batch of two ids, the first stored and
    well-formed, the second malformed: the answer is 400 with the
    malformed id, there are no counts, and the well-formed id, which
    decrypts when asked for alone, is not run. *)
Lemma malformed_id_blocks_the_batch :
  decryptBatch sampleWorld 1700000000000
    (Some ["0b5c1d2e-3f4a-4b6c-8d7e-9fa0b1c2d3e4"; "42"])
  = ([], InvalidIds ["42"]) ∧
  batch_status (InvalidIds ["42"]) = 400 ∧
  (sent (decryptApplication sampleWorld VUndefined 1700000000000
           "0b5c1d2e-3f4a-4b6c-8d7e-9fa0b1c2d3e4")).1 = 200 ∧
  trace (decryptApplication sampleWorld VUndefined 1700000000000
           "0b5c1d2e-3f4a-4b6c-8d7e-9fa0b1c2d3e4")
  = [SqlConnect; SqlSelectById "0b5c1d2e-3f4a-4b6c-8d7e-9fa0b1c2d3e4";
     KvGetKey; KvDecrypt "sealed"].
Proof. by vm_compute. Qed.

Ltac run_services :=
  unfold decryptApplication, getApplicationById, getConnection, decryptData,
    getCryptoClient, bind, catch, emit, ret, throw.

(** Where a 200 of [decryptApplication] comes from, and what it holds. *)
Lemma decryptApplication_200 w json_result now id :
  (sent (decryptApplication w json_result now id)).1 = 200 →
  ∃ row rows ciphertext plaintext data,
    sql_select_by_id w id = Some (row :: rows) ∧
    encrypted_data row = Some ciphertext ∧
    kv_decrypt w ciphertext = inr plaintext ∧
    JSON_parse_utf8 w plaintext = Some data ∧
    (sent (decryptApplication w json_result now id)).2
    = VObj [("success", VBool true);
            ("application",
             VObj [("id", VStr (Services.id row));
                   ("name", VText (name row));
                   ("email", VText (email row));
                   ("phone", VText (phone row));
                   ("course", VText (course row));
                   ("department", VText (department row));
                   ("gpa", VJson (from_option JNum JNull (gpa row)));
                   ("documentName", VText (document_name row));
                   ("createdAt", VDate (created_at row));
                   ("decryptedData", VJson data)]);
            ("timestamp", VStr (toISOString now))].
Proof.
  run_services.
  repeat (case_match; simplify_eq/=); try (intros [=]).
  all: do 5 eexists; done.
Qed.

(** Whoever is turned away by the middlewares causes no outside call. *)
Lemma getDecrypt_turned_away env w g now req :
  (adminChain env g now req).2 ≠ Next →
  calls (getDecrypt env w g now req) = [] ∧
  store (getDecrypt env w g now req) = (adminChain env g now req).1.1 ∧
  ∃ body, (adminChain env g now req).2
          = Respond (response (getDecrypt env w g now req)).1 body.
Proof.
  unfold getDecrypt. destruct (adminChain env g now req) as [[g' req'] [s b|]];
    simpl; [eauto|done].
Qed.

Lemma adminChain_unauthenticated env g now req :
  validateAdminToken env (extractToken req) = false →
  (adminChain env g now req).1.1 = g ∧
  ∃ body, (adminChain env g now req).2
          = Respond (if truthy_str (extractToken req) then 403 else 401) body.
Proof.
  intros Hv. unfold adminChain, authenticateAdmin. rewrite Hv.
  destruct (truthy_str (extractToken req)); simpl; eauto.
Qed.

(** C4, as the code has it. The credential of a request to the admin
    decrypt endpoint is what follows ['Bearer '] in an Authorization header
    that starts with these seven characters, and otherwise the token
    parameter when it is not empty. A request without header and token
    parameter, and every request whose credential is absent or empty, is
    answered 401. One whose credential is not empty and differs from the
    admin secret is answered 403. In both cases nothing is done: the
    database is not contacted, the key vault is not called and the
    rate-limit store is left alone. Whenever any outside call is made, the
    credential was the admin secret; and with the admin secret, a request
    the rate limiter lets through for a well-formed id is handed to
    [decryptApplication]: the calls and the answer are its own. *)
Theorem wrong_credential_never_decrypts env w g now req :
  (headers_authorization req = None → query_token req = None →
     (response (getDecrypt env w g now req)).1 = 401 ∧
     calls (getDecrypt env w g now req) = [] ∧
     store (getDecrypt env w g now req) = g) ∧
  (∀ token, extractToken req = Some token →
     token ≠ "" → token ≠ validToken env →
     (response (getDecrypt env w g now req)).1 = 403 ∧
     calls (getDecrypt env w g now req) = [] ∧
     store (getDecrypt env w g now req) = g) ∧
  (calls (getDecrypt env w g now req) ≠ [] →
     extractToken req = Some (validToken env)) ∧
  (truthy_str (extractToken req) = false →
     (response (getDecrypt env w g now req)).1 = 401 ∧
     calls (getDecrypt env w g now req) = [] ∧
     store (getDecrypt env w g now req) = g) ∧
  (∀ h, headers_authorization req = Some h →
     String.prefix "Bearer " h = true →
     extractToken req = Some (substring_from 7 h)) ∧
  ((∀ h, headers_authorization req = Some h →
      String.prefix "Bearer " h = false) →
     extractToken req
     = if truthy_str (query_token req) then query_token req else None) ∧
  (extractToken req = Some (validToken env) →
     (adminRateLimit g now req).2 = Next →
     isValid (validateApplicationId (params_id req)) = true →
     calls (getDecrypt env w g now req)
     = trace (decryptApplication w (VObj []) now (params_id req)) ∧
     response (getDecrypt env w g now req)
     = sent (decryptApplication w (VObj []) now (params_id req))).
Proof.
  assert (truthy_str (extractToken req) = false →
          (response (getDecrypt env w g now req)).1 = 401 ∧
          calls (getDecrypt env w g now req) = [] ∧
          store (getDecrypt env w g now req) = g) as Hfalsy.
  { intros Ht.
    destruct (adminChain_unauthenticated env g now req) as [Hg [body Hb]].
    { unfold validateAdminToken. by rewrite Ht. }
    rewrite Ht in Hb.
    destruct (getDecrypt_turned_away env w g now req) as (Hc & Hs & body' & Hb').
    { by rewrite Hb. }
    rewrite Hb in Hb'. injection Hb' as Hst _. by rewrite Hs, Hg, <- Hst. }
  split_and!.
  - intros Hh Hq.
    assert (extractToken req = None) as Hnone
      by (unfold extractToken; rewrite Hh, Hq; done).
    destruct (adminChain_unauthenticated env g now req) as [Hg [body Hb]].
    { by rewrite Hnone. }
    rewrite Hnone in Hb. simpl in Hb.
    destruct (getDecrypt_turned_away env w g now req) as (Hc & Hs & body' & Hb').
    { by rewrite Hb. }
    rewrite Hb in Hb'. injection Hb' as Hst _. by rewrite Hs, Hg, <- Hst.
  - intros token Htok Hne Hwrong.
    assert (truthy_str (extractToken req) = true) as Ht.
    { rewrite Htok. simpl. apply negb_true_iff. by apply String.eqb_neq. }
    destruct (adminChain_unauthenticated env g now req) as [Hg [body Hb]].
    { unfold validateAdminToken. rewrite Ht, Htok. simpl.
      by apply String.eqb_neq. }
    rewrite Ht in Hb.
    destruct (getDecrypt_turned_away env w g now req) as (Hc & Hs & body' & Hb').
    { by rewrite Hb. }
    rewrite Hb in Hb'. injection Hb' as Hst _. by rewrite Hs, Hg, <- Hst.
  - intros Hcalls.
    destruct (validateAdminToken env (extractToken req)) eqn:Hv.
    + unfold validateAdminToken in Hv.
      destruct (truthy_str (extractToken req)); [|done].
      destruct (extractToken req) as [t|]; [|done]. simpl in Hv.
      apply String.eqb_eq in Hv. by subst.
    + destruct (adminChain_unauthenticated env g now req Hv) as [_ [body Hb]].
      destruct (getDecrypt_turned_away env w g now req) as (Hc & _).
      { by rewrite Hb. }
      done.
  - exact Hfalsy.
  - intros h Hh Hprefix. unfold extractToken. rewrite Hh.
    unfold startsWith_Bearer. rewrite Hprefix.
    destruct h; [done|]. done.
  - intros Hscheme. unfold extractToken.
    destruct (headers_authorization req) as [h|]; [|done].
    unfold startsWith_Bearer. rewrite (Hscheme h eq_refl).
    by rewrite andb_false_r.
  - intros Htok Hnext Hid.
    assert (validateAdminToken env (extractToken req) = true) as Hv.
    { unfold validateAdminToken. rewrite Htok. simpl.
      rewrite String.eqb_refl.
      unfold validToken, or_else.
      destruct (truthy_str env) eqn:He; [|done].
      destruct env as [e|]; [|done]. simpl in He. by rewrite He. }
    destruct (AuthFacts.adminChain_valid env g now req Hv) as [_ Ho].
    rewrite Hnext in Ho. unfold getDecrypt.
    assert (∀ r, (adminChain env g now req).1.2 = r → params_id r = params_id req)
      as Hreq.
    { intros r <-. unfold adminChain, authenticateAdmin.
      destruct (truthy_str (extractToken req)); simpl; [|done].
      rewrite Hv. simpl. by destruct (adminRateLimit _ _ _). }
    destruct (adminChain env g now req) as [[g' req'] o]. simpl in *. subst o.
    by rewrite (Hreq req' eq_refl), Hid.
Qed.

(** C4, as stated, fails. Three requests that supply a credential
    different from the admin secret and are answered 401, not 403: one
    under the Basic scheme, one that spells the scheme [bearer], and one
    whose header is ['Bearer '] with nothing after it while the token
    parameter holds the credential. *)
Lemma unrecognised_credential_is_401 :
  (response (getDecrypt None sampleWorld None 0
     {| headers_authorization := Some "Basic bGV0bWVpbg==";
        query_token := None; req_ip := Some "198.51.100.23";
        connection_remoteAddress := None;
        params_id := "0b5c1d2e-3f4a-4b6c-8d7e-9fa0b1c2d3e4";
        isAdmin := false |})).1 = 401 ∧
  (response (getDecrypt None sampleWorld None 0
     {| headers_authorization := Some "bearer letmein";
        query_token := None; req_ip := Some "198.51.100.23";
        connection_remoteAddress := None;
        params_id := "0b5c1d2e-3f4a-4b6c-8d7e-9fa0b1c2d3e4";
        isAdmin := false |})).1 = 401 ∧
  (response (getDecrypt None sampleWorld None 0
     {| headers_authorization := Some "Bearer ";
        query_token := Some "letmein"; req_ip := Some "198.51.100.23";
        connection_remoteAddress := None;
        params_id := "0b5c1d2e-3f4a-4b6c-8d7e-9fa0b1c2d3e4";
        isAdmin := false |})).1 = 401 ∧
  (401 ≠ 403).
Proof. by vm_compute. Qed.

Lemma wrong_credential_never_decrypts_witness :
  extractToken intruderRequest = Some "letmein" ∧
  "letmein" ≠ "" ∧ "letmein" ≠ validToken None ∧
  (response (getDecrypt None sampleWorld None 0 intruderRequest)).1 = 403 ∧
  calls (getDecrypt None sampleWorld None 0 intruderRequest) = [] ∧
  store (getDecrypt None sampleWorld None 0 intruderRequest) = None.
Proof.
  split; [reflexivity|]. split; [done|]. split; [by vm_compute|].
  destruct (wrong_credential_never_decrypts None sampleWorld None 0
              intruderRequest) as (_ & H & _).
  apply (H "letmein"); [reflexivity|done|by vm_compute].
Defined.

(** The middlewares only ever answer 401, 403 or 429. *)
Lemma adminChain_statuses env g now req status body :
  (adminChain env g now req).2 = Respond status body →
  status = 401 ∨ status = 403 ∨ status = 429.
Proof.
  unfold adminChain, authenticateAdmin, requireAdmin, adminRateLimit.
  repeat (case_match; simplify_eq/=); intros [=]; auto.
Qed.

(** C7. Whenever the admin decrypt endpoint answers 200, the record was
    found, its ciphertext was opened by the key vault and the plaintext
    parsed; the returned view carries the record's [id] and [createdAt]
    and the index fields next to the parsed data under [decryptedData].
    Its properties are exactly the ten of [viewKeys]: there is no
    [encrypted_data] (or [encryptedData]) and no [iv], and no property
    holds a Buffer. *)
Theorem decrypted_view_omits_ciphertext env w g now req :
  (response (getDecrypt env w g now req)).1 = 200 →
  ∃ row rows ciphertext plaintext data view timestamp,
    sql_select_by_id w (params_id req) = Some (row :: rows) ∧
    encrypted_data row = Some ciphertext ∧
    kv_decrypt w ciphertext = inr plaintext ∧
    JSON_parse_utf8 w plaintext = Some data ∧
    (response (getDecrypt env w g now req)).2
    = VObj [("success", VBool true); ("application", VObj view);
            ("timestamp", VStr timestamp)] ∧
    assoc "id" view = Some (VStr (Services.id row)) ∧
    assoc "createdAt" view = Some (VDate (created_at row)) ∧
    assoc "decryptedData" view = Some (VJson data) ∧
    map fst view = viewKeys ∧
    ("encrypted_data" ∉ map fst view) ∧
    ("encryptedData" ∉ map fst view) ∧
    ("iv" ∉ map fst view) ∧
    Forall (λ kv, ∀ bytes, kv.2 ≠ VBuffer bytes) view.
Proof.
  unfold getDecrypt.
  assert (params_id (adminChain env g now req).1.2 = params_id req) as Hid.
  { unfold adminChain, authenticateAdmin.
    repeat (case_match; simplify_eq/=); done. }
  pose proof (adminChain_statuses env g now req) as Hchain.
  destruct (adminChain env g now req) as [[g' req'] [status body|]];
    cbn [fst snd response] in *.
  { intros ->. destruct (Hchain 200 body eq_refl) as [?|[?|?]]; done. }
  rewrite Hid.
  destruct (isValid (validateApplicationId (params_id req)));
    cbn [negb response fst]; [|intros [=]].
  intros H200.
  destruct (decryptApplication_200 w (VObj []) now (params_id req) H200)
    as (row & rows & ciphertext & plaintext & data & Hrow & Hct & Hpt & Hdata
        & ->).
  exists row, rows, ciphertext, plaintext, data. do 2 eexists.
  split_and!; try done.
  - intros Hin. repeat (apply elem_of_cons in Hin as [[=]|Hin]).
    by apply elem_of_nil in Hin.
  - intros Hin. repeat (apply elem_of_cons in Hin as [[=]|Hin]).
    by apply elem_of_nil in Hin.
  - intros Hin. repeat (apply elem_of_cons in Hin as [[=]|Hin]).
    by apply elem_of_nil in Hin.
  - repeat constructor; simpl; try done;
      try (by destruct (name row)); try (by destruct (email row));
      try (by destruct (phone row)); try (by destruct (course row));
      try (by destruct (department row));
      try (by destruct (document_name row)).
Qed.

Lemma decrypted_view_omits_ciphertext_witness :
  (response (getDecrypt None sampleWorld None 0 decryptRequest)).1 = 200 ∧
  ∃ view timestamp,
    (response (getDecrypt None sampleWorld None 0 decryptRequest)).2
    = VObj [("success", VBool true); ("application", VObj view);
            ("timestamp", VStr timestamp)] ∧
    ("encrypted_data" ∉ map fst view) ∧ ("iv" ∉ map fst view).
Proof.
  assert ((response (getDecrypt None sampleWorld None 0 decryptRequest)).1 = 200)
    as H200 by (by vm_compute).
  split; [exact H200|].
  destruct (decrypted_view_omits_ciphertext None sampleWorld None 0
              decryptRequest H200)
    as (row & rows & ct & pt & data & view & ts & _ & _ & _ & _ & Hbody & _ & _
        & _ & _ & Hno_ct & _ & Hno_iv & _).
  exists view, ts. done.
Defined.

End AdminFacts.

Module AnalyticsFacts.
Import JS Services Admin Analytics.

Ltac visit_fields :=
  cbn -[num_ge gpa_or_zero num_of_decimal num_of_Z increment newer_than
        num_add or_unknown isoDate Z.add] in *.

Section Clock.
Variables cutoff1 cutoff2 : Z.

Lemma stats_visit_timeless s1 s2 total app :
  timeless s1 = timeless s2 →
  timeless (stats_visit cutoff1 (s1, total) app).1
  = timeless (stats_visit cutoff2 (s2, total) app).1 ∧
  (stats_visit cutoff1 (s1, total) app).2
  = (stats_visit cutoff2 (s2, total) app).2.
Proof.
  unfold timeless, stats_visit. visit_fields. intros Hs. simplify_eq.
  split; congruence.
Qed.

Lemma analytics_visit_timeless a1 a2 total app :
  timeless_analytics a1 = timeless_analytics a2 →
  timeless_analytics (analytics_visit cutoff1 (a1, total) app).1
  = timeless_analytics (analytics_visit cutoff2 (a2, total) app).1 ∧
  (analytics_visit cutoff1 (a1, total) app).2
  = (analytics_visit cutoff2 (a2, total) app).2.
Proof.
  unfold timeless_analytics, analytics_visit. visit_fields. intros Ha.
  simplify_eq. split; congruence.
Qed.

(** Two runs of the [forEach] under different clocks agree on everything
    but the count of recent records. *)
Lemma stats_fold_timeless applications : ∀ s1 s2 total,
  timeless s1 = timeless s2 →
  timeless (fold_left (stats_visit cutoff1) applications (s1, total)).1
  = timeless (fold_left (stats_visit cutoff2) applications (s2, total)).1 ∧
  (fold_left (stats_visit cutoff1) applications (s1, total)).2
  = (fold_left (stats_visit cutoff2) applications (s2, total)).2.
Proof.
  induction applications as [|app applications IH]; intros s1 s2 total Hs;
    [done|].
  cbn [fold_left].
  destruct (stats_visit_timeless s1 s2 total app Hs) as [Hs' Ht].
  destruct (stats_visit cutoff1 (s1, total) app) as [s1' t1].
  destruct (stats_visit cutoff2 (s2, total) app) as [s2' t2].
  cbn [fst snd] in *. subst t2. by apply IH.
Qed.

Lemma analytics_fold_timeless applications : ∀ a1 a2 total,
  timeless_analytics a1 = timeless_analytics a2 →
  timeless_analytics
    (fold_left (analytics_visit cutoff1) applications (a1, total)).1
  = timeless_analytics
      (fold_left (analytics_visit cutoff2) applications (a2, total)).1 ∧
  (fold_left (analytics_visit cutoff1) applications (a1, total)).2
  = (fold_left (analytics_visit cutoff2) applications (a2, total)).2.
Proof.
  induction applications as [|app applications IH]; intros a1 a2 total Ha;
    [done|].
  cbn [fold_left].
  destruct (analytics_visit_timeless a1 a2 total app Ha) as [Ha' Ht].
  destruct (analytics_visit cutoff1 (a1, total) app) as [a1' t1].
  destruct (analytics_visit cutoff2 (a2, total) app) as [a2' t2].
  cbn [fst snd] in *. subst t2. by apply IH.
Qed.

(** When both clocks put the same records inside the window, the runs
    agree altogether. *)
Lemma stats_fold_same applications : ∀ acc,
  Forall (λ app, newer_than cutoff1 app = newer_than cutoff2 app) applications →
  fold_left (stats_visit cutoff1) applications acc
  = fold_left (stats_visit cutoff2) applications acc.
Proof.
  induction applications as [|app applications IH]; intros acc Hall; [done|].
  apply Forall_cons in Hall as [Happ Hall]. cbn [fold_left].
  rewrite <- (IH _ Hall). f_equal.
  destruct acc as [s total]. unfold stats_visit. by rewrite Happ.
Qed.

Lemma analytics_fold_same applications : ∀ acc,
  Forall (λ app, newer_than cutoff1 app = newer_than cutoff2 app) applications →
  fold_left (analytics_visit cutoff1) applications acc
  = fold_left (analytics_visit cutoff2) applications acc.
Proof.
  induction applications as [|app applications IH]; intros acc Hall; [done|].
  apply Forall_cons in Hall as [Happ Hall]. cbn [fold_left].
  rewrite <- (IH _ Hall). f_equal.
  destruct acc as [a total]. unfold analytics_visit. by rewrite Happ.
Qed.

End Clock.

Lemma getAllApplications_reads_only w :
  Forall (λ e, e = SqlConnect ∨ e = SqlSelectAll) (getAllApplications w).1.
Proof.
  unfold getAllApplications, getConnection, bind, emit, ret, throw.
  repeat (case_match; simplify_eq/=);
    repeat first [apply Forall_nil_2 | apply Forall_cons_2; [by auto|]].
Qed.

(** C9, as the code has it. Both statistics handlers only open the
    connection and run the SELECT: they write nothing. Their result is a
    function of the records and of the clock reading. Two runs over the
    same records agree on the total, the department and course counts,
    the GPA distribution and the mean GPA whatever the clock; they agree
    on everything, the recent-application counts included, when both
    clock readings put the same records inside the one-week (and, for the
    admin analytics, one-month) window. *)
Theorem statistics_of_records_and_clock w now1 now2 later :
  ((getApplicationStats w now1 later).1 = (getAllApplications w).1 ∧
   (getApplicationAnalytics w now1 later).1 = (getAllApplications w).1 ∧
   Forall (λ e, e = SqlConnect ∨ e = SqlSelectAll) (getAllApplications w).1) ∧
  (∀ applications,
     timeless (computeStats now1 applications)
     = timeless (computeStats now2 applications)) ∧
  (∀ applications,
     timeless_analytics (computeAnalytics now1 applications)
     = timeless_analytics (computeAnalytics now2 applications)) ∧
  (∀ applications,
     Forall (λ app, newer_than (now1 - week) app = newer_than (now2 - week) app)
       applications →
     computeStats now1 applications = computeStats now2 applications) ∧
  (∀ applications,
     Forall (λ app, newer_than (now1 - week) app = newer_than (now2 - week) app)
       applications →
     Forall (λ app, newer_than (now1 - month) app = newer_than (now2 - month) app)
       applications →
     computeAnalytics now1 applications = computeAnalytics now2 applications).
Proof.
  split_and!.
  - unfold getApplicationStats. by repeat case_match.
  - unfold getApplicationAnalytics. by repeat case_match.
  - apply getAllApplications_reads_only.
  - intros applications. unfold computeStats.
    match goal with
    | |- context [fold_left (stats_visit (now1 - week)) _ (?s, ?t)] =>
        destruct (stats_fold_timeless (now1 - week) (now2 - week)
                    applications s s t eq_refl) as [Hs Ht]
    end.
    destruct (fold_left (stats_visit (now1 - week)) _ _) as [s1 t1].
    destruct (fold_left (stats_visit (now2 - week)) _ _) as [s2 t2].
    unfold timeless in *. visit_fields. simplify_eq. congruence.
  - intros applications. unfold computeAnalytics.
    match goal with
    | |- context [fold_left (analytics_visit (now1 - week)) _ (?a, ?t)] =>
        destruct (analytics_fold_timeless (now1 - week) (now2 - week)
                    applications a a t eq_refl) as [Ha Ht]
    end.
    destruct (fold_left (analytics_visit (now1 - week)) _ _) as [a1 t1].
    destruct (fold_left (analytics_visit (now2 - week)) _ _) as [a2 t2].
    unfold timeless_analytics in *. visit_fields. simplify_eq. congruence.
  - intros applications Hweek. unfold computeStats.
    by rewrite (stats_fold_same _ _ _ _ Hweek).
  - intros applications Hweek Hmonth. unfold computeAnalytics.
    rewrite (analytics_fold_same _ _ _ _ Hweek).
    assert (filter (λ app, newer_than (now1 - month) app = true) applications
            = filter (λ app, newer_than (now2 - month) app = true) applications)
      as ->; [|done].
    induction Hmonth as [|app l Happ _ IH]; [done|].
    apply Forall_cons in Hweek as [_ Hweek].
    rewrite !filter_cons, Happ, (IH Hweek). by repeat case_match.
Qed.

Lemma statistics_of_records_and_clock_witness :
  Forall (λ app, newer_than (1700000000000 - week) app
                 = newer_than (1700086400000 - week) app)
    (map sampleRow sampleIds) ∧
  computeStats 1700000000000 (map sampleRow sampleIds)
  = computeStats 1700086400000 (map sampleRow sampleIds).
Proof.
  assert (Forall (λ app, newer_than (1700000000000 - week) app
                         = newer_than (1700086400000 - week) app)
            (map sampleRow sampleIds)) as H by (repeat constructor).
  split; [exact H|].
  by apply (statistics_of_records_and_clock sampleWorld 1700000000000
              1700086400000 0).
Defined.

(** C9, as stated, fails: the same five records, counted on the day they
    arrived and again a month later, give five and no recent
    applications. *)
Lemma recent_count_changes_with_the_clock :
  (getApplicationStats sampleWorld 1700000000000 0).2.1 = 200 ∧
  (getApplicationStats sampleWorld 1702592000000 0).2.1 = 200 ∧
  recentApplications (computeStats 1700000000000 (map sampleRow sampleIds)) = 5 ∧
  recentApplications (computeStats 1702592000000 (map sampleRow sampleIds)) = 0 ∧
  overview_recentApplications
    (computeAnalytics 1700000000000 (map sampleRow sampleIds)) = 5 ∧
  overview_recentApplications
    (computeAnalytics 1702592000000 (map sampleRow sampleIds)) = 0 ∧
  (getApplicationStats sampleWorld 1700000000000 0).2
  ≠ (getApplicationStats sampleWorld 1702592000000 0).2.
Proof.
  do 6 (split; [by vm_compute|]).
  intros H.
  apply (f_equal (λ r, match r.2 with
                       | inr p => Some (recentApplications p.1)
                       | inl _ => None
                       end)) in H.
  vm_compute in H. discriminate.
Qed.

End AnalyticsFacts.

Module NonceFacts.
Import JS Validation Storage Client.

Lemma assoc_Map_set {V} key (v : V) m : assoc key (Map_set key v m) = Some v.
Proof.
  induction m as [|[k x] m IH]; simpl.
  - by rewrite String.eqb_refl.
  - destruct (String.eqb k key) eqn:Hk; simpl; by rewrite Hk.
Qed.

(** A missing [iv] is a validation error of the backend's validator. *)
Lemma iv_required data r :
  validateApplicationData data = inr r →
  truthy (get data "iv") = false →
  "Initialization vector (IV) is required" ∈ errors r ∧ isValid r = false.
Proof.
  unfold validateApplicationData.
  destruct (match data with JNull => true | _ => false end); [done|].
  destruct (if truthy (get data "phone") then _ else _) as [?|phone_ok];
    [done|].
  intros [= <-] Hiv. cbn [errors isValid].
  match goal with
  | |- ?x ∈ ?l ∧ _ => assert (x ∈ l) as Hin
  end.
  { rewrite !ValidationFacts.elem_of_push_if, Hiv. simpl. naive_solver. }
  split; [done|].
  apply bool_decide_eq_false. intros Hlen.
  apply nil_length_inv in Hlen. rewrite Hlen in Hin. by apply elem_of_nil in Hin.
Qed.

(** What the Key Vault backed handler sends out, for every vault,
    database and body. *)
Lemma vault_handler_calls c body t answer :
  VaultRoutes.postApplications c body = (t, answer) →
  (t = [] ∧ answer ≠ VaultRoutes.Submitted) ∨
  ∃ encryptedData iv,
    get body "encryptedData" = Some (JStr encryptedData) ∧
    get body "iv" = Some (JStr iv) ∧ iv ≠ "" ∧
    let plaintext := VaultRoutes.Buffer_from_base64 c encryptedData in
    (t = [VaultRoutes.GetKey] ∧ answer ≠ VaultRoutes.Submitted) ∨
    (t = [VaultRoutes.GetKey; VaultRoutes.Encrypt plaintext]
     ∧ answer ≠ VaultRoutes.Submitted) ∨
    ∃ encryptedPayload,
      VaultRoutes.encrypt c plaintext = inr encryptedPayload ∧
      ((t = [VaultRoutes.GetKey; VaultRoutes.Encrypt plaintext;
             VaultRoutes.Connect] ∧ answer ≠ VaultRoutes.Submitted) ∨
       t = [VaultRoutes.GetKey; VaultRoutes.Encrypt plaintext;
            VaultRoutes.Connect;
            VaultRoutes.InsertApplication encryptedPayload iv]).
Proof.
  unfold VaultRoutes.postApplications, insertApplicationSchema_safeParse.
  destruct (get body "encryptedData") as [[| | |encryptedData| |]|];
    try (intros [= <- <-]; by left).
  destruct (get body "iv") as [[| | |iv| |]|];
    try (intros [= <- <-]; by left).
  cbn [fst snd].
  destruct (String.eqb encryptedData "") eqn:He;
    [intros [= <- <-]; by left|].
  destruct (String.eqb_spec iv "") as [->|Hi];
    [intros [= <- <-]; by left|]. cbn [orb].
  unfold VaultRoutes.encryptDataWithKeyVault, VaultRoutes.saveApplication.
  intros Hrun. right. exists encryptedData, iv. split_and!; try done.
  cbv zeta.
  destruct (VaultRoutes.getKey c); [injection Hrun as <- <-; by left|].
  destruct (VaultRoutes.encrypt c _) as [?|encryptedPayload] eqn:Henc;
    [injection Hrun as <- <-; by right; left|].
  right; right. exists encryptedPayload. split; [done|].
  destruct (VaultRoutes.connect c); [injection Hrun as <- <-; by left|].
  destruct (VaultRoutes.insert c _ _); injection Hrun as <- <-; by right.
Qed.

(** C8, as the code has it. The nonce of the client-side encryption is
    not chosen by the encrypting function: [encryptData] hands the IV it
    is given to the cipher; the form draws the next twelve bytes of the
    browser's random source for every submission, encrypts with them and
    posts their base64 as [iv]. The server generates no nonce: the
    encryption by the Key Vault takes the decoded ciphertext and nothing
    else, and both handlers create a submission only from a request that
    carries a non-empty string [iv], which they store as received; the
    backend's validator reports a request without [iv]. *)
Theorem nonce_supplied_by_the_caller :
  (∀ subtle_encrypt dataString iv encryptedData,
     encryptData subtle_encrypt dataString iv = inr encryptedData →
     ∃ sealed, subtle_encrypt getDemoKey iv (codes dataString) = Some sealed ∧
               encryptedData = arrayBufferToBase64 sealed) ∧
  (∀ subtle_encrypt rs applicationData rs' body,
     handleSubmit subtle_encrypt rs true applicationData = (rs', Some body) →
     let iv := map (stream rs) (seq (cursor rs) 12) in
     ∃ encryptedData,
       encryptData subtle_encrypt applicationData iv = inr encryptedData ∧
       body = JObj [("encryptedData", JStr encryptedData);
                    ("iv", JStr (ivToBase64 iv))] ∧
       cursor rs' = (cursor rs + 12)%nat ∧ stream rs' = stream rs) ∧
  (∀ st file uuid now body st' file' applicationId,
     postApplications st file uuid now body
     = (st', file', Submitted applicationId) →
     ∃ encryptedData iv,
       get body "iv" = Some (JStr iv) ∧ iv ≠ "" ∧
       get body "encryptedData" = Some (JStr encryptedData) ∧
       applicationId = uuid ∧
       assoc uuid (applications st')
       = Some {| id := uuid; encryptedData := encryptedData; iv := iv;
                 submittedAt := now |}) ∧
  (∀ st file uuid now body,
     (∀ iv, get body "iv" = Some (JStr iv) → iv = "") →
     ∃ answer, postApplications st file uuid now body = (st, file, answer) ∧
               post_status answer = 400) ∧
  (∀ data r,
     validateApplicationData data = inr r →
     truthy (get data "iv") = false →
     isValid r = false) ∧
  (∀ c body plaintext,
     VaultRoutes.Encrypt plaintext ∈ (VaultRoutes.postApplications c body).1 →
     ∃ encryptedData,
       get body "encryptedData" = Some (JStr encryptedData) ∧
       plaintext = VaultRoutes.Buffer_from_base64 c encryptedData) ∧
  (∀ c body encryptedPayload iv,
     VaultRoutes.InsertApplication encryptedPayload iv
       ∈ (VaultRoutes.postApplications c body).1 →
     get body "iv" = Some (JStr iv) ∧ iv ≠ "" ∧
     ∃ encryptedData,
       get body "encryptedData" = Some (JStr encryptedData) ∧
       VaultRoutes.encrypt c (VaultRoutes.Buffer_from_base64 c encryptedData)
       = inr encryptedPayload) ∧
  (∀ c body,
     (VaultRoutes.postApplications c body).2 = VaultRoutes.Submitted →
     ∃ encryptedData iv encryptedPayload,
       get body "encryptedData" = Some (JStr encryptedData) ∧
       get body "iv" = Some (JStr iv) ∧ iv ≠ "" ∧
       (VaultRoutes.postApplications c body).1
       = [VaultRoutes.GetKey;
          VaultRoutes.Encrypt (VaultRoutes.Buffer_from_base64 c encryptedData);
          VaultRoutes.Connect;
          VaultRoutes.InsertApplication encryptedPayload iv]).
Proof.
  split_and!.
  - intros subtle_encrypt dataString iv encryptedData. unfold encryptData.
    destruct (subtle_encrypt _ _ _) as [sealed|]; [|done].
    intros [= <-]. eauto.
  - intros subtle_encrypt rs applicationData rs' body.
    unfold handleSubmit, generateIV, getRandomValues. cbn [negb].
    destruct (encryptData _ _ _) as [?|encryptedData]; [done|].
    intros [= <- <-]. eauto.
  - intros st file uuid now body st' file' applicationId.
    unfold postApplications, insertApplicationSchema_safeParse.
    destruct (get body "encryptedData") as [[| | |encryptedData| |]|]; try done.
    destruct (get body "iv") as [[| | |iv| |]|]; try done.
    cbn [fst snd].
    destruct (String.eqb encryptedData "") eqn:He; [done|].
    destruct (String.eqb iv "") eqn:Hi; [done|]. cbn [orb].
    unfold createApplication. destruct (initialize st file) as [st0 file0].
    cbn [fst snd id]. intros [= <- _ <-].
    exists encryptedData, iv. split_and!; try done.
    + by apply String.eqb_neq.
    + cbn [applications]. apply assoc_Map_set.
  - intros st file uuid now body Hiv.
    unfold postApplications, insertApplicationSchema_safeParse.
    destruct (get body "encryptedData") as [[| | |encryptedData| |]|];
      try (by eexists; split).
    destruct (get body "iv") as [[| | |iv| |]|]; try (by eexists; split).
    rewrite (Hiv iv eq_refl). cbn [fst snd].
    rewrite orb_true_r. by eexists; split.
  - intros data r Hr Hiv. by apply (iv_required data r Hr Hiv).
  - intros c body plaintext Hin.
    destruct (VaultRoutes.postApplications c body) as [t answer] eqn:Hrun.
    apply vault_handler_calls in Hrun as Hcalls. cbn [fst] in Hin.
    destruct Hcalls
      as [[-> _]|(encryptedData & iv & Henc & Hiv & Hne & Hcases)];
      [by apply elem_of_nil in Hin|].
    exists encryptedData. split; [done|]. cbv zeta in Hcases.
    destruct Hcases as [[-> _]|[[-> _]|(payload & _ & [[-> _]| ->])]];
      repeat (apply elem_of_cons in Hin as [Hin|Hin]; try done);
      try (by apply elem_of_nil in Hin); by injection Hin.
  - intros c body encryptedPayload iv Hin.
    destruct (VaultRoutes.postApplications c body) as [t answer] eqn:Hrun.
    apply vault_handler_calls in Hrun as Hcalls. cbn [fst] in Hin.
    destruct Hcalls
      as [[-> _]|(encryptedData & iv' & Henc & Hiv & Hne & Hcases)];
      [by apply elem_of_nil in Hin|].
    cbv zeta in Hcases.
    destruct Hcases as [[-> _]|[[-> _]|(payload & Hpayload & [[-> _]| ->])]];
      repeat (apply elem_of_cons in Hin as [Hin|Hin]; try done);
      try (by apply elem_of_nil in Hin).
    injection Hin as -> ->. split_and!; try done. by exists encryptedData.
  - intros c body Hanswer.
    destruct (VaultRoutes.postApplications c body) as [t answer] eqn:Hrun.
    apply vault_handler_calls in Hrun as Hcalls.
    cbn [fst snd] in *. subst answer.
    destruct Hcalls
      as [[_ ?]|(encryptedData & iv & Henc & Hiv & Hne & Hcases)].
    + done.
    + cbv zeta in Hcases.
      destruct Hcases as [[_ ?]|[[_ ?]|(payload & _ & [[_ ?]| ->])]];
        try done.
      by exists encryptedData, iv, payload.
Qed.

Lemma nonce_supplied_by_the_caller_witness :
  let body := JObj [("encryptedData", JStr "3q2+7w==")] in
  (∀ iv, get body "iv" = Some (JStr iv) → iv = "") ∧
  ∃ answer,
    postApplications newFileStorage Missing "id-1" 0 body
    = (newFileStorage, Missing, answer) ∧ post_status answer = 400.
Proof.
  assert (∀ iv, get (JObj [("encryptedData", JStr "3q2+7w==")]) "iv"
                = Some (JStr iv) → iv = "") as H by (intros iv [=]).
  split; [exact H|].
  destruct nonce_supplied_by_the_caller as (_ & _ & _ & Hpost & _).
  exact (Hpost newFileStorage Missing "id-1" 0 _ H).
Defined.

(** C8, as stated, fails. A request whose [iv] is a string of the
    caller's choosing is accepted and stored with that very [iv]; a second
    request with the same [iv] is accepted as well; [encryptData]
    encrypts with whatever IV it is passed (shown with a cipher that
    returns the IV it was given); and the Key Vault backed handler
    inserts the same request with the [iv] the caller chose. *)
Lemma caller_chosen_nonce_is_stored :
  let body := JObj [("encryptedData", JStr "3q2+7w==");
                    ("iv", JStr "Y2FsbGVyLWNob3Nlbg==")] in
  let '(st1, file1, answer1) :=
    postApplications newFileStorage Missing
      "0b5c1d2e-3f4a-4b6c-8d7e-9fa0b1c2d3e4" 1700000000000 body in
  let '(st2, file2, answer2) :=
    postApplications st1 file1
      "1c6d2e3f-4a5b-4c7d-9e8f-a0b1c2d3e4f5" 1700000000001 body in
  answer1 = Submitted "0b5c1d2e-3f4a-4b6c-8d7e-9fa0b1c2d3e4" ∧
  answer2 = Submitted "1c6d2e3f-4a5b-4c7d-9e8f-a0b1c2d3e4f5" ∧
  map iv (Map_values (applications st2))
  = ["Y2FsbGVyLWNob3Nlbg=="; "Y2FsbGVyLWNob3Nlbg=="] ∧
  encryptData (λ key iv data, Some iv) "{}" (codes "caller-chosen")
  = inr "Y2FsbGVyLWNob3Nlbg==" ∧
  VaultRoutes.postApplications VaultRoutes.sampleCloud body
  = ([VaultRoutes.GetKey; VaultRoutes.Encrypt (codes "3q2+7w==");
      VaultRoutes.Connect;
      VaultRoutes.InsertApplication (codes "3q2+7w==" ++ [0%N])
        "Y2FsbGVyLWNob3Nlbg=="],
     VaultRoutes.Submitted).
Proof. by vm_compute. Qed.

End NonceFacts.

Module StorageMoreFacts.
Import JS Storage StorageShape.

Lemma assoc_Map_set_eq {V} key (v : V) m : assoc key (Map_set key v m) = Some v.
Proof.
  induction m as [|[k x] m IH]; simpl.
  - by rewrite String.eqb_refl.
  - destruct (String.eqb k key) eqn:Hk; simpl; by rewrite Hk.
Qed.

Lemma assoc_Map_set_ne {V} key key' (v : V) m :
  key ≠ key' → assoc key' (Map_set key v m) = assoc key' m.
Proof.
  intros Hne. induction m as [|[k x] m IH]; simpl.
  - apply String.eqb_neq in Hne. by rewrite Hne.
  - destruct (String.eqb k key) eqn:Hk; simpl.
    + apply String.eqb_eq in Hk as ->.
      apply String.eqb_neq in Hne. by rewrite Hne.
    + destruct (String.eqb k key'); [done|apply IH].
Qed.

Lemma initialize_initialized st file : initialized (initialize st file).1 = true.
Proof.
  unfold initialize. destruct (initialized st) eqn:Hi; [done|].
  by destruct file.
Qed.

Lemma initialize_twice st file :
  initialize (initialize st file).1 (initialize st file).2 = initialize st file.
Proof.
  pose proof (initialize_initialized st file) as Hi.
  destruct (initialize st file) as [st' file']. simpl in *.
  unfold initialize. by rewrite Hi.
Qed.

(** X1. A record can be read back as soon as it is created:
    [getApplication] of the new id returns the record [createApplication]
    returned, which holds the id, the ciphertext, the IV and the time it
    was given; reading changes neither the store nor the file. *)
Theorem created_record_is_readable st file uuid now insertApp :
  let '(st1, file1, application) :=
    createApplication st file uuid now insertApp in
  getApplication st1 file1 uuid = (st1, file1, Some application) ∧
  application = {| id := uuid; encryptedData := insertApp.1;
                   iv := insertApp.2; submittedAt := now |}.
Proof.
  unfold createApplication, getApplication.
  pose proof (initialize_initialized st file) as Hi.
  destruct (initialize st file) as [st0 file0]. simpl in *.
  unfold initialize. simpl. rewrite Hi. simpl.
  by rewrite assoc_Map_set_eq.
Qed.

(** X2. Creating a record leaves every other id as it was: what
    [getApplication] returns for a different id is the same before and
    after. *)
Theorem create_keeps_other_records st file uuid now insertApp key :
  key ≠ uuid →
  let '(st1, file1, _) := createApplication st file uuid now insertApp in
  (getApplication st1 file1 key).2 = (getApplication st file key).2.
Proof.
  intros Hne. unfold createApplication, getApplication.
  pose proof (initialize_initialized st file) as Hi.
  destruct (initialize st file) as [st0 file0]. simpl in *.
  unfold initialize. simpl. rewrite Hi. simpl.
  by apply assoc_Map_set_ne.
Qed.

Lemma create_keeps_other_records_witness :
  "b2" ≠ "a1" ∧
  (getApplication
     (createApplication newFileStorage Missing "a1" 10 ("x", "i")).1.1
     (createApplication newFileStorage Missing "a1" 10 ("x", "i")).1.2
     "b2").2
  = (getApplication newFileStorage Missing "b2").2.
Proof.
  split; [done|].
  pose proof (create_keeps_other_records newFileStorage Missing "a1" 10
                ("x", "i") "b2") as H.
  destruct (createApplication newFileStorage Missing "a1" 10 ("x", "i"))
    as [[st1 file1] app].
  apply H. done.
Defined.

Lemma Map_set_length {V} key (v : V) m :
  length (Map_set key v m)
  = (length m + (if assoc key m is Some _ then 0 else 1))%nat.
Proof.
  induction m as [|[k x] m IH]; simpl; [done|].
  destruct (String.eqb k key); simpl; [lia|]. rewrite IH. lia.
Qed.

Lemma Array_sort_length {A} (f : A → A → Z) l :
  length (Array_sort f l) = length l.
Proof.
  induction l as [|x l IH]; simpl; [done|].
  fold (Array_sort f l). rewrite <- IH.
  generalize (Array_sort f l). intros s.
  induction s as [|y s IHs]; simpl; [done|].
  destruct (0 <? f x y); simpl; [by rewrite IHs|done].
Qed.

(** X3. A creation makes the listing one record longer when the id is new;
    when the id is already stored, its record is replaced and the listing
    keeps its length. *)
Theorem create_grows_listing_by_one st file uuid now insertApp :
  let '(st1, file1, _) := createApplication st file uuid now insertApp in
  length (getAllApplications st1 file1).2
  = (length (getAllApplications st file).2
     + (if (getApplication st file uuid).2 is Some _ then 0 else 1))%nat.
Proof.
  unfold createApplication, getAllApplications, getApplication.
  pose proof (initialize_initialized st file) as Hi.
  destruct (initialize st file) as [st0 file0]. simpl in *.
  unfold initialize. simpl. rewrite Hi. simpl.
  rewrite !Array_sort_length. unfold Map_values.
  rewrite !length_map. apply Map_set_length.
Qed.

Section Shape.
Implicit Types (m : list (string * Application)).

Lemma Map_set_fresh m key v :
  key ∉ map fst m → Map_set key v m = m ++ [(key, v)].
Proof.
  induction m as [|[k x] m IH]; simpl; [done|]. intros Hnin.
  apply not_elem_of_cons in Hnin as [Hne Hnin].
  assert (String.eqb k key = false) as -> by (apply String.eqb_neq; congruence).
  by rewrite IH.
Qed.

Lemma Map_set_keys m key v :
  map fst (Map_set key v m)
  = if assoc key m is Some _ then map fst m else map fst m ++ [key].
Proof.
  induction m as [|[k x] m IH]; simpl; [done|].
  destruct (String.eqb k key) eqn:Hk; simpl.
  - apply String.eqb_eq in Hk. by subst.
  - rewrite IH. by destruct (assoc key m).
Qed.

Lemma assoc_None_keys m key : assoc key m = None → key ∉ map fst m.
Proof.
  induction m as [|[k x] m IH]; simpl; [intros _; apply not_elem_of_nil|].
  destruct (String.eqb k key) eqn:Hk; [done|]. intros Hnone.
  apply String.eqb_neq in Hk. apply not_elem_of_cons. split; [congruence|auto].
Qed.

Lemma Map_set_well_keyed m app :
  well_keyed m → well_keyed (Map_set (id app) app m).
Proof.
  intros [Hnd Hid]. split.
  - rewrite Map_set_keys. destruct (assoc (id app) m) eqn:Ha; [done|].
    apply NoDup_app. split_and!; [done| |apply NoDup_singleton].
    intros k Hk Hk'. apply list_elem_of_singleton in Hk' as ->.
    by apply (assoc_None_keys _ _ Ha).
  - clear Hnd. induction Hid as [|[k x] m Hkx Hid IH]; simpl.
    + by repeat constructor.
    + destruct (String.eqb k (id app)) eqn:Hk; simpl.
      * apply String.eqb_eq in Hk. subst. by constructor.
      * by constructor.
Qed.

Lemma load_well_keyed apps : ∀ m,
  well_keyed m →
  well_keyed (fold_left (λ m app, Map_set (id app) app m) apps m).
Proof.
  induction apps as [|app apps IH]; intros m Hm; [done|].
  simpl. apply IH. by apply Map_set_well_keyed.
Qed.

(** Loading the values of a well-keyed map rebuilds it. *)
Lemma load_values m2 : ∀ m1,
  well_keyed (m1 ++ m2) →
  fold_left (λ m app, Map_set (id app) app m) (Map_values m2) m1 = m1 ++ m2.
Proof.
  induction m2 as [|[k x] m2 IH]; intros m1 Hwk; simpl.
  - by rewrite app_nil_r.
  - destruct Hwk as [Hnd Hid].
    assert (id x = k) as Hk.
    { apply Forall_app in Hid as [_ Hid]. by apply Forall_cons in Hid as [? _]. }
    assert (k ∉ map fst m1) as Hfresh.
    { rewrite map_app in Hnd. simpl in Hnd.
      apply NoDup_app in Hnd as (_ & Hdisj & _).
      intros Hin. apply (Hdisj k Hin). by left. }
    rewrite Hk, Map_set_fresh by done.
    rewrite (IH (m1 ++ [(k, x)])); rewrite <- app_assoc; [done|].
    by split.
Qed.

Lemma initialize_well_keyed st file :
  well_keyed (applications st) →
  well_keyed (applications (initialize st file).1).
Proof.
  intros Hwk. unfold initialize. destruct (initialized st); [done|].
  destruct file; simpl; [done|done|]. by apply load_well_keyed.
Qed.

Lemma create_well_keyed st file uuid now insertApp :
  well_keyed (applications st) →
  well_keyed (applications (createApplication st file uuid now insertApp).1.1).
Proof.
  intros Hwk. unfold createApplication.
  pose proof (initialize_well_keyed st file Hwk) as Hwk0.
  destruct (initialize st file) as [st0 file0]. simpl in *.
  by apply (Map_set_well_keyed _
              {| id := uuid; encryptedData := insertApp.1;
                 iv := insertApp.2; submittedAt := now |}).
Qed.

End Shape.

Lemma createAll_well_keyed subs : ∀ st file,
  well_keyed (applications st) →
  well_keyed (applications (createAll st file subs).1).
Proof.
  induction subs as [|[[uuid now] insertApp] subs IH]; intros st file Hwk;
    [done|].
  cbn [createAll].
  pose proof (create_well_keyed st file uuid now insertApp Hwk) as Hwk1.
  destruct (createApplication st file uuid now insertApp) as [[st1 file1] app].
  by apply IH.
Qed.

Lemma restart_after_create st file uuid now insertApp :
  well_keyed (applications st) →
  (createApplication st file uuid now insertApp).1.2
  = Contents (Map_values
                (applications (createApplication st file uuid now insertApp).1.1)) ∧
  applications (restart (createApplication st file uuid now insertApp).1.2)
  = applications (createApplication st file uuid now insertApp).1.1.
Proof.
  intros Hwk.
  pose proof (create_well_keyed st file uuid now insertApp Hwk) as Hwk1.
  unfold createApplication in *.
  destruct (initialize st file) as [st0 file0]. simpl in *.
  split; [done|]. unfold restart, initialize. simpl.
  by apply (load_values _ []).
Qed.

(** X4. A restart loses nothing: in a process that started with any
    applications.json (or none) and has created any number of records,
    what the next creation writes to the file is the whole collection,
    and a new process that loads this file holds exactly the same records
    in the same order as the one that wrote it. *)
Theorem restart_restores_collection file0
    (subs : list (string * Z * (string * string))) uuid now insertApp :
  let '(st, file) := createAll newFileStorage file0 subs in
  let '(st1, file1, _) := createApplication st file uuid now insertApp in
  file1 = Contents (Map_values (applications st1)) ∧
  applications (restart file1) = applications st1.
Proof.
  assert (well_keyed (applications newFileStorage)) as Hstart
    by (split; constructor).
  pose proof (createAll_well_keyed subs newFileStorage file0 Hstart) as Hwk.
  destruct (createAll newFileStorage file0 subs) as [st file].
  pose proof (restart_after_create st file uuid now insertApp Hwk) as H.
  by destruct (createApplication st file uuid now insertApp)
    as [[st1 file1] app].
Qed.

Lemma Map_set_values {V} key (v x : V) m :
  x ∈ Map_values (Map_set key v m) → x = v ∨ x ∈ Map_values m.
Proof.
  unfold Map_values. induction m as [|[k y] m IH]; simpl.
  - intros H. apply list_elem_of_singleton in H. by left.
  - destruct (String.eqb k key); simpl; intros H;
      apply elem_of_cons in H as [->|H]; auto.
    + right. by right.
    + right. by left.
    + destruct (IH H) as [->|Hin]; [by left|]. right. by right.
Qed.

(** Creations in a store that has been initialized: the file is rewritten
    by each of them, and every record held afterwards was held before or
    was created on the way. *)
Lemma createAll_records subs : ∀ st file,
  initialized st = true →
  initialized (createAll st file subs).1 = true ∧
  (subs ≠ [] →
   (createAll st file subs).2
   = Contents (Map_values (applications (createAll st file subs).1))) ∧
  Forall (λ app,
            app ∈ Map_values (applications st) ∨
            ∃ uuid now insertApp,
              (uuid, now, insertApp) ∈ subs ∧
              app = {| id := uuid; encryptedData := insertApp.1;
                       iv := insertApp.2; submittedAt := now |})
    (Map_values (applications (createAll st file subs).1)).
Proof.
  induction subs as [|[[uuid now] insertApp] subs IH]; intros st file Hinit.
  { simpl. split_and!; [done|done|]. apply Forall_forall. by left. }
  cbn [createAll]. unfold createApplication, initialize. rewrite Hinit.
  set (application := {| id := uuid; encryptedData := insertApp.1;
                         iv := insertApp.2; submittedAt := now |}).
  set (st1 := {| applications := Map_set uuid application (applications st);
                 initialized := initialized st |}).
  destruct (IH st1 (saveToFile st1) Hinit) as (Hi & Hfile & Hall).
  split_and!; [done| |].
  - intros _. destruct subs as [|sub subs]; [done|]. by apply Hfile.
  - eapply Forall_impl; [exact Hall|]. intros app [Hin|Hnew].
    + apply Map_set_values in Hin as [->|Hin]; [|by left].
      right. exists uuid, now, insertApp. split; [by left|done].
    + right. destruct Hnew as (u & n & i & Hin & ->).
      exists u, n, i. split; [by right|done].
Qed.

(** X24. A start without a readable applications.json. A missing file is
    created empty by the first read. A file that cannot be parsed is left
    alone by reads, which return an empty listing; but the first creation
    replaces it, and from then on the file holds the records created
    since the start and no other: whatever the old file held is gone. *)
Theorem unreadable_file_is_replaced
    (subs : list (string * Z * (string * string))) :
  (getAllApplications newFileStorage Missing).1.2 = Contents [] ∧
  (getAllApplications newFileStorage Missing).2 = [] ∧
  (getAllApplications newFileStorage Unreadable).1.2 = Unreadable ∧
  (getAllApplications newFileStorage Unreadable).2 = [] ∧
  (subs ≠ [] →
   ∃ records,
     (createAll newFileStorage Unreadable subs).2 = Contents records ∧
     records
     = Map_values (applications (createAll newFileStorage Unreadable subs).1) ∧
     Forall (λ app,
               ∃ uuid now insertApp,
                 (uuid, now, insertApp) ∈ subs ∧
                 app = {| id := uuid; encryptedData := insertApp.1;
                          iv := insertApp.2; submittedAt := now |})
       records).
Proof.
  split_and!; try done. intros Hne.
  destruct subs as [|[[uuid now] insertApp] subs]; [done|]. clear Hne.
  eexists. split_and!; [|reflexivity|].
  - cbn [createAll]. unfold createApplication, initialize. cbn [initialized].
    cbn [applications newFileStorage Map_set].
    set (application := {| id := uuid; encryptedData := insertApp.1;
                           iv := insertApp.2; submittedAt := now |}).
    set (st1 := {| applications := [(uuid, application)];
                   initialized := true |}).
    destruct subs as [|sub subs]; [done|].
    by apply (createAll_records (sub :: subs) st1 (saveToFile st1) eq_refl).
  - cbn [createAll]. unfold createApplication, initialize. cbn [initialized].
    cbn [applications newFileStorage Map_set].
    set (application := {| id := uuid; encryptedData := insertApp.1;
                           iv := insertApp.2; submittedAt := now |}).
    set (st1 := {| applications := [(uuid, application)];
                   initialized := true |}).
    destruct (createAll_records subs st1 (saveToFile st1) eq_refl)
      as (_ & _ & Hall).
    eapply Forall_impl; [exact Hall|]. intros app [Hin|Hnew].
    + apply list_elem_of_singleton in Hin as ->.
      exists uuid, now, insertApp. split; [by left|done].
    + destruct Hnew as (u & n & i & Hin & ->).
      exists u, n, i. split; [by right|done].
Qed.

Lemma unreadable_file_is_replaced_witness :
  (createAll newFileStorage Unreadable [("a1", 10, ("x", "i"))]).2
  = Contents [{| id := "a1"; encryptedData := "x"; iv := "i";
                 submittedAt := 10 |}].
Proof.
  destruct (unreadable_file_is_replaced [("a1", 10, ("x", "i"))])
    as (_ & _ & _ & _ & H).
  destruct H as (records & -> & -> & _); [done|reflexivity].
Defined.

End StorageMoreFacts.

Module CodecFacts.
Import JS Client Codec.

Ltac decide_N :=
  repeat match goal with
  | |- context [N.ltb ?a ?b] => destruct (N.ltb_spec a b)
  | |- context [N.leb ?a ?b] => destruct (N.leb_spec a b)
  | |- context [N.eqb ?a ?b] => destruct (N.eqb_spec a b)
  | H : context [N.ltb ?a ?b] |- _ => destruct (N.ltb_spec a b)
  | H : context [N.leb ?a ?b] |- _ => destruct (N.leb_spec a b)
  | H : context [N.eqb ?a ?b] |- _ => destruct (N.eqb_spec a b)
  end; simpl in *.

Ltac div_lia := zify; Z.to_euclidean_division_equations; lia.

Lemma list_ind3 {A} (P : list A → Prop) :
  P [] → (∀ a, P [a]) → (∀ a b, P [a; b]) →
  (∀ a b c r, P r → P (a :: b :: c :: r)) →
  ∀ l, P l.
Proof.
  intros H0 H1 H2 H3 l.
  assert (P l ∧ (∀ a, P (a :: l)) ∧ (∀ a b, P (a :: b :: l))) as [? _];
    [|done].
  induction l as [|x l (IH0 & IH1 & IH2)]; [by auto|].
  split_and!; [done|done|]. intros a b. by apply H3.
Qed.

Lemma b64_value_char n : (n < 64)%N → b64_value (b64_char n) = Some n.
Proof.
  intros Hn. unfold b64_value, b64_char.
  decide_N; try lia; f_equal; lia.
Qed.

Lemma b64_value_range c n : b64_value c = Some n → (n < 64)%N.
Proof.
  unfold b64_value. intros H. decide_N; simplify_eq; lia.
Qed.

Lemma b64_char_value c n : b64_value c = Some n → b64_char n = c.
Proof.
  unfold b64_value, b64_char. intros H. decide_N; simplify_eq; decide_N; lia.
Qed.

Lemma b64_char_plain n :
  is_ascii_whitespace (b64_char n) = false ∧ b64_char n ≠ 61%N.
Proof.
  unfold is_ascii_whitespace, b64_char. split; decide_N; lia.
Qed.

Lemma filter_keeps_all {A} (P : A → Prop) `{∀ x, Decision (P x)} l :
  Forall P l → filter P l = l.
Proof.
  induction 1 as [|x l Hx Hl IH]; [done|].
  rewrite filter_cons_True by done. by rewrite IH.
Qed.

(** The encoding is the alphabet characters of the six-bit groups,
    followed by at most two [=] that fill the last group of four. *)
Lemma btoa_shape l :
  ∃ k m, (k ≤ 2)%nat ∧
    btoa l = map b64_char (sextets l) ++ replicate k 61%N ∧
    (length (sextets l) + k = 4 * m)%nat.
Proof.
  induction l as [|a|a b|a b c r (k & m & Hk & Heq & Hlen)] using list_ind3.
  - exists 0%nat, 0%nat. split_and!; [lia|reflexivity|reflexivity].
  - exists 2%nat, 1%nat. split_and!; [lia|reflexivity|reflexivity].
  - exists 1%nat, 1%nat. split_and!; [lia|reflexivity|reflexivity].
  - exists k, (S m). split_and!; [done| |simpl; lia].
    cbn [btoa sextets map app]. by rewrite Heq.
Qed.

Lemma sextets_range l : Forall is_byte l → Forall (λ s, s < 64)%N (sextets l).
Proof.
  unfold is_byte.
  induction l as [|a|a b|a b c r IH] using list_ind3; cbn [sextets];
    intros Hl; repeat (apply Forall_cons in Hl as [? Hl]).
  - constructor.
  - repeat (apply Forall_cons_2; [div_lia|]). constructor.
  - repeat (apply Forall_cons_2; [div_lia|]). constructor.
  - repeat (apply Forall_cons_2; [div_lia|]). by apply IH.
Qed.

Lemma decode_sextets l : Forall is_byte l → decode (sextets l) = l.
Proof.
  unfold is_byte.
  induction l as [|a|a b|a b c r IH] using list_ind3; cbn [sextets decode];
    intros Hl; repeat (apply Forall_cons in Hl as [? Hl]).
  - done.
  - f_equal. div_lia.
  - f_equal; [div_lia|]. f_equal. div_lia.
  - rewrite IH by done. f_equal; [div_lia|]. f_equal; [div_lia|]. f_equal. div_lia.
Qed.

Lemma strip_equals_snoc xs : strip_equals (xs ++ [61%N]) = xs.
Proof. unfold strip_equals. rewrite rev_unit. simpl. apply rev_involutive. Qed.

Lemma strip_equals_plain xs : Forall (λ c, c ≠ 61%N) xs → strip_equals xs = xs.
Proof.
  intros Hxs. unfold strip_equals. destruct (rev xs) as [|c r] eqn:Hrev; [done|].
  assert (c ≠ 61%N) as Hc.
  { eapply (proj1 (Forall_forall _ _) Hxs).
    apply list_elem_of_In, in_rev, list_elem_of_In. rewrite Hrev. by left. }
  by apply N.eqb_neq in Hc as ->.
Qed.

Lemma strip_padding_padded xs k :
  (k ≤ 2)%nat → (length (xs ++ replicate k 61%N) mod 4 = 0)%nat →
  Forall (λ c, c ≠ 61%N) xs →
  strip_padding (xs ++ replicate k 61%N) = xs.
Proof.
  intros Hk Hlen Hxs. unfold strip_padding.
  apply Nat.eqb_eq in Hlen as ->.
  destruct k as [|[|[|k]]]; [| | |lia]; simpl.
  - rewrite app_nil_r. by rewrite !(strip_equals_plain xs).
  - by rewrite strip_equals_snoc, (strip_equals_plain xs).
  - change [61%N; 61%N] with ([61%N] ++ [61%N]). rewrite app_assoc.
    by rewrite !strip_equals_snoc.
Qed.

Lemma mapM_b64_value ss :
  Forall (λ s, s < 64)%N ss → mapM b64_value (map b64_char ss) = Some ss.
Proof.
  intros Hss. apply mapM_Some.
  induction Hss as [|s ss Hs Hss IH]; simpl; constructor; [|done].
  by apply b64_value_char.
Qed.

Lemma atob_btoa l : Forall is_byte l → atob (btoa l) = Some l.
Proof.
  intros Hl. destruct (btoa_shape l) as (k & m & Hk & Heq & Hlen).
  assert (Forall (λ c, c ≠ 61%N) (map b64_char (sextets l))) as Hplain.
  { apply Forall_forall. intros c Hc. apply list_elem_of_fmap in Hc as (s & -> & _).
    apply b64_char_plain. }
  unfold atob. rewrite filter_keeps_all.
  2:{ rewrite Heq. apply Forall_app. split.
      - apply Forall_forall. intros c Hc.
        apply list_elem_of_fmap in Hc as (s & -> & _). apply b64_char_plain.
      - apply Forall_forall. intros c Hc.
        by apply elem_of_replicate in Hc as [-> _]. }
  rewrite Heq, strip_padding_padded; [|done| |done].
  2:{ rewrite length_app, length_map, length_replicate, Hlen.
      by rewrite Nat.mul_comm, Nat.Div0.mod_mul. }
  rewrite length_map.
  destruct (Nat.eqb_spec (length (sextets l) mod 4) 1) as [Hone|_].
  { pose proof (Nat.div_mod_eq (length (sextets l)) 4) as Hdiv.
    rewrite Hone in Hdiv. lia. }
  rewrite mapM_b64_value by by apply sextets_range.
  simpl. by rewrite decode_sextets.
Qed.

Lemma codes_of_codes l : Forall is_byte l → codes (of_codes l) = l.
Proof.
  intros Hl. unfold codes, of_codes. rewrite list_ascii_of_string_of_list_ascii.
  induction Hl as [|b l Hb Hl IH]; simpl; [done|].
  by rewrite N_ascii_embedding, IH.
Qed.

Lemma of_codes_codes s : of_codes (codes s) = s.
Proof.
  unfold codes, of_codes. rewrite <- (string_of_list_ascii_of_string s) at 2.
  f_equal. induction (list_ascii_of_string s) as [|a l IH]; simpl; [done|].
  by rewrite ascii_N_embedding, IH.
Qed.

Lemma btoa_bytes l : Forall is_byte (btoa l).
Proof.
  destruct (btoa_shape l) as (k & m & _ & -> & _). apply Forall_app. split.
  - apply Forall_forall. intros c Hc.
    apply list_elem_of_fmap in Hc as (s & -> & _).
    unfold is_byte, b64_char. decide_N; lia.
  - apply Forall_forall. intros c Hc.
    apply elem_of_replicate in Hc as [-> _]. unfold is_byte. lia.
Qed.

(** X5. Decoding undoes encoding: [base64ToArrayBuffer] of what
    [arrayBufferToBase64] wrote for a buffer gives back the bytes of the
    buffer, whatever their number. *)
Theorem base64_round_trip bytes :
  Forall is_byte bytes →
  base64ToArrayBuffer (arrayBufferToBase64 bytes) = Some bytes.
Proof.
  intros Hb. unfold base64ToArrayBuffer, arrayBufferToBase64.
  rewrite codes_of_codes by apply btoa_bytes. by apply atob_btoa.
Qed.

Lemma base64_round_trip_witness :
  Forall is_byte [0; 255; 16; 200]%N ∧
  base64ToArrayBuffer (arrayBufferToBase64 [0; 255; 16; 200]%N)
  = Some [0; 255; 16; 200]%N.
Proof.
  assert (Forall is_byte [0; 255; 16; 200]%N) as Hb
    by (repeat (apply Forall_cons_2; [unfold is_byte; lia|]); constructor).
  split; [exact Hb|]. apply (base64_round_trip _ Hb).
Defined.

Lemma list_ind4 {A} (P : list A → Prop) :
  P [] → (∀ a, P [a]) → (∀ a b, P [a; b]) → (∀ a b c, P [a; b; c]) →
  (∀ a b c d r, P r → P (a :: b :: c :: d :: r)) →
  ∀ l, P l.
Proof.
  intros H0 H1 H2 H3 H4 l.
  assert (P l ∧ (∀ a, P (a :: l)) ∧ (∀ a b, P (a :: b :: l))
          ∧ (∀ a b c, P (a :: b :: c :: l))) as [? _]; [|done].
  induction l as [|x l (IH0 & IH1 & IH2 & IH3)]; [by auto|].
  split_and!; [done|done|done|]. intros a b c. by apply H4.
Qed.

Lemma decode_bytes ss : Forall (λ s, s < 64)%N ss → Forall is_byte (decode ss).
Proof.
  unfold is_byte.
  induction ss as [|a|a b|a b c|a b c d r IH] using list_ind4; cbn [decode];
    intros Hl; repeat (apply Forall_cons in Hl as [? Hl]).
  - constructor.
  - constructor.
  - repeat (apply Forall_cons_2; [div_lia|]). constructor.
  - repeat (apply Forall_cons_2; [div_lia|]). constructor.
  - repeat (apply Forall_cons_2; [div_lia|]). by apply IH.
Qed.

Lemma atob_bytes data binary : atob data = Some binary → Forall is_byte binary.
Proof.
  unfold atob. case_match; [done|]. intros Hb.
  apply bind_Some in Hb as (ss & Hss & Hb). simplify_eq.
  apply decode_bytes. apply mapM_Some in Hss. revert Hss.
  generalize (strip_padding (filter (λ c, is_ascii_whitespace c = false) data)).
  intros cs Hss. clear H.
  induction Hss as [|c s cs ss Hc _ IH]; constructor; [|done].
  by apply b64_value_range in Hc.
Qed.

(** X6. [isValidBase64] accepts exactly the strings that
    [arrayBufferToBase64] can write: a string passes if and only if it is
    the encoding of some sequence of bytes. Unpadded text, text with
    whitespace and values that are not strings fail. *)
Theorem isValidBase64_iff_encoding s :
  isValidBase64 (JStr s) = true
  ↔ ∃ bytes, Forall is_byte bytes ∧ s = arrayBufferToBase64 bytes.
Proof.
  unfold isValidBase64, arrayBufferToBase64. split.
  - destruct (atob (codes s)) as [binary|] eqn:Hatob; [|done].
    intros Heq. apply String.eqb_eq in Heq.
    exists binary. split; [by eapply atob_bytes|done].
  - intros (bytes & Hb & ->).
    rewrite codes_of_codes by apply btoa_bytes.
    rewrite atob_btoa by done. apply String.eqb_refl.
Qed.

(** X7. Decryption undoes encryption: with a cipher that decrypts what it
    encrypted, [decryptData] applied to the ciphertext [encryptData]
    returned and to the [ivToBase64] text of the same IV gives what
    [JSON.parse] makes of the very bytes that were encrypted. *)
Theorem decrypt_inverts_encrypt subtle_encrypt subtle_decrypt parse_utf8
    dataString iv encrypted :
  cipher_pair subtle_encrypt subtle_decrypt →
  Forall is_byte iv →
  encryptData subtle_encrypt dataString iv = inr encrypted →
  decryptData subtle_decrypt parse_utf8 encrypted (ivToBase64 iv)
  = match parse_utf8 (codes dataString) with
    | Some data => inr data
    | None => inl "Failed to decrypt data"
    end.
Proof.
  intros Hpair Hiv Henc. unfold encryptData in Henc.
  destruct (subtle_encrypt getDemoKey iv (codes dataString))
    as [ciphertext|] eqn:Hct; [|done].
  simplify_eq. apply Hpair in Hct as [Hbytes Hdec].
  unfold decryptData, ivToBase64, base64ToArrayBuffer, arrayBufferToBase64.
  rewrite !codes_of_codes by apply btoa_bytes.
  rewrite !atob_btoa by done. by rewrite Hdec.
Qed.

Lemma plain_cipher_pair : cipher_pair plain_encrypt plain_decrypt.
Proof.
  intros key iv plaintext ciphertext Henc. unfold plain_encrypt in Henc.
  destruct (forallb _ plaintext) eqn:Hall; simplify_eq. split.
  - apply Forall_app. split; [|by repeat constructor].
    apply Forall_forall. intros b Hb. apply list_elem_of_In in Hb.
    rewrite forallb_forall in Hall. apply Hall in Hb. by apply N.ltb_lt.
  - unfold plain_decrypt. by rewrite removelast_last.
Qed.

Lemma plain_tagged : tagged plain_encrypt.
Proof.
  intros key iv plaintext ciphertext Henc. unfold plain_encrypt in Henc.
  destruct (forallb _ plaintext); simplify_eq. by destruct plaintext.
Qed.

Lemma decrypt_inverts_encrypt_witness :
  cipher_pair plain_encrypt plain_decrypt ∧
  decryptData plain_decrypt (λ _, Some (JObj []))
    (arrayBufferToBase64 (codes "{}" ++ [0%N]))
    (ivToBase64 [1; 2; 3; 4; 5; 6; 7; 8; 9; 10; 11; 12]%N)
  = inr (JObj []).
Proof.
  split; [exact plain_cipher_pair|].
  apply (decrypt_inverts_encrypt plain_encrypt plain_decrypt
           (λ _, Some (JObj [])) "{}"
           [1; 2; 3; 4; 5; 6; 7; 8; 9; 10; 11; 12]%N).
  - exact plain_cipher_pair.
  - repeat (apply Forall_cons_2; [unfold is_byte; lia|]). constructor.
  - reflexivity.
Defined.

Lemma strip_equals_keeps c xs : c ≠ 61%N → c ∈ xs → c ∈ strip_equals xs.
Proof.
  intros Hc Hin. unfold strip_equals.
  destruct (rev xs) as [|c' r] eqn:Hrev; [done|].
  destruct (N.eqb_spec c' 61) as [->|_]; [|done].
  apply (f_equal (@rev N)) in Hrev. rewrite rev_involutive in Hrev.
  simpl in Hrev. subst xs. apply elem_of_app in Hin as [Hin|Hin]; [done|].
  by apply list_elem_of_singleton in Hin.
Qed.

Lemma atob_foreign data c :
  c ∈ data → is_ascii_whitespace c = false → b64_value c = None →
  c ≠ 61%N → atob data = None.
Proof.
  intros Hin Hws Hval Hpad. unfold atob.
  set (kept := filter (λ c, is_ascii_whitespace c = false) data).
  assert (c ∈ strip_padding kept) as Hkept.
  { assert (c ∈ kept) as Hk by by apply list_elem_of_filter.
    unfold strip_padding. case_match; [|done].
    by do 2 (apply strip_equals_keeps; [done|]). }
  case_match; [done|].
  destruct (mapM b64_value (strip_padding kept)) as [ss|] eqn:Hss; [|done].
  exfalso. assert (is_Some (mapM b64_value (strip_padding kept))) as HS by eauto.
  apply mapM_is_Some in HS.
  apply (proj1 (Forall_forall _ _) HS) in Hkept.
  unfold compose in Hkept. rewrite Hval in Hkept. by destruct Hkept.
Qed.

(** X8. Text that is not base64 is never decrypted: when the ciphertext
    or the IV holds a character that is neither of the base64 alphabet
    nor whitespace nor [=], [decryptData] fails with 'Failed to decrypt
    data', whatever the cipher and the parser would do. *)
Theorem decrypt_refuses_foreign_text subtle_decrypt parse_utf8
    encryptedData iv :
  foreign encryptedData ∨ foreign iv →
  decryptData subtle_decrypt parse_utf8 encryptedData iv
  = inl "Failed to decrypt data".
Proof.
  intros Hforeign. unfold decryptData, base64ToArrayBuffer.
  destruct Hforeign as [(c & Hin & Hws & Hval & Hpad)|(c & Hin & Hws & Hval & Hpad)].
  - by rewrite (atob_foreign _ c).
  - rewrite (atob_foreign (codes iv) c) by done. by case_match.
Qed.

Lemma decrypt_refuses_foreign_text_witness :
  foreign "U2FsdGVkX1+encrypted-data-sample-1" ∧
  decryptData plain_decrypt (λ _, Some JNull)
    "U2FsdGVkX1+encrypted-data-sample-1" "random-iv-base64-1"
  = inl "Failed to decrypt data".
Proof.
  assert (foreign "U2FsdGVkX1+encrypted-data-sample-1") as Hf.
  { exists 45%N. split_and!; [|reflexivity|reflexivity|lia].
    apply list_elem_of_In. vm_compute. tauto. }
  split; [exact Hf|].
  apply decrypt_refuses_foreign_text. by left.
Defined.

End CodecFacts.

Module AnalyticsMoreFacts.
Import JS Services Analytics.

Ltac visit_step :=
  cbn -[num_ge gpa_or_zero num_of_decimal num_of_Z increment newer_than
        num_add or_unknown isoDate Z.add Z.le filter length].

Lemma filter_newer_length cutoff (applications : list ApplicationRow) :
  (length (filter (λ app, newer_than cutoff app = true) applications)
   ≤ length applications)%nat.
Proof. apply length_filter. Qed.

Lemma stats_fold_counts cutoff applications : ∀ acc,
  let r := fold_left (stats_visit cutoff) applications acc in
  totalApplications r.1 = totalApplications acc.1 ∧
  gpa_high r.1 + gpa_medium r.1 + gpa_low r.1
  = gpa_high acc.1 + gpa_medium acc.1 + gpa_low acc.1
    + Z.of_nat (length applications) ∧
  recentApplications r.1
  = recentApplications acc.1
    + Z.of_nat (length (filter (λ app, newer_than cutoff app = true)
                          applications)).
Proof.
  induction applications as [|app applications IH]; intros acc.
  { simpl. split_and!; [done|lia|lia]. }
  cbn [fold_left]. cbn zeta in *.
  destruct (IH (stats_visit cutoff acc app)) as (Ht & Hb & Hr).
  rewrite Ht, Hb, Hr. clear IH Ht Hb Hr.
  destruct acc as [s total]. unfold stats_visit. visit_step.
  split_and!; [done| |].
  - destruct (num_ge _ _), (num_ge _ _); cbn [negb andb orb length]; lia.
  - destruct (newer_than cutoff app) eqn:Hn.
    + rewrite filter_cons_True by done. cbn [length]. lia.
    + rewrite filter_cons_False by congruence. cbn [length]. lia.
Qed.

Lemma analytics_fold_counts cutoff applications : ∀ acc,
  let r := fold_left (analytics_visit cutoff) applications acc in
  overview_totalApplications r.1 = overview_totalApplications acc.1 ∧
  gpa_excellent r.1 + gpa_good r.1 + gpa_average r.1 + gpa_belowAverage r.1
  = gpa_excellent acc.1 + gpa_good acc.1 + gpa_average acc.1
    + gpa_belowAverage acc.1 + Z.of_nat (length applications) ∧
  quality_high r.1 + quality_average r.1 + quality_low r.1
  = quality_high acc.1 + quality_average acc.1 + quality_low acc.1
    + Z.of_nat (length applications) ∧
  overview_recentApplications r.1
  = overview_recentApplications acc.1
    + Z.of_nat (length (filter (λ app, newer_than cutoff app = true)
                          applications)) ∧
  overview_pendingReview r.1 = overview_pendingReview acc.1.
Proof.
  induction applications as [|app applications IH]; intros acc.
  { simpl. split_and!; [done|lia|lia|lia|done]. }
  cbn [fold_left]. cbn zeta in *.
  destruct (IH (analytics_visit cutoff acc app)) as (Ht & Hg & Hq & Hr & Hp).
  rewrite Ht, Hg, Hq, Hr, Hp. clear IH Ht Hg Hq Hr Hp.
  destruct acc as [a total]. unfold analytics_visit. visit_step.
  split_and!; [done| | | |done].
  - destruct (num_ge _ _), (num_ge _ _), (num_ge _ _); cbn [negb andb orb length]; lia.
  - destruct (num_ge (gpa_or_zero (gpa app)) (num_of_decimal false 35 (-1))),
      (num_ge (gpa_or_zero (gpa app)) (num_of_Z 3)); cbn [negb andb orb length]; lia.
  - destruct (newer_than cutoff app) eqn:Hn.
    + rewrite filter_cons_True by done. cbn [length]. lia.
    + rewrite filter_cons_False by congruence. cbn [length]. lia.
Qed.

(** The running totals of the two handlers are the same numbers: the
    quality counts of the analytics are the GPA counts of the statistics. *)
Lemma visits_agree cutoff s a total app :
  (gpa_high s, gpa_medium s, gpa_low s, recentApplications s)
  = (quality_high a, quality_average a, quality_low a,
     overview_recentApplications a) →
  let r := stats_visit cutoff (s, total) app in
  let q := analytics_visit cutoff (a, total) app in
  (gpa_high r.1, gpa_medium r.1, gpa_low r.1, recentApplications r.1)
  = (quality_high q.1, quality_average q.1, quality_low q.1,
     overview_recentApplications q.1) ∧
  r.2 = q.2.
Proof.
  intros Heq. unfold stats_visit, analytics_visit. visit_step.
  simplify_eq. split; congruence.
Qed.

Lemma folds_agree cutoff applications : ∀ s a total,
  (gpa_high s, gpa_medium s, gpa_low s, recentApplications s)
  = (quality_high a, quality_average a, quality_low a,
     overview_recentApplications a) →
  let r := fold_left (stats_visit cutoff) applications (s, total) in
  let q := fold_left (analytics_visit cutoff) applications (a, total) in
  (gpa_high r.1, gpa_medium r.1, gpa_low r.1, recentApplications r.1)
  = (quality_high q.1, quality_average q.1, quality_low q.1,
     overview_recentApplications q.1) ∧
  r.2 = q.2.
Proof.
  induction applications as [|app applications IH]; intros s a total Heq.
  { done. }
  cbn [fold_left]. cbn zeta in *.
  destruct (visits_agree cutoff s a total app Heq) as [Hs Ht].
  destruct (stats_visit cutoff (s, total) app) as [s' t1].
  destruct (analytics_visit cutoff (a, total) app) as [a' t2].
  cbn [fst snd] in *. subst t2. by apply IH.
Qed.

Lemma average_kind total n :
  (n = 0%nat → average total n = VInt 0) ∧
  (n ≠ 0%nat → ∃ text, average total n = VStr text).
Proof.
  unfold average. split; intros Hn.
  - rewrite bool_decide_eq_false_2; [done|lia].
  - rewrite bool_decide_eq_true_2; [eauto|lia].
Qed.

(** X9. In the statistics every record is counted in exactly one GPA
    class: high, medium and low add up to the total; and the number of
    recent records is the number of records newer than a week, so it lies
    between zero and the total. The average GPA is the number 0 when
    there is no record and a text otherwise. *)
Theorem statistics_classes_add_up now applications :
  let stats := computeStats now applications in
  totalApplications stats = Z.of_nat (length applications) ∧
  gpa_high stats + gpa_medium stats + gpa_low stats = totalApplications stats ∧
  recentApplications stats
  = Z.of_nat (length (filter (λ app, newer_than (now - week) app = true)
                        applications)) ∧
  0 ≤ recentApplications stats ≤ totalApplications stats ∧
  (applications = [] → averageGpa stats = VInt 0) ∧
  (applications ≠ [] → ∃ text, averageGpa stats = VStr text).
Proof.
  cbn zeta. unfold computeStats.
  match goal with |- context [fold_left ?f ?l ?acc] =>
    pose proof (stats_fold_counts (now - week) l acc) as H;
    destruct (fold_left f l acc) as [s total] end.
  cbn [fst snd totalApplications gpa_high gpa_medium gpa_low
       recentApplications averageGpa] in *.
  destruct H as (Ht & Hb & Hr).
  pose proof (filter_newer_length (now - week) applications).
  destruct (average_kind total (length applications)) as [Hzero Htext].
  split_and!; try lia.
  - intros ->. by apply Hzero.
  - intros Hne. apply Htext. by destruct applications.
Qed.

(** X10. In the analytics the four GPA classes add up to the total and so
    do the three quality classes; the records of the last week are among
    those of the last thirty days:
    0 <= recentApplications <= monthlyGrowth <= totalApplications.
    Nothing is ever counted as pending review. *)
Theorem analytics_classes_add_up now applications :
  let a := computeAnalytics now applications in
  overview_totalApplications a = Z.of_nat (length applications) ∧
  gpa_excellent a + gpa_good a + gpa_average a + gpa_belowAverage a
  = overview_totalApplications a ∧
  quality_high a + quality_average a + quality_low a
  = overview_totalApplications a ∧
  0 ≤ overview_recentApplications a ≤ trends_monthlyGrowth a ∧
  trends_monthlyGrowth a ≤ overview_totalApplications a ∧
  overview_pendingReview a = 0.
Proof.
  cbn zeta. unfold computeAnalytics.
  match goal with |- context [fold_left ?f ?l ?acc] =>
    pose proof (analytics_fold_counts (now - week) l acc) as H;
    destruct (fold_left f l acc) as [a total] end.
  cbn [fst snd overview_totalApplications gpa_excellent gpa_good gpa_average
       gpa_belowAverage quality_high quality_average quality_low
       overview_recentApplications trends_monthlyGrowth
       overview_pendingReview] in *.
  destruct H as (Ht & Hg & Hq & Hr & Hp).
  pose proof (filter_newer_length (now - month) applications).
  assert (length (filter (λ app, newer_than (now - week) app = true)
                    applications)
          ≤ length (filter (λ app, newer_than (now - month) app = true)
                      applications))%nat as Hweek.
  { clear. induction applications as [|app applications IH]; [done|].
    destruct (newer_than (now - week) app) eqn:Hw.
    - assert (newer_than (now - month) app = true) as Hm.
      { unfold newer_than, week, month in *. lia. }
      rewrite !filter_cons_True by done. simpl. lia.
    - rewrite (filter_cons_False (λ app, newer_than (now - week) app = true))
        by congruence.
      destruct (newer_than (now - month) app) eqn:Hm.
      + rewrite filter_cons_True by done. simpl. lia.
      + rewrite filter_cons_False by congruence. done. }
  split_and!; lia.
Qed.

(** X11. The two dashboards agree: for the same records and the same
    clock, the quality classes of the analytics are the GPA classes of the
    statistics, and the totals, the recent counts and the average GPA
    texts are equal. *)
Theorem analytics_agree_with_statistics now applications :
  let stats := computeStats now applications in
  let a := computeAnalytics now applications in
  overview_totalApplications a = totalApplications stats ∧
  quality_high a = gpa_high stats ∧
  quality_average a = gpa_medium stats ∧
  quality_low a = gpa_low stats ∧
  overview_recentApplications a = recentApplications stats ∧
  demographics_averageGpa a = averageGpa stats.
Proof.
  cbn zeta. unfold computeStats, computeAnalytics.
  match goal with
  | |- context [fold_left (stats_visit ?c) ?l (?s, ?t)] =>
    match goal with |- context [fold_left (analytics_visit c) l (?a, t)] =>
      pose proof (folds_agree c l s a t eq_refl) as H;
      pose proof (stats_fold_counts c l (s, t)) as Hs;
      pose proof (analytics_fold_counts c l (a, t)) as Ha;
      destruct (fold_left (stats_visit c) l (s, t)) as [s' t1];
      destruct (fold_left (analytics_visit c) l (a, t)) as [a' t2]
    end
  end.
  cbn [fst snd totalApplications gpa_high gpa_medium gpa_low
       recentApplications averageGpa overview_totalApplications quality_high
       quality_average quality_low overview_recentApplications
       demographics_averageGpa] in *.
  destruct H as [Hq ->]. destruct Hs as (Hs & _). destruct Ha as (Ha & _).
  simplify_eq. split_and!; congruence.
Qed.

End AnalyticsMoreFacts.

Module AuthMoreFacts.
Import Auth.

Implicit Types (g : option (gmap string (list Z))).

Lemma chain_turns_away env g now req :
  validateAdminToken env (extractToken req) = false →
  (adminChain env g now req).1.1 = g ∧
  ((adminChain env g now req).2
   = Respond 401 {| error := "Authentication required";
                    message := "Please provide a valid admin token" |}
   ∨ (adminChain env g now req).2
     = Respond 403 {| error := "Invalid token";
                      message := "The provided token is not valid" |}).
Proof.
  intros Hv. unfold adminChain, authenticateAdmin. rewrite Hv.
  destruct (truthy_str (extractToken req)); simpl; auto.
Qed.

(** X12. Failed authentication is never throttled and never recorded:
    however many requests arrive without the admin secret, each one is
    answered 401 or 403, none is answered 429, and the rate-limit store is
    left exactly as it was. *)
Theorem failed_logins_are_never_throttled env g (reqs : list (Z * Request)) :
  Forall (λ r, validateAdminToken env (extractToken r.2) = false) reqs →
  (serveAll env g reqs).1 = g ∧
  length (serveAll env g reqs).2 = length reqs ∧
  Forall (λ o, ∃ body, o = Respond 401 body ∨ o = Respond 403 body)
    (serveAll env g reqs).2.
Proof.
  induction 1 as [|[now req] reqs Hreq _ (IHg & IHn & IHo)];
    [by repeat split|].
  cbn [serveAll]. simpl in Hreq.
  destruct (chain_turns_away env g now req Hreq) as [Hg Ho].
  destruct (adminChain env g now req) as [[g1 req1] o]. simpl in Hg, Ho.
  subst g1. destruct (serveAll env g reqs) as [g2 os]. simpl in *.
  split_and!; [done|by f_equal|]. constructor; [|done].
  destruct Ho as [->| ->]; eauto.
Qed.

Lemma failed_logins_are_never_throttled_witness :
  (serveAll None None
     (map (λ t, (t, Admin.intruderRequest))
        [0; 1; 2; 3; 4; 5; 6; 7; 8; 9; 10; 11])).1 = None.
Proof.
  apply (failed_logins_are_never_throttled None None
           (map (λ t, (t, Admin.intruderRequest))
              [0; 1; 2; 3; 4; 5; 6; 7; 8; 9; 10; 11])).
  repeat (apply Forall_cons_2; [reflexivity|]). constructor.
Defined.

(** What the chain answers depends on the store only through the window
    of the caller. *)
Lemma chain_outcome_by_window env g1 g2 now req :
  window g1 (rateLimitKey req) = window g2 (rateLimitKey req) →
  (adminChain env g1 now req).2 = (adminChain env g2 now req).2.
Proof.
  intros Hw. unfold adminChain, authenticateAdmin, requireAdmin.
  repeat (case_match; simplify_eq/=); try done.
  all: unfold adminRateLimit, window, rateLimitKey in *; simpl in *;
    repeat (case_match; simplify_eq/=); try done;
    match goal with
    | H1 : bool_decide _ = true, H2 : bool_decide _ = false |- _ =>
        apply bool_decide_eq_true in H1; apply bool_decide_eq_false in H2;
        rewrite Hw in *; lia
    end.
Qed.

Lemma chain_keeps_other_windows env g now req key :
  rateLimitKey req ≠ key →
  window (adminChain env g now req).1.1 key = window g key.
Proof.
  intros Hne. unfold adminChain, authenticateAdmin, requireAdmin.
  repeat (case_match; simplify_eq/=); try done.
  all: unfold adminRateLimit in *; repeat (case_match; simplify_eq/=);
    try done.
  unfold window. simpl. rewrite lookup_insert_ne; [done|].
  by unfold rateLimitKey in *.
Qed.

Lemma serveAll_keeps_other_windows env key (reqs : list (Z * Request)) : ∀ g,
  Forall (λ r, rateLimitKey r.2 ≠ key) reqs →
  window (serveAll env g reqs).1 key = window g key.
Proof.
  induction reqs as [|[now req] reqs IH]; intros g Hall; [done|].
  apply Forall_cons in Hall as [Hreq Hall]. cbn [serveAll].
  pose proof (chain_keeps_other_windows env g now req key Hreq) as Hw.
  destruct (adminChain env g now req) as [[g1 req1] o]. simpl in Hw.
  specialize (IH g1 Hall).
  destruct (serveAll env g1 reqs) as [g2 os]. simpl in *. congruence.
Qed.

(** X13. Callers do not share a quota: whatever other callers send, and
    however much, a caller is answered as if the others had sent
    nothing. *)
Theorem callers_do_not_share_quota env g (others : list (Z * Request))
    now req :
  Forall (λ r, rateLimitKey r.2 ≠ rateLimitKey req) others →
  (adminChain env (serveAll env g others).1 now req).2
  = (adminChain env g now req).2.
Proof.
  intros Hothers. apply chain_outcome_by_window.
  by apply serveAll_keeps_other_windows.
Qed.

Lemma callers_do_not_share_quota_witness :
  (adminChain None
     (serveAll None None
        (map (λ t, (t, Admin.decryptRequest))
           [0; 1; 2; 3; 4; 5; 6; 7; 8; 9; 10; 11])).1
     12
     {| headers_authorization := Some "Bearer admin-demo-token-2024";
        query_token := None; req_ip := Some "192.0.2.1";
        connection_remoteAddress := None; params_id := "";
        isAdmin := false |}).2 = Next.
Proof.
  rewrite (callers_do_not_share_quota None None
             (map (λ t, (t, Admin.decryptRequest))
                [0; 1; 2; 3; 4; 5; 6; 7; 8; 9; 10; 11])).
  - reflexivity.
  - repeat (apply Forall_cons_2; [by vm_compute|]). constructor.
Defined.

End AuthMoreFacts.

Module ApplicationsFacts.
Import JS Validation Applications.

Lemma push_if_nil cond msg errors :
  push_if cond msg errors = [] → cond = false ∧ errors = [].
Proof.
  unfold push_if. destruct cond; [|done].
  intros H. by apply app_eq_nil in H as [_ ?].
Qed.

Ltac peel_errors H :=
  repeat match type of H with
  | push_if _ _ _ = [] =>
      let Hc := fresh "Hc" in apply push_if_nil in H as [Hc H]
  end.

(** What a body that passes [validateApplicationData] holds. *)
Lemma valid_submission data r :
  validateApplicationData data = inr r → isValid r = true →
  (∃ encryptedData, get data "encryptedData" = Some (JStr encryptedData)
                    ∧ encryptedData ≠ "") ∧
  (∃ iv, get data "iv" = Some (JStr iv) ∧ iv ≠ "") ∧
  (truthy (get data "gpa") = true → isValidGpa (get data "gpa") = true).
Proof.
  unfold validateApplicationData.
  destruct (match data with JNull => true | _ => false end); [done|].
  destruct (if truthy (get data "phone") then _ else _) as [?|phone_ok];
    [done|].
  intros [= <-]. cbn [isValid errors]. intros Hv.
  apply bool_decide_eq_true in Hv. apply length_zero_iff_nil in Hv.
  peel_errors Hv.
  apply negb_false_iff in Hc8, Hc9.
  rewrite Hc9 in Hc7. rewrite Hc8 in Hc6. simpl in Hc6, Hc7.
  apply negb_false_iff in Hc6, Hc7.
  split_and!.
  - destruct (get data "encryptedData") as [[| | |s| |]|]; try done.
    exists s. split; [done|]. by intros ->.
  - destruct (get data "iv") as [[| | |s| |]|]; try done.
    exists s. split; [done|]. by intros ->.
  - intros Ht. rewrite Ht in *. simpl in *.
    by destruct (isValidGpa (get data "gpa")).
Qed.

Lemma zero_in_range : gpa_in_range (S754_zero false).
Proof. by vm_compute. Qed.

(** [parseFloat(gpa) || 0] of a falsy value is [0]. *)
Lemma falsy_gpa_is_zero gpa :
  truthy gpa = false → or_zero (parseFloat gpa) = S754_zero false.
Proof.
  destruct gpa as [j|]; [destruct j as [|b|x|s|items|fields]|]; cbn [truthy].
  - intros _. vm_compute. reflexivity.
  - destruct b; [discriminate|]. intros _. vm_compute. reflexivity.
  - destruct x as [sign|sign| |sign m e]; cbn [num_truthy]; try discriminate;
      intros _; try destruct sign; vm_compute; reflexivity.
  - destruct s as [|a s]; [intros _; vm_compute; reflexivity|].
    intros H. simpl in H. discriminate H.
  - discriminate.
  - discriminate.
  - intros _. vm_compute. reflexivity.
Qed.

Lemma stored_gpa_in_range data r :
  validateApplicationData data = inr r → isValid r = true →
  gpa_in_range (or_zero (or_zero (parseFloat (get data "gpa")))).
Proof.
  intros Hr Hv. destruct (valid_submission data r Hr Hv) as (_ & _ & Hgpa).
  destruct (truthy (get data "gpa")) eqn:Ht.
  - specialize (Hgpa eq_refl). unfold isValidGpa in Hgpa.
    apply andb_true_iff in Hgpa as [Hgpa Hle].
    apply andb_true_iff in Hgpa as [Hnan Hge].
    apply negb_true_iff in Hnan.
    unfold or_zero at 2.
    destruct (num_truthy (parseFloat (get data "gpa"))) eqn:Hp.
    + unfold or_zero. rewrite Hp. done.
    + apply zero_in_range.
  - rewrite falsy_gpa_is_zero by done. apply zero_in_range.
Qed.

(** Connecting sends nothing but the connect itself. *)
Lemma connection_only db call : call ∈ (getConnection db).1 → call = Connect.
Proof.
  unfold getConnection. destruct (pool db); cbn [fst]; intros H.
  - by apply elem_of_nil in H.
  - by apply list_elem_of_singleton in H.
Qed.

(** X14. Whatever is submitted, the GPA bound to the INSERT statement is
    a number between 0.0 and 4.0 (never NaN), so it fits the DECIMAL(3,2)
    column; the IV bound is the non-empty text the caller sent, unchanged,
    and the ciphertext is the decoding of the non-empty text the caller
    sent. *)
Theorem submission_binds_checked_values db body later inputs :
  Insert inputs ∈ (submitApplication db body later).1 →
  ∃ g encryptedData iv,
    assoc "gpa" inputs = Some (VJson (JNum g)) ∧ gpa_in_range g ∧
    get body "iv" = Some (JStr iv) ∧ iv ≠ "" ∧
    assoc "iv" inputs = Some (VJson (JStr iv)) ∧
    get body "encryptedData" = Some (JStr encryptedData) ∧
    encryptedData ≠ "" ∧
    assoc "encryptedData" inputs
    = Some (VBuffer (Buffer_from_base64 db encryptedData)).
Proof.
  unfold submitApplication.
  destruct (validateApplicationData body) as [thrown|r] eqn:Hr.
  { intros H. by apply elem_of_nil in H. }
  destruct (isValid r) eqn:Hv; simpl; [|intros H; by apply elem_of_nil in H].
  pose proof (stored_gpa_in_range body r Hr Hv) as Hgpa.
  destruct (valid_submission body r Hr Hv)
    as ((encryptedData & -> & Henc) & (iv & -> & Hiv) & _).
  unfold saveApplication.
  pose proof (connection_only db) as Honly.
  destruct (getConnection db) as [t [|]]; simpl; simpl in Honly.
  2:{ intros H. by apply Honly in H. }
  match goal with |- context [insert db ?i] => set (bound := i) end.
  assert (Insert inputs ∈ t ++ [Insert bound] → inputs = bound) as Hin.
  { intros H. apply elem_of_app in H as [H|H]; [by apply Honly in H|].
    apply list_elem_of_singleton in H. by injection H. }
  intros H.
  assert (inputs = bound) as ->
    by (destruct (insert db bound); simpl in H; by apply Hin).
  exists (or_zero (or_zero (parseFloat (get body "gpa")))), encryptedData, iv.
  split_and!; done.
Qed.

Lemma submission_binds_checked_values_witness :
  ∃ g, assoc "gpa"
         [("name", VStr ""); ("email", VStr ""); ("phone", VStr "");
          ("course", VStr ""); ("department", VStr "");
          ("gpa", VJson (JNum (num_of_decimal false 39 (-1))));
          ("documentName", VStr ""); ("encryptedData", VBuffer "QUJD");
          ("iv", VStr "AAECAwQFBgcICQoL")]
       = Some (VJson (JNum g)) ∧ gpa_in_range g.
Proof.
  destruct (submission_binds_checked_values sampleDb
              (JObj [("encryptedData", JStr "QUJD");
                     ("iv", JStr "AAECAwQFBgcICQoL"); ("gpa", JStr "3.9")])
              0
              [("name", VStr ""); ("email", VStr ""); ("phone", VStr "");
               ("course", VStr ""); ("department", VStr "");
               ("gpa", VJson (JNum (num_of_decimal false 39 (-1))));
               ("documentName", VStr ""); ("encryptedData", VBuffer "QUJD");
               ("iv", VStr "AAECAwQFBgcICQoL")])
    as (g & _ & _ & Hg & Hr & _).
  - vm_compute. right. left.
  - exists g. by split.
Defined.

Lemma bound_columns (updateData : Json) (columns : list string) :
  Forall (λ kv : string * Json,
            kv.1 ∈ columns ∧ get updateData kv.1 = Some kv.2)
    (omap (λ c, match get updateData c with
                | Some v => Some (c, v)
                | None => None
                end) columns).
Proof.
  induction columns as [|c columns IH]; csimpl; [constructor|].
  assert (∀ l : list (string * Json),
            Forall (λ kv, kv.1 ∈ columns ∧ get updateData kv.1 = Some kv.2) l →
            Forall (λ kv, kv.1 ∈ c :: columns
                          ∧ get updateData kv.1 = Some kv.2) l) as Hweaken.
  { intros l Hl. eapply Forall_impl; [exact Hl|].
    intros kv [Hin Hget]. split; [by right|done]. }
  destruct (get updateData c) as [v|] eqn:Hc; csimpl.
  - constructor; [split; [by left|done]|]. by apply Hweaken.
  - by apply Hweaken.
Qed.

Lemma no_bound_columns (updateData : Json) (columns : list string) :
  Forall (λ column, get updateData column = None) columns →
  omap (λ c, match get updateData c with
             | Some v => Some (c, v)
             | None => None
             end) columns = [].
Proof.
  induction 1 as [|c columns Hc _ IH]; csimpl; [done|]. by rewrite Hc.
Qed.

Lemma Service_update_calls db id updateData idq inputs set :
  Update idq inputs set ∈ (Service_updateApplication db id updateData).1 →
  idq = id ∧ inputs ≠ [] ∧
  Forall (λ kv, kv.1 ∈ updatable ∧ get updateData kv.1 = Some kv.2) inputs ∧
  set = set_list (map fst inputs).
Proof.
  unfold Service_updateApplication.
  pose proof (connection_only db) as Honly.
  destruct (getConnection db) as [t [|]]; cbn [negb fst] in *; cbv zeta.
  2:{ intros H. by apply Honly in H. }
  pose proof (bound_columns updateData updatable) as Hcols.
  match type of Hcols with Forall _ ?l => set (bound := l) in * end.
  case_bool_decide as Hlen.
  { intros H. by apply Honly in H. }
  assert (Update idq inputs set
            ∈ t ++ [Update id bound (set_list (map fst bound))] →
          idq = id ∧ inputs = bound ∧ set = set_list (map fst bound)) as Hin.
  { intros H. apply elem_of_app in H as [H|H]; [by apply Honly in H|].
    apply list_elem_of_singleton in H. by injection H. }
  intros H.
  assert (idq = id ∧ inputs = bound ∧ set = set_list (map fst bound))
    as (-> & -> & ->)
    by (destruct (update db id bound); by apply Hin).
  split_and!; [done| |done|done].
  intros Hnil. rewrite Hnil in Hlen. done.
Qed.

(** X15. An update never touches the ciphertext: whatever the body of
    [PUT /api/applications/:id] holds, the UPDATE statement is sent for
    the id of the path, which is a well-formed UUID, and sets at least one
    and only columns among name, email, phone, course, department and
    gpa, each to the value the body gives it, unchecked. No body makes it
    set [encrypted_data], [iv], [document_name], [id] or [created_at]. *)
Theorem update_sets_only_index_columns db id body later idq inputs set :
  Update idq inputs set ∈ (putApplication db id body later).1 →
  idq = id ∧ isValidUuid id = true ∧ inputs ≠ [] ∧
  Forall (λ kv, kv.1 ∈ updatable ∧ get body kv.1 = Some kv.2) inputs ∧
  set = set_list (map fst inputs) ∧
  Forall (λ column, column ∉ map fst inputs)
    ["encrypted_data"; "encryptedData"; "iv"; "document_name";
     "documentName"; "id"; "created_at"].
Proof.
  unfold putApplication, validateApplicationId.
  destruct (String.eqb id ""); [intros H; by apply elem_of_nil in H|].
  destruct (isValidUuid id) eqn:Huuid; simpl;
    [|intros H; by apply elem_of_nil in H].
  unfold updateApplication.
  destruct (Object_keys_length body) as [?|n];
    [intros H; by apply elem_of_nil in H|].
  destruct (n =? 0); [intros H; by apply elem_of_nil in H|].
  intros H.
  assert (Update idq inputs set ∈ (Service_updateApplication db id body).1)
    as Hcall.
  { destruct (Service_updateApplication db id body) as [t [?|[]]]; done. }
  apply Service_update_calls in Hcall as (-> & Hne & Hcols & ->).
  split_and!; try done.
  assert (Forall (λ column, column ∉ updatable)
            ["encrypted_data"; "encryptedData"; "iv"; "document_name";
             "documentName"; "id"; "created_at"]) as Hdisjoint
    by (apply (bool_decide_unpack _); by vm_compute).
  eapply Forall_impl; [exact Hdisjoint|].
  intros column Hcolumn Hin. apply Hcolumn.
  apply list_elem_of_fmap in Hin as (kv & -> & Hkv).
  by apply (proj1 (Forall_forall _ _) Hcols) in Hkv as [Hup _].
Qed.

Lemma update_sets_only_index_columns_witness :
  Forall (λ column, column ∉ map fst [("gpa", JStr "9.9")])
    ["encrypted_data"; "encryptedData"; "iv"; "document_name";
     "documentName"; "id"; "created_at"].
Proof.
  apply (update_sets_only_index_columns sampleDb
           "0b5c1d2e-3f4a-4b6c-8d7e-9fa0b1c2d3e4"
           (JObj [("gpa", JStr "9.9"); ("iv", JStr "AAAA")]) 0
           "0b5c1d2e-3f4a-4b6c-8d7e-9fa0b1c2d3e4"
           [("gpa", JStr "9.9")] "gpa = @gpa").
  vm_compute. right. left.
Defined.

(** X16. A body without any of the six columns cannot be applied: for a
    well-formed id, a database that can be reached (there is a pool, or
    [sql.connect] succeeds) and a body that is an object with properties,
    none of which is name, email, phone, course, department or gpa (a body
    with only [documentName], say), the answer is 500 'Failed to update
    application in database'; no UPDATE is sent, and nothing at all
    beyond the connect of a service that had no pool. *)
Theorem update_without_known_column db id fields later :
  isValidUuid id = true → pool db = true ∨ connect db = true →
  fields ≠ [] →
  Forall (λ column, get (JObj fields) column = None) updatable →
  (putApplication db id (JObj fields) later).2
  = (500, VObj [("error", VStr "Failed to update application");
                ("message",
                 VStr "Failed to update application in database")]) ∧
  (putApplication db id (JObj fields) later).1
  = (if pool db then [] else [Connect]) ∧
  ∀ idq inputs set,
    Update idq inputs set ∉ (putApplication db id (JObj fields) later).1.
Proof.
  intros Huuid Hreach Hfields Hnone.
  unfold putApplication, validateApplicationId.
  destruct (String.eqb_spec id "") as [->|_]; [done|].
  rewrite Huuid. cbn [negb isValid length bool_decide].
  rewrite bool_decide_eq_true_2 by done. cbn [negb].
  unfold updateApplication, Object_keys_length.
  assert ((Z.of_nat (length fields) =? 0) = false) as ->
    by (apply Z.eqb_neq; destruct fields; [done|simpl; lia]).
  unfold Service_updateApplication.
  assert (getConnection db = (if pool db then [] else [Connect], true))
    as ->.
  { unfold getConnection. destruct (pool db); [done|].
    by destruct Hreach as [?| ->]. }
  cbn [negb].
  rewrite (no_bound_columns (JObj fields) updatable) by done.
  cbn [length bool_decide fst snd].
  rewrite bool_decide_eq_true_2 by done. cbn [fst snd].
  split_and!; [done|done|].
  intros idq inputs set Hin. destruct (pool db).
  - by apply elem_of_nil in Hin.
  - by apply list_elem_of_singleton in Hin.
Qed.

Lemma update_without_known_column_witness :
  (putApplication sampleDb "0b5c1d2e-3f4a-4b6c-8d7e-9fa0b1c2d3e4"
     (JObj [("documentName", JStr "transcript.pdf")]) 0).2.1 = 500.
Proof.
  destruct (update_without_known_column sampleDb
              "0b5c1d2e-3f4a-4b6c-8d7e-9fa0b1c2d3e4"
              [("documentName", JStr "transcript.pdf")] 0) as (-> & _).
  - reflexivity.
  - by right.
  - done.
  - repeat (apply Forall_cons_2; [reflexivity|]). constructor.
  - reflexivity.
Defined.

End ApplicationsFacts.

Module ListingFacts.
Import JS Validation Services Listing.

Lemma mentions_VObj key fields :
  mentions key (VObj fields)
  = existsb (λ kv, String.eqb kv.1 key || mentions key kv.2) fields.
Proof.
  induction fields as [|[k x] fields IH]; [done|].
  simpl in *. by rewrite IH.
Qed.

Lemma mentions_VArr key items :
  mentions key (VArr items) = existsb (mentions key) items.
Proof.
  induction items as [|x items IH]; [done|]. simpl in *. by rewrite IH.
Qed.

Lemma mentions_VJson key j : mentions key (VJson j) = false.
Proof. done. Qed.

Lemma mentions_VText key o : mentions key (VText o) = false.
Proof. by destruct o. Qed.

Lemma existsb_false {A} (f : A → bool) l :
  Forall (λ x, f x = false) l → existsb f l = false.
Proof. induction 1 as [|x l Hx _ IH]; simpl; [done|]. by rewrite Hx. Qed.

(** A safe entry names its ten properties and nothing inside them. *)
Lemma safeApplication_keys key app :
  key ∉ map fst (safeApplication app) →
  mentions key (VObj (safeApplication app)) = false.
Proof.
  intros Hkey. rewrite mentions_VObj. apply existsb_false.
  apply Forall_forall. intros [k x] Hin. cbn [fst snd].
  assert (String.eqb k key = false) as ->.
  { apply String.eqb_neq. intros ->. apply Hkey.
    apply list_elem_of_fmap. by exists (key, x). }
  unfold safeApplication in Hin.
  repeat (apply elem_of_cons in Hin as [Hin|Hin];
          [injection Hin as -> ->; by rewrite ?mentions_VText|]).
  by apply elem_of_nil in Hin.
Qed.

(** X17. The page and limit parameters are checked but never applied:
    once they pass the check, [GET /api/applications] answers with every
    record of the table, one entry for each in the order of the table,
    and [count] is their number, whatever page and limit say. No entry,
    and nothing else in the response, carries [encrypted_data],
    [encryptedData] or [iv]: the ciphertext is replaced by the flag
    [hasEncryptedData]. *)
Theorem listing_ignores_pagination w query later t rows :
  isValid (validatePaginationParams query) = true →
  Services.getAllApplications w = (t, inr rows) →
  getApplications w query later
  = (t, listing_response (map safeApplication rows) (length rows) later) ∧
  Forall (λ key,
            mentions key (getApplications w query later).2.2 = false)
    ["encrypted_data"; "encryptedData"; "iv"].
Proof.
  intros Hvalid Hrows.
  assert (getApplications w query later
          = (t, listing_response (map safeApplication rows) (length rows)
                  later)) as ->.
  { unfold getApplications, getAllApplications. by rewrite Hvalid, Hrows. }
  split; [done|]. cbn [snd listing_response].
  apply Forall_forall. intros key Hkey.
  rewrite mentions_VObj. cbn [existsb fst snd].
  rewrite mentions_VArr. unfold VBool, VInt, VStr.
  rewrite !mentions_VJson, !orb_false_r.
  assert (existsb (mentions key) (map VObj (map safeApplication rows)) = false)
    as ->.
  { apply existsb_false. rewrite !Forall_map. apply Forall_true.
    intros app. apply safeApplication_keys.
    repeat (apply elem_of_cons in Hkey as [->|Hkey];
            [apply (bool_decide_unpack _); by vm_compute|]).
    by apply elem_of_nil in Hkey. }
  rewrite orb_false_r.
  repeat (apply elem_of_cons in Hkey as [->|Hkey]; [by vm_compute|]).
  by apply elem_of_nil in Hkey.
Qed.

Lemma listing_ignores_pagination_witness :
  isValid (validatePaginationParams
             (JObj [("page", JStr "2"); ("limit", JStr "1")])) = true ∧
  ∃ t, getApplications Admin.sampleWorld
         (JObj [("page", JStr "2"); ("limit", JStr "1")]) 0
       = (t, listing_response (map safeApplication
                                 (map Admin.sampleRow Admin.sampleIds)) 5 0).
Proof.
  assert (isValid (validatePaginationParams
                     (JObj [("page", JStr "2"); ("limit", JStr "1")])) = true)
    as Hvalid by (by vm_compute).
  split; [exact Hvalid|]. eexists.
  apply (listing_ignores_pagination Admin.sampleWorld _ 0 _
           (map Admin.sampleRow Admin.sampleIds) Hvalid).
  reflexivity.
Defined.

Lemma assoc_app {A} key (l1 l2 : list (string * A)) :
  assoc key (l1 ++ l2)
  = match assoc key l1 with Some v => Some v | None => assoc key l2 end.
Proof.
  induction l1 as [|[k v] l1 IH]; [done|]. simpl.
  by destruct (String.eqb k key).
Qed.

Lemma decryptData_succeeds w ciphertext t plaintext :
  decryptData w ciphertext = (t, inr plaintext)
  ↔ (t = [KvGetKey; KvDecrypt ciphertext] ∧ kv_isConfigured w = true ∧
     kv_getKey w = true ∧ kv_decrypt w ciphertext = inr plaintext).
Proof.
  unfold decryptData, getCryptoClient, catch, bind, emit, ret, throw.
  destruct (kv_isConfigured w), (kv_getKey w),
    (kv_decrypt w ciphertext) as [?|?]; simpl; naive_solver.
Qed.

(** What the entry of one record holds, read off the record and the
    vault alone. *)
Lemma processApplication_entry w row :
  let entry := (processApplication w row).2 in
  assoc "id" entry = Some (VStr (id row)) ∧
  assoc "encrypted_data" entry = None ∧ assoc "iv" entry = None ∧
  (∀ data,
     assoc "decryptedData" entry = Some data ↔
     ∃ ciphertext plaintext parsed,
       data = VJson parsed ∧
       encrypted_data row = Some ciphertext ∧
       kv_isConfigured w = true ∧ kv_getKey w = true ∧
       kv_decrypt w ciphertext = inr plaintext ∧
       JSON_parse_utf8 w plaintext = Some parsed) ∧
  (assoc "decryptionError" entry
   = match encrypted_data row, assoc "decryptedData" entry with
     | Some _, None => Some (VStr "Failed to decrypt data")
     | _, _ => None
     end).
Proof.
  cbn zeta. unfold processApplication.
  destruct (encrypted_data row) as [ciphertext|] eqn:Hct.
  2:{ cbn [snd]. split_and!; try done. intros data. split; [done|].
      by intros (? & ? & ? & _ & ? & _). }
  destruct (decryptData w ciphertext) as [t [message|plaintext]] eqn:Hdec.
  - cbn [snd]. rewrite !assoc_app. split_and!; try done.
    intros data. split; [done|].
    intros (ct & pt & parsed & _ & [= <-] & Hc & Hk & Hd & _).
    assert (decryptData w ciphertext = ([KvGetKey; KvDecrypt ciphertext], inr pt))
      as Hok by by apply decryptData_succeeds.
    congruence.
  - apply decryptData_succeeds in Hdec as (-> & Hc & Hk & Hd).
    destruct (JSON_parse_utf8 w plaintext) as [parsed|] eqn:Hparse;
      cbn [snd]; rewrite !assoc_app; split_and!; try done.
    + intros data. split.
      * intros [= <-]. by exists ciphertext, plaintext, parsed.
      * intros (ct & pt & parsed' & -> & [= <-] & _ & _ & Hd' & Hp').
        simpl. congruence.
    + intros data. split; [done|].
      intros (ct & pt & parsed' & -> & [= <-] & _ & _ & Hd' & Hp').
      congruence.
Qed.

(** X18. In the admin listing with decryption a record that cannot be
    decrypted spoils nothing but its own entry: the answer is 200 with one
    entry for each record, in order; an entry carries [decryptedData]
    exactly when the record has a ciphertext that the vault opens and
    whose plaintext parses, [decryptionError] exactly when it has a
    ciphertext and that fails, never both, and never the ciphertext or
    the IV. *)
Theorem decrypting_listing_isolates_failures w later t rows :
  Services.getAllApplications w = (t, inr rows) →
  ∃ entries,
    (getAllApplicationsWithDecryption w later).2
    = listing_response entries (length rows) later ∧
    Forall2 (λ row entry,
      assoc "id" entry = Some (VStr (id row)) ∧
      assoc "encrypted_data" entry = None ∧ assoc "iv" entry = None ∧
      (∀ data,
         assoc "decryptedData" entry = Some data ↔
         ∃ ciphertext plaintext parsed,
           data = VJson parsed ∧
           encrypted_data row = Some ciphertext ∧
           kv_isConfigured w = true ∧ kv_getKey w = true ∧
           kv_decrypt w ciphertext = inr plaintext ∧
           JSON_parse_utf8 w plaintext = Some parsed) ∧
      (assoc "decryptionError" entry
       = match encrypted_data row, assoc "decryptedData" entry with
         | Some _, None => Some (VStr "Failed to decrypt data")
         | _, _ => None
         end)) rows entries.
Proof.
  intros Hrows. unfold getAllApplicationsWithDecryption. rewrite Hrows.
  eexists. split; [reflexivity|].
  rewrite map_map. clear Hrows.
  induction rows as [|row rows IH]; [constructor|].
  cbn [map]. constructor; [|done]. apply processApplication_entry.
Qed.

Lemma decrypting_listing_isolates_failures_witness :
  ∃ entries,
    (getAllApplicationsWithDecryption Admin.sampleWorld 0).2
    = listing_response entries 5 0 ∧ length entries = 5%nat.
Proof.
  destruct (decrypting_listing_isolates_failures Admin.sampleWorld 0
              [SqlConnect; SqlSelectAll]
              (map Admin.sampleRow Admin.sampleIds) eq_refl)
    as (entries & Hresponse & Hentries).
  exists entries. split; [exact Hresponse|].
  apply Forall2_length in Hentries. by rewrite <- Hentries.
Defined.

Lemma sanitize_plain body :
  Forall (λ kv : string * Val, kv.1 ∉ sensitiveFields) body →
  sanitizeResponseBody body = body.
Proof.
  unfold sanitizeResponseBody.
  induction 1 as [|kv body Hkv _ IH]; [done|]. cbn [map].
  by rewrite IH, bool_decide_eq_false_2.
Qed.

(** X19. The redaction of logged responses is one level deep: in the
    answer of a successful admin decrypt, [decryptedData] lies inside
    [application], so [sanitizeResponseBody] returns the answer as it is
    and the decrypted record is what gets logged. *)
Theorem decrypted_answer_is_logged_unredacted w json_result now id fields :
  Admin.sent (Admin.decryptApplication w json_result now id) = (200, VObj fields) →
  sanitizeResponseBody fields = fields ∧
  mentions "decryptedData" (VObj (sanitizeResponseBody fields)) = true.
Proof.
  intros Hsent.
  destruct (AdminFacts.decryptApplication_200 w json_result now id)
    as (row & rows & ciphertext & plaintext & data & _ & _ & _ & _ & Hbody).
  { by rewrite Hsent. }
  rewrite Hsent in Hbody. injection Hbody as ->.
  rewrite sanitize_plain.
  - split; [done|]. rewrite mentions_VObj. cbn [existsb fst snd].
    rewrite mentions_VObj. cbn [existsb fst snd].
    rewrite !mentions_VText. unfold VStr, VBool. rewrite !mentions_VJson.
    by vm_compute.
  - repeat (apply Forall_cons_2;
            [apply (bool_decide_unpack _); by vm_compute|]).
    constructor.
Qed.

Lemma decrypted_answer_is_logged_unredacted_witness :
  ∃ fields,
    Admin.sent (Admin.decryptApplication Admin.sampleWorld VUndefined 0
            "0b5c1d2e-3f4a-4b6c-8d7e-9fa0b1c2d3e4") = (200, VObj fields) ∧
    sanitizeResponseBody fields = fields.
Proof.
  eexists. split; [by vm_compute|].
  eapply (decrypted_answer_is_logged_unredacted Admin.sampleWorld VUndefined 0
            "0b5c1d2e-3f4a-4b6c-8d7e-9fa0b1c2d3e4").
  by vm_compute.
Defined.

End ListingFacts.

Module PipelineFacts.
Import JS Validation Storage Client Codec.

Lemma btoa_nonempty bytes : bytes ≠ [] → arrayBufferToBase64 bytes ≠ "".
Proof.
  unfold arrayBufferToBase64, of_codes.
  destruct bytes as [|a [|b [|c r]]]; [done|done|done|]. intros _. done.
Qed.

Lemma random_bytes rs n :
  (∀ i, is_byte (stream rs i)) →
  Forall is_byte (getRandomValues rs n).1 ∧
  length (getRandomValues rs n).1 = n.
Proof.
  intros Hbytes. unfold getRandomValues. cbn [fst]. split.
  - apply Forall_forall. intros b Hb.
    apply list_elem_of_fmap in Hb as (i & -> & _). apply Hbytes.
  - by rewrite length_map, length_seq.
Qed.

(** X20. What an applicant submits is what the dashboard decrypts: when
    the form posts a submission and the server files it, the stored record
    is found under the new id, and [decryptData] applied to its ciphertext
    and IV gives what [JSON.parse] makes of the very text that was
    encrypted. It holds for every cipher that decrypts what it encrypted
    and never returns an empty ciphertext. *)
Theorem submission_decrypts_to_itself subtle_encrypt subtle_decrypt parse_utf8
    rs applicationData rs' body st file uuid now :
  cipher_pair subtle_encrypt subtle_decrypt →
  tagged subtle_encrypt →
  (∀ i, is_byte (stream rs i)) →
  handleSubmit subtle_encrypt rs true applicationData = (rs', Some body) →
  ∃ st1 file1 application,
    postApplications st file uuid now body = (st1, file1, Submitted uuid) ∧
    (getApplication st1 file1 uuid).2 = Some application ∧
    decryptData subtle_decrypt parse_utf8
      (encryptedData application) (iv application)
    = match parse_utf8 (codes applicationData) with
      | Some data => inr data
      | None => inl "Failed to decrypt data"
      end.
Proof.
  intros Hpair Htagged Hbytes Hsubmit.
  unfold handleSubmit, generateIV in Hsubmit. cbn [negb] in Hsubmit.
  destruct (random_bytes rs 12 Hbytes) as [Hiv Hlen].
  destruct (getRandomValues rs 12) as [nonce rs1]. cbn [fst] in Hiv, Hlen.
  unfold encryptData in Hsubmit.
  destruct (subtle_encrypt getDemoKey nonce (codes applicationData))
    as [ciphertext|] eqn:Hct; [|done].
  injection Hsubmit as <- <-.
  pose proof (Htagged _ _ _ _ Hct) as Hnonempty.
  apply Hpair in Hct as [Hcipherbytes Hdec].
  assert (arrayBufferToBase64 ciphertext ≠ "") as Hc
    by by apply btoa_nonempty.
  assert (ivToBase64 nonce ≠ "") as Hi.
  { apply btoa_nonempty. by destruct nonce. }
  unfold postApplications, insertApplicationSchema_safeParse.
  cbn [get assoc String.eqb Ascii.eqb Bool.eqb andb].
  change (assoc "encryptedData" ?l) with (Some (JStr (arrayBufferToBase64 ciphertext))).
  apply String.eqb_neq in Hc, Hi. cbn [fst snd]. rewrite Hc, Hi. cbn [orb].
  unfold createApplication, getApplication.
  pose proof (StorageMoreFacts.initialize_initialized st file) as Hinit.
  destruct (initialize st file) as [st0 file0]. cbn [fst] in Hinit.
  do 3 eexists. split; [reflexivity|].
  unfold initialize. cbn [initialized applications]. rewrite Hinit.
  cbn [snd applications]. rewrite StorageMoreFacts.assoc_Map_set_eq.
  split; [reflexivity|]. cbn [encryptedData iv fst snd].
  unfold decryptData, ivToBase64, base64ToArrayBuffer, arrayBufferToBase64.
  rewrite !CodecFacts.codes_of_codes by apply CodecFacts.btoa_bytes.
  rewrite !CodecFacts.atob_btoa by done. by rewrite Hdec.
Qed.

Lemma submission_decrypts_to_itself_witness :
  cipher_pair plain_encrypt plain_decrypt ∧ tagged plain_encrypt ∧
  ∃ st1 file1 application,
    postApplications newFileStorage Missing "id-1" 0
      (JObj [("encryptedData", JStr "e30A");
             ("iv", JStr "AAECAwQFBgcICQoL")])
    = (st1, file1, Submitted "id-1") ∧
    (getApplication st1 file1 "id-1").2 = Some application ∧
    decryptData plain_decrypt (λ _, Some (JObj []))
      (encryptedData application) (iv application)
    = inr (JObj []).
Proof.
  split; [exact CodecFacts.plain_cipher_pair|].
  split; [exact CodecFacts.plain_tagged|].
  apply (submission_decrypts_to_itself plain_encrypt plain_decrypt
           (λ _, Some (JObj []))
           {| stream := λ i, N.of_nat (i mod 251); cursor := 0 |} "{}"
           {| stream := λ i, N.of_nat (i mod 251); cursor := 12 |}).
  - exact CodecFacts.plain_cipher_pair.
  - exact CodecFacts.plain_tagged.
  - intros i. unfold is_byte. cbn [stream].
    pose proof (Nat.mod_upper_bound i 251). lia.
  - reflexivity.
Defined.

End PipelineFacts.

Module ChecksFacts.
Import JS Validation Services Admin Listing.

(** *** Numbers *)

Lemma SFcompare_antisym a b c :
  SFcompare a b = Some c → SFcompare b a = Some (CompOpp c).
Proof.
  destruct a as [s1|s1| |s1 m1 e1], b as [s2|s2| |s2 m2 e2]; simpl;
    try discriminate; intros [= <-]; try (by destruct s1);
    try (by destruct s2); try (by destruct s1, s2).
  f_equal. rewrite (Z.compare_antisym e1 e2).
  change (PosDef.Pos.compare_cont Eq) with Pos.compare.
  rewrite (Pos.compare_antisym m1 m2).
  destruct s1, s2, (e1 ?= e2), (m1 ?= m2)%positive; done.
Qed.

Lemma SFcompare_numbers a b :
  isNaN a = false → isNaN b = false → ∃ c, SFcompare a b = Some c.
Proof. destruct a, b; simpl; try discriminate; eauto. Qed.

(** Of two Numbers, when the first is not greater it is less or equal. *)
Lemma not_gt_le a b :
  isNaN a = false → isNaN b = false →
  num_gt a b = false → num_le a b = true.
Proof.
  intros Ha Hb. unfold num_gt, num_le, SFltb, SFleb.
  destruct (SFcompare_numbers a b Ha Hb) as [c Hc].
  rewrite (SFcompare_antisym a b c Hc), Hc. by destruct c.
Qed.

(** X21. Search parameters that pass [validateSearchParams] describe a
    range: a minimum and a maximum GPA, when given, parse to numbers
    between 0.0 and 4.0, and when both are given the minimum is at most
    the maximum; the text filters, when not empty, are strings. *)
Theorem accepted_search_is_a_range params :
  isValid (validateSearchParams params) = true →
  (∀ lo, get params "minGpa" = Some lo → gpa_in_range (parseFloat (Some lo))) ∧
  (∀ hi, get params "maxGpa" = Some hi → gpa_in_range (parseFloat (Some hi))) ∧
  (∀ lo hi, get params "minGpa" = Some lo → get params "maxGpa" = Some hi →
     num_le (parseFloat (Some lo)) (parseFloat (Some hi)) = true) ∧
  Forall (λ filter, truthy (get params filter) = true →
                    is_string (get params filter) = true)
    ["query"; "department"; "course"].
Proof.
  unfold validateSearchParams. cbn [isValid]. intros Hv.
  apply bool_decide_eq_true in Hv. apply length_zero_iff_nil in Hv.
  ApplicationsFacts.peel_errors Hv.
  assert (∀ lo, get params "minGpa" = Some lo →
                gpa_in_range (parseFloat (Some lo))) as Hlo.
  { intros lo Hget. rewrite Hget in Hc1. cbn [andb] in Hc1.
    apply negb_false_iff in Hc1. by apply ValidationFacts.isValidGpa_in_range. }
  assert (∀ hi, get params "maxGpa" = Some hi →
                gpa_in_range (parseFloat (Some hi))) as Hhi.
  { intros hi Hget. rewrite Hget in Hc0. cbn [andb] in Hc0.
    apply negb_false_iff in Hc0. by apply ValidationFacts.isValidGpa_in_range. }
  split_and!; [done|done| |].
  - intros lo hi Hget1 Hget2.
    destruct (Hlo lo Hget1) as (Hnan1 & _). destruct (Hhi hi Hget2) as (Hnan2 & _).
    rewrite Hget1, Hget2 in Hc. cbn [andb] in Hc. by apply not_gt_le.
  - repeat (apply Forall_cons_2;
            [intros Ht; rewrite Ht in *; cbn [andb] in *;
             by apply negb_false_iff|]).
    constructor.
Qed.

Lemma accepted_search_is_a_range_witness :
  isValid (validateSearchParams
             (JObj [("minGpa", JStr "2.5"); ("maxGpa", JStr "3.5")])) = true ∧
  num_le (parseFloat (Some (JStr "2.5"))) (parseFloat (Some (JStr "3.5")))
  = true.
Proof.
  assert (isValid (validateSearchParams
                     (JObj [("minGpa", JStr "2.5"); ("maxGpa", JStr "3.5")]))
          = true) as Hvalid by (by vm_compute).
  split; [exact Hvalid|].
  by apply (accepted_search_is_a_range _ Hvalid).
Defined.

(** *** Identifiers *)

Lemma matches_classes pattern : ∀ l,
  matches pattern l = true → Forall2 (λ cl c, in_class cl c = true) pattern l.
Proof.
  induction pattern as [|cl pattern IH]; intros [|c l] Hm; simpl in Hm;
    try discriminate Hm.
  - constructor.
  - apply andb_true_iff in Hm as [Hc Hm]. constructor; [done|by apply IH].
Qed.

Lemma class_characters cl c :
  in_class cl c = true → is_hex_digit c = true ∨ c = 45%N.
Proof.
  destruct cl; unfold in_class, is_hex_digit, is_digit; intros H.
  - by left.
  - right. by apply N.eqb_eq.
  - left. CodecFacts.decide_N; try done; lia.
  - left. CodecFacts.decide_N; try done; lia.
Qed.

(** X22. An id that passes [validateApplicationId] is a UUID and nothing
    else: the check accepts exactly what [isValidUuid] accepts, and an
    accepted id has 36 characters, each a hexadecimal digit or a dash, so
    no quote, space or other character reaches the handlers behind the
    check. A rejected id gets exactly one message. *)
Theorem accepted_id_is_a_uuid id :
  (isValid (validateApplicationId id) = true ↔ isValidUuid id = true) ∧
  (isValid (validateApplicationId id) = true →
     length (codes id) = 36%nat ∧
     Forall (λ c, is_hex_digit c = true ∨ c = 45%N) (codes id)) ∧
  (isValid (validateApplicationId id) = false →
     length (errors (validateApplicationId id)) = 1%nat).
Proof.
  assert (isValid (validateApplicationId id) = isValidUuid id) as Heq.
  { unfold validateApplicationId.
    destruct (String.eqb_spec id "") as [->|_]; [by vm_compute|].
    by destruct (isValidUuid id). }
  split_and!.
  - by rewrite Heq.
  - rewrite Heq. unfold isValidUuid. intros Hm.
    apply matches_classes in Hm. split.
    + apply Forall2_length in Hm. by rewrite <- Hm.
    + eapply Forall2_Forall_r; [exact Hm|].
      apply Forall_true. intros cl c. apply class_characters.
  - unfold validateApplicationId.
    destruct (String.eqb id ""); [done|]. by destruct (isValidUuid id).
Qed.

Lemma accepted_id_is_a_uuid_witness :
  isValid (validateApplicationId "0b5c1d2e-3f4a-4b6c-8d7e-9fa0b1c2d3e4") = true ∧
  length (codes "0b5c1d2e-3f4a-4b6c-8d7e-9fa0b1c2d3e4") = 36%nat.
Proof.
  assert (isValid (validateApplicationId "0b5c1d2e-3f4a-4b6c-8d7e-9fa0b1c2d3e4")
          = true) as Hvalid by (by vm_compute).
  split; [exact Hvalid|].
  destruct (accepted_id_is_a_uuid "0b5c1d2e-3f4a-4b6c-8d7e-9fa0b1c2d3e4")
    as (_ & Hshape & _).
  by apply Hshape.
Defined.

(** *** The batch *)

(** X23. One malformed id stops the whole batch before anything is
    read: the answer is 400 with exactly the malformed ids, in the order
    they were given, and neither the database nor the key vault is
    contacted, not even for the well-formed ids of the batch. *)
Theorem batch_with_malformed_id_does_nothing w now (applicationIds : list string) :
  Exists (λ id, isValid (validateApplicationId id) = false) applicationIds →
  ∃ details,
    decryptBatch w now (Some applicationIds) = ([], InvalidIds details) ∧
    details ≠ [] ∧
    details = filter (λ id, isValid (validateApplicationId id) = false)
                applicationIds ∧
    (∀ id, id ∈ details ↔
           id ∈ applicationIds ∧ isValid (validateApplicationId id) = false).
Proof.
  intros Hbad.
  set (details := filter (λ id, isValid (validateApplicationId id) = false)
                    applicationIds).
  assert (details ≠ []) as Hne.
  { apply Exists_exists in Hbad as (id & Hin & Hid).
    assert (id ∈ details) as Hd by by apply list_elem_of_filter.
    intros Hnil. rewrite Hnil in Hd. by apply elem_of_nil in Hd. }
  exists details. split_and!; [|done|done|].
  - unfold decryptBatch. destruct applicationIds as [|id ids].
    { by apply Exists_nil in Hbad. }
    fold details. rewrite bool_decide_eq_true_2; [done|].
    destruct details; [done|simpl; lia].
  - intros id. unfold details. rewrite list_elem_of_filter. naive_solver.
Qed.

Lemma batch_with_malformed_id_does_nothing_witness :
  (decryptBatch sampleWorld 0
     (Some ["0b5c1d2e-3f4a-4b6c-8d7e-9fa0b1c2d3e4"; "42"])).1 = [].
Proof.
  destruct (batch_with_malformed_id_does_nothing sampleWorld 0
              ["0b5c1d2e-3f4a-4b6c-8d7e-9fa0b1c2d3e4"; "42"])
    as (details & -> & _).
  - apply Exists_cons_tl, Exists_cons_hd. by vm_compute.
  - reflexivity.
Defined.

End ChecksFacts.
